(** * mysql-sniffer: frame carving, flow synchronisation, query
      canonicalisation and timing summaries

    A shallow embedding of the algorithmic core of [mysql-sniffer.go]:
    [carvePacket], [processPacket], [scanToken], [cleanupQuery],
    [calculateTimes], [parseFormat] and [handlePacket], followed by the
    properties the specification states about them and by further
    properties of the code.

    Conventions.
    - A Go [[]byte] and a Go [string] are both byte sequences; they are
      [list byte].  A slice that may be [nil] (the two flow buffers, the
      payload returned by [carvePacket]) is an [option (list byte)], with
      [None] for [nil].
    - [uint32] and [uint64] values are [Z] with the wrap-around written
      out ([u32], [u64]); [int] indices and lengths are [nat] where they
      index lists, and [Z] where the code compares them with [-1].
    - [log.Fatalf] ends the process: functions that can reach it return an
      [outcome].  Loops whose termination is not structural carry fuel.
    - [time.Now] and [rand.Intn] are inputs of [processPacket].
    - A run-time panic (an index or a slice bound out of range in
      [handlePacket]) is the result [Panics]. *)

From Stdlib Require Import ZArith Lia Bool List.
From Stdlib Require Import Strings.Byte Strings.String.
From Stdlib Require Import Floats.SpecFloat.
From Stdlib Require DecimalN.
From stdpp Require Import base option list countable gmap.

Local Open Scope Z_scope.

(** ** Bytes *)

Abbreviation bytes := (list byte).

Definition byte_val (b : byte) : Z := Z.of_N (Byte.to_N b).

Definition bytes_of (s : string) : bytes := list_byte_of_string s.

#[global] Instance byte_eq_decision : EqDecision byte := Byte.byte_eq_dec.

Definition byte_of_N (n : N) : byte := default Byte.x00 (Byte.of_N n).

Definition byte_of_to_N (b : byte) : byte_of_N (Byte.to_N b) = b :=
  f_equal (default Byte.x00) (Byte.of_to_N b).

#[global] Instance byte_inhabited : Inhabited byte := populate Byte.x00.

#[global] Instance byte_countable : Countable byte :=
  inj_countable' Byte.to_N byte_of_N byte_of_to_N.

(** A slice that may be [nil]. *)
Abbreviation slice := (option bytes).

Definition slice_bytes (s : slice) : bytes :=
  match s with Some b => b | None => [] end.

(** ** Fixed-width unsigned integers *)

Definition u32 (z : Z) : Z := z mod 2 ^ 32.
Definition u64 (z : Z) : Z := z mod 2 ^ 64.
(* Go's [int] is a 64-bit two's complement integer. *)
Definition i64 (z : Z) : Z := (z + 2 ^ 63) mod 2 ^ 64 - 2 ^ 63.

(** ** Results of code that can call [log.Fatalf] *)

Inductive outcome (A : Type) : Type :=
| Ok (a : A)
| Fatal (msg : string)
| OutOfFuel.
Arguments Ok {A} a.
Arguments Fatal {A} msg.
Arguments OutOfFuel {A}.

Definition obind {A B} (m : outcome A) (k : A -> outcome B) : outcome B :=
  match m with
  | Ok a => k a
  | Fatal msg => Fatal msg
  | OutOfFuel => OutOfFuel
  end.

Notation "'letok' x ':=' m 'in' k" := (obind m (fun x => k))
  (at level 10, x name, m at level 100, k at level 200).
Notation "'letok2' x y ':=' m 'in' k" := (obind m (fun '(x, y) => k))
  (at level 10, x name, y name, m at level 100, k at level 200).

(** ** Constants (the [const] block, lines 33-48) *)

Definition TOKEN_DEFAULT : Z := 0.
Definition TOKEN_QUOTE : Z := 1.
Definition TOKEN_NUMBER : Z := 2.
Definition TOKEN_WHITESPACE : Z := 3.
Definition COM_QUERY : Z := 3.
(* [F_NONE = iota] sits in the sixth line of the block, so iota is 5. *)
Definition F_NONE : Z := 5.
Definition F_QUERY : Z := 6.
Definition F_ROUTE : Z := 7.
Definition F_SOURCE : Z := 8.
Definition F_SOURCEIP : Z := 9.

(** ** The tokenizer: [scanToken] (lines 444-507) *)

Module Tokenizer.

(* [c == 39 || c == 34] *)
Definition is_quote (c : byte) : bool :=
  (byte_val c =? 39) || (byte_val c =? 34).

(* [c >= 48 && c <= 57] *)
Definition is_digit (c : byte) : bool :=
  (48 <=? byte_val c) && (byte_val c <=? 57).

(* [c == 32 || (c >= 9 && c <= 13)] *)
Definition is_space (c : byte) : bool :=
  (byte_val c =? 32) || ((9 <=? byte_val c) && (byte_val c <=? 13)).

(** The four [for i := 1; i < len(query); i++] loops.  [rest] is
    [query[i:]], [i] the loop index and [n] is [len(query)], the value
    returned when the loop runs off the end. *)

Fixpoint scan_quote (rest : bytes) (i : nat) (escaped : bool) (n : nat)
  : nat * Z :=
  match rest with
  | [] => (n, TOKEN_QUOTE)
  | c :: rest' =>
      if (byte_val c =? 39) || (byte_val c =? 34) then
        if escaped then scan_quote rest' (S i) false n
        else (i, TOKEN_QUOTE)
      else if byte_val c =? 92 then scan_quote rest' (S i) true n
      else scan_quote rest' (S i) false n
  end.

Fixpoint scan_number (rest : bytes) (i n : nat) : nat * Z :=
  match rest with
  | [] => (n, TOKEN_NUMBER)
  | c :: rest' =>
      if is_digit c then scan_number rest' (S i) n
      else (i, TOKEN_NUMBER)
  end.

Fixpoint scan_whitespace (rest : bytes) (i n : nat) : nat * Z :=
  match rest with
  | [] => (n, TOKEN_WHITESPACE)
  | c :: rest' =>
      if is_space c then scan_whitespace rest' (S i) n
      else (i, TOKEN_WHITESPACE)
  end.

Fixpoint scan_default (rest : bytes) (i n : nat) : nat * Z :=
  match rest with
  | [] => (n, TOKEN_DEFAULT)
  | c :: rest' =>
      if is_digit c then scan_default rest' (S i) n        (* Numbers, allow. *)
      else if is_quote c || is_digit c || is_space c
           then (i, TOKEN_DEFAULT)
      else scan_default rest' (S i) n
  end.

Definition scanToken (query : bytes) : outcome (nat * Z) :=
  match query with
  | [] => Fatal "scanToken called with empty query"
  | c :: rest =>
      let n := length query in
      if is_quote c then Ok (scan_quote rest 1 false n)
      else if is_digit c then Ok (scan_number rest 1 n)
      else if is_space c then Ok (scan_whitespace rest 1 n)
      else Ok (scan_default rest 1 n)
  end.

End Tokenizer.
Export Tokenizer.

(** ** The parts of Go's [strings] package the program uses

    [strings.Join(a, "")], [strings.Contains(s, ":")] and
    [strings.SplitN(s, sep, n)] for a one-byte [sep] and [n > 0], as the
    package documents them: [SplitN] returns at most [n] substrings, the
    last one being the unsplit remainder. *)

Module Strings.

Definition Join (a : list bytes) : bytes := concat a.

(* Index of the first [sep] in [s]. *)
Fixpoint IndexByte (s : bytes) (sep : byte) : option nat :=
  match s with
  | [] => None
  | c :: s' => if decide (c = sep) then Some 0%nat
               else S <$> IndexByte s' sep
  end.

Definition Contains (s : bytes) (sep : byte) : bool :=
  bool_decide (is_Some (IndexByte s sep)).

Fixpoint SplitN (s : bytes) (sep : byte) (n : nat) : list bytes :=
  match n with
  | O => []
  | S n' =>
      match n' with
      | O => [s]
      | S _ =>
          match IndexByte s sep with
          | None => [s]
          | Some m => take m s :: SplitN (drop (S m) s) sep n'
          end
      end
  end.

End Strings.

(** ** The canonicalizer: [cleanupQuery] (lines 509-543) *)

Module Canonicalizer.

Definition sp : byte := Byte.x20.      (* " " *)
Definition colon : byte := Byte.x3a.   (* ":" *)

(** One turn of the [for i := 0; i < len(query); ] loop body: the token
    at [query[i:]], the string appended to [qspace], and the new [i]. *)
Definition cleanup_step (query : bytes) (i : nat) (qspace : list bytes)
  : outcome (nat * list bytes) :=
  letok2 len toktype := scanToken (drop i query) in
  if toktype =? TOKEN_DEFAULT then
    Ok ((i + len)%nat, qspace ++ [take len (drop i query)])
  else if (toktype =? TOKEN_NUMBER) || (toktype =? TOKEN_QUOTE) then
    Ok ((i + len)%nat, qspace ++ [bytes_of "?"])
  else if toktype =? TOKEN_WHITESPACE then
    Ok ((i + len)%nat, qspace ++ [bytes_of " "])
  else Fatal "scanToken returned invalid token type".

Fixpoint cleanup_loop (fuel : nat) (query : bytes) (i : nat)
    (qspace : list bytes) : outcome (list bytes) :=
  if (i <? length query)%nat then
    match fuel with
    | O => OutOfFuel
    | S fuel' =>
        letok2 i' qspace' := cleanup_step query i qspace in
        cleanup_loop fuel' query i' qspace'
    end
  else Ok qspace.

(** Lines 511-533: the loop and [strings.Join(qspace, "")].  The loop
    gets one unit of fuel per byte of the query. *)
Definition joinTokens (query : bytes) : outcome bytes :=
  letok qspace := cleanup_loop (length query) query 0 [] in
  Ok (Strings.Join qspace).

(** Lines 535-540: "Remove hostname from the route information". *)
Definition routeApplies (tmp : bytes) : bool :=
  let parts := Strings.SplitN tmp sp 5 in
  (5 <=? length parts)%nat
  && bool_decide (parts !! 1%nat = Some (bytes_of "/*"))
  && bool_decide (parts !! 3%nat = Some (bytes_of "*/"))
  && Strings.Contains (parts !!! 2%nat) colon.

Definition stripRoute (tmp : bytes) : bytes :=
  let parts := Strings.SplitN tmp sp 5 in
  if routeApplies tmp then
    parts !!! 0%nat ++ bytes_of " /* "
      ++ Strings.SplitN (parts !!! 2%nat) colon 2 !!! 1%nat
      ++ bytes_of " */ " ++ parts !!! 4%nat
  else tmp.

Definition cleanupQuery (query : bytes) : outcome bytes :=
  letok tmp := joinTokens query in
  Ok (stripRoute tmp).

End Canonicalizer.
Export Canonicalizer.


(** ** The frame carver: [carvePacket] (lines 356-381)

    [carvePacket buf] is [(ptype, data, buf')]: the two results and the
    contents of [*buf] on return.  The index and slice expressions are
    always in range where the code reaches them ([datalen >= 5] and
    [5 <= size+4 <= datalen <= len( *buf )], see [carvePacket_in_range]),
    so they are plain [lookup_total], [take] and [drop]. *)

Module Carver.

Definition carvePacket (buf : slice) : Z * slice * slice :=
  let b := slice_bytes buf in
  let datalen := u32 (Z.of_nat (length b)) in
  if datalen <? 5 then (-1, None, buf)
  else
    let size :=
      u32 (u32 (u32 (byte_val (b !!! 0%nat))
                + u32 (Z.shiftl (u32 (byte_val (b !!! 1%nat))) 8))
           + u32 (Z.shiftl (u32 (byte_val (b !!! 2%nat))) 16)) in
    if (size =? 0) || (datalen <? u32 (size + 4)) then (-1, None, buf)
    else
      let end_ := u32 (size + 4) in
      let ptype := byte_val (b !!! 4%nat) in
      let data := drop 5 (take (Z.to_nat (u32 (size + 4))) b) in
      if end_ >=? datalen then (ptype, Some data, None)
      else (ptype, Some data, Some (drop (Z.to_nat end_) b)).

End Carver.
Export Carver.

(** ** The flow state machine: [processPacket] (lines 216-352) *)

Module queryData.
Record t : Type := mk {
  count : Z;            (* uint64 *)
  bytes : Z;            (* uint64 *)
  times : list Z        (* [100]uint64 *)
}.
Definition zero : t := mk 0 0 (replicate 100 0).
End queryData.

(** [qdata *queryData] only ever points at the record stored in [qbuf]
    under some key, and [qbuf] never drops or replaces a record: the
    pointer is the key. *)
Record source : Type := mkSource {
  src : bytes;
  srcip : bytes;
  synced : bool;
  reqbuffer : slice;
  resbuffer : slice;
  reqSent : option Z;       (* *time.Time, in nanoseconds *)
  reqTimes : list Z;        (* [100]uint64 *)
  qbytes : Z;               (* uint64 *)
  qdata : option bytes;     (* *queryData *)
  qtext : bytes
}.

(** The package-level variables [processPacket] writes. *)
Record globals : Type := mkGlobals {
  qbuf : gmap bytes queryData.t;
  querycount : Z;           (* int *)
  times : list Z;           (* [100]uint64 *)
  rcvd : Z;                 (* stats.packets.rcvd *)
  rcvd_sync : Z;            (* stats.packets.rcvd_sync *)
  desyncs : Z;              (* stats.desyncs *)
  streams : Z               (* stats.streams *)
}.

(** An element of [format []interface{}]. *)
Inductive item : Type :=
| ItemInt (n : Z)
| ItemString (s : bytes)
| ItemOther.

(** The package-level variables [processPacket] only reads. *)
Record config : Type := mkConfig {
  verbose : bool;
  dirty : bool;
  format : list item
}.

(** Line 432: [&source{src: src, srcip: srcip, synced: false}]. *)
Definition newSource (src srcip : bytes) : source :=
  mkSource src srcip false None None None (replicate 100 0) 0 None [].

Module Flow.

Definition count_stream (g : globals) : globals :=
  mkGlobals (qbuf g) (querycount g) (times g) (rcvd g) (rcvd_sync g)
    (desyncs g) (u64 (streams g + 1)).

(** Lines 429-435 of [handlePacket]: the flow of [src], created on its
    first packet.  [chmap] is returned with the new flow added.  [src]
    is printed as [a.b.c.d:port] just before, so [strings.Index] finds
    the colon. *)
Definition lookupSource (g : globals) (chmap : gmap bytes source)
    (src : bytes) : globals * gmap bytes source * source :=
  match chmap !! src with
  | Some rs => (g, chmap, rs)
  | None =>
      let srcip := take (default 0%nat (Strings.IndexByte src colon)) src in
      let rs := newSource src srcip in
      (count_stream g, <[src := rs]> chmap, rs)
  end.

Definition set_buffers (rs : source) (req res : slice) : source :=
  mkSource (src rs) (srcip rs) (synced rs) req res (reqSent rs)
    (reqTimes rs) (qbytes rs) (qdata rs) (qtext rs).

Definition set_synced (rs : source) (b : bool) : source :=
  mkSource (src rs) (srcip rs) b (reqbuffer rs) (resbuffer rs) (reqSent rs)
    (reqTimes rs) (qbytes rs) (qdata rs) (qtext rs).

Definition set_reqSent (rs : source) (t : option Z) : source :=
  mkSource (src rs) (srcip rs) (synced rs) (reqbuffer rs) (resbuffer rs) t
    (reqTimes rs) (qbytes rs) (qdata rs) (qtext rs).

Definition set_reqTimes (rs : source) (ts : list Z) : source :=
  mkSource (src rs) (srcip rs) (synced rs) (reqbuffer rs) (resbuffer rs)
    (reqSent rs) ts (qbytes rs) (qdata rs) (qtext rs).

Definition set_query (rs : source) (text : bytes) (plen : Z) : source :=
  mkSource (src rs) (srcip rs) (synced rs) (reqbuffer rs) (resbuffer rs)
    (reqSent rs) (reqTimes rs) plen (Some text) text.

Definition count_packet (g : globals) (sync : bool) : globals :=
  mkGlobals (qbuf g) (querycount g) (times g) (u64 (rcvd g + 1))
    (if sync then u64 (rcvd_sync g + 1) else rcvd_sync g)
    (desyncs g) (streams g).

Definition count_desync (g : globals) : globals :=
  mkGlobals (qbuf g) (querycount g) (times g) (rcvd g) (rcvd_sync g)
    (u64 (desyncs g + 1)) (streams g).

Definition set_times (g : globals) (ts : list Z) : globals :=
  mkGlobals (qbuf g) (querycount g) ts (rcvd g) (rcvd_sync g)
    (desyncs g) (streams g).

Definition set_qbuf (g : globals) (m : gmap bytes queryData.t) : globals :=
  mkGlobals m (querycount g) (times g) (rcvd g) (rcvd_sync g)
    (desyncs g) (streams g).

Definition count_query (g : globals) : globals :=
  mkGlobals (qbuf g) (i64 (querycount g + 1)) (times g) (rcvd g)
    (rcvd_sync g) (desyncs g) (streams g).

(** Lines 220-243: the packet counters, the pipelining check, the store
    of [data] into the direction's buffer and the carve. *)
Definition receive (g : globals) (rs : source) (request : bool)
    (data : slice) : globals * source * Z * slice :=
  let g1 := count_packet g (synced rs) in
  if request then
    let '(g2, rs2) :=
      match resbuffer rs with
      | Some _ =>
          (count_desync g1, set_synced (set_buffers rs (reqbuffer rs) None) false)
      | None => (g1, rs)
      end in
    let rs3 := set_buffers rs2 data (resbuffer rs2) in
    let '(ptype, pdata, buf) := carvePacket (reqbuffer rs3) in
    (g2, set_buffers rs3 buf (resbuffer rs3), ptype, pdata)
  else
    let rs3 := set_buffers rs (reqbuffer rs) data in
    let '(ptype, pdata, buf) := carvePacket (resbuffer rs3) in
    (g1, set_buffers rs3 (reqbuffer rs3) buf, ptype, pdata).

(** Lines 262-291: a response frame.  [now] is the clock read by
    [time.Since], so the elapsed time is [now - sent] nanoseconds;
    [randn] is the value of [rand.Intn(100)], below 100; the verbose
    log line is output only. *)
Definition recordResponse (now : Z) (randn : nat) (g : globals)
    (rs : source) (plen : Z) : globals * source :=
  match reqSent rs with
  | None => (g, rs)
  | Some sent =>
      let reqtime := u64 (now - sent) in
      let rs1 := set_reqTimes rs (<[randn := reqtime]> (reqTimes rs)) in
      let g1 := set_times g (<[randn := reqtime]> (times g)) in
      let g2 :=
        match qdata rs1 with
        | Some key =>
            set_qbuf g1
              (alter (fun qd =>
                        queryData.mk (queryData.count qd)
                          (u64 (queryData.bytes qd + plen))
                          (<[randn := reqtime]> (queryData.times qd)))
                     key (qbuf g1))
        | None => g1
        end in
      (g2, set_reqSent rs1 None)
  end.

(** Lines 305-343: one turn of the [for _, item := range format] loop,
    giving the string added to [text]. *)
Definition formatItem (cfg : config) (rs : source) (pdata : bytes)
    (it : item) : outcome bytes :=
  match it with
  | ItemInt n =>
      if n =? F_NONE then Fatal "F_NONE in format string"
      else if n =? F_QUERY then
        if dirty cfg then Ok pdata else cleanupQuery pdata
      else if n =? F_ROUTE then
        let parts := Strings.SplitN pdata sp 5 in
        if (4 <=? length parts)%nat
           && bool_decide (parts !! 1%nat = Some (bytes_of "/*"))
           && bool_decide (parts !! 3%nat = Some (bytes_of "*/"))
        then
          if Strings.Contains (parts !!! 2%nat) colon
          then Ok (Strings.SplitN (parts !!! 2%nat) colon 2 !!! 1%nat)
          else Ok (parts !!! 2%nat)
        else
          letok q := cleanupQuery pdata in
          Ok (bytes_of "(unknown) " ++ q)
      else if n =? F_SOURCE then Ok (src rs)
      else if n =? F_SOURCEIP then Ok (srcip rs)
      else Fatal "Unknown F_XXXXXX int in format string"
  | ItemString s => Ok s
  | ItemOther => Fatal "Unknown type in format string"
  end.

Fixpoint buildKey (cfg : config) (rs : source) (pdata : bytes)
    (items : list item) (text : bytes) : outcome bytes :=
  match items with
  | [] => Ok text
  | it :: items' =>
      letok piece := formatItem cfg rs pdata it in
      buildKey cfg rs pdata items' (text ++ piece)
  end.

(** Lines 293-352: a request frame. *)
Definition recordRequest (cfg : config) (now : Z) (g : globals)
    (rs : source) (pdata : bytes) (plen : Z) : outcome (globals * source) :=
  let rs1 := set_reqSent rs (Some now) in
  let g1 := count_query g in
  letok text := buildKey cfg rs1 pdata (format cfg) [] in
  let qd := default queryData.zero (qbuf g1 !! text) in
  let qd' := queryData.mk (u64 (queryData.count qd + 1))
               (u64 (queryData.bytes qd + plen)) (queryData.times qd) in
  Ok (set_qbuf g1 (<[text := qd']> (qbuf g1)), set_query rs1 text plen).

Definition processPacket (cfg : config) (now : Z) (randn : nat)
    (g : globals) (rs : source) (request : bool) (data : slice)
  : outcome (globals * source) :=
  let '(g1, rs1, ptype, pdata) := receive g rs request data in
  (* The synchronization logic, lines 245-253. *)
  if negb (synced rs1) && negb (request && (ptype =? COM_QUERY)) then
    Ok (g1, set_buffers rs1 None None)
  else
    let rs2 := if negb (synced rs1) then set_synced rs1 true else rs1 in
    (* No (full) packet detected yet, lines 256-259. *)
    if ptype =? -1 then Ok (g1, rs2)
    else
      let plen := u64 (Z.of_nat (length (slice_bytes pdata))) in
      if negb request then Ok (recordResponse now randn g1 rs2 plen)
      else recordRequest cfg now g1 rs2 (slice_bytes pdata) plen.

End Flow.
Export Flow.

(** ** The timing summary: [calculateTimes] (lines 150-174)

    [float64] values are IEEE 754 binary64 numbers ([spec_float] at
    precision 53 and maximal exponent 1024): the conversion of an
    unsigned integer rounds to nearest even, as does the division. *)

Module Timing.

Definition float64 (z : Z) : spec_float := binary_normalize 53 1024 z 0 false.
Definition fdiv (x y : spec_float) : spec_float := SFdiv 53 1024 x y.

Record acc : Type := mkAcc {
  counts : Z; total : Z; min : Z; max : Z; has_min : bool
}.

(** The body of [for _, val := range *timings]. *)
Definition times_body (a : acc) (val : Z) : acc :=
  if val =? 0 then a
  else
    let '(has_min1, min1) :=
      if (val <? min a) || negb (has_min a) then (true, val)
      else (has_min a, min a) in
    let max1 := if val >? max a then val else max a in
    mkAcc (u64 (counts a + 1)) (u64 (total a + val)) min1 max1 has_min1.

Definition times_loop (timings : list Z) : acc :=
  fold_left times_body timings (mkAcc 0 0 0 0 false).

Definition calculateTimes (timings : list Z)
  : spec_float * spec_float * spec_float :=
  let a := times_loop timings in
  let avg := if counts a >? 0 then total a / counts a else 0 in
  (fdiv (float64 (min a)) (float64 1000000),
   fdiv (float64 avg) (float64 1000000),
   fdiv (float64 (max a)) (float64 1000000)).

End Timing.
Export Timing.


(** ** Auxiliary definitions used to state the properties *)

Module Aux.

(** Length of the longest prefix whose bytes all satisfy [p]. *)
Fixpoint prefix_len (p : byte -> bool) (l : bytes) : nat :=
  match l with
  | [] => 0
  | c :: l' => if p c then S (prefix_len p l') else 0
  end.

(** A byte that continues a literal run: anything but a quote or a
    whitespace byte.  Digits continue it. *)
Definition word_byte (c : byte) : bool := negb (is_quote c || is_space c).

(** The first token of a non-empty [l] as [cleanupQuery] sees it: its
    length and the string appended to [qspace] for it. *)
Definition token_piece (l : bytes) : nat * bytes :=
  match l with
  | [] => (0%nat, [])
  | c :: rest =>
      if is_quote c then
        (fst (scan_quote rest 1 false (length l)), bytes_of "?")
      else if is_digit c then
        (fst (scan_number rest 1 (length l)), bytes_of "?")
      else if is_space c then
        (fst (scan_whitespace rest 1 (length l)), bytes_of " ")
      else
        let n := fst (scan_default rest 1 (length l)) in (n, take n l)
  end.

(** The strings [cleanupQuery]'s loop appends while it scans [l]. *)
Fixpoint pieces (fuel : nat) (l : bytes) : list bytes :=
  match l with
  | [] => []
  | _ :: _ =>
      match fuel with
      | O => []
      | S fuel' =>
          snd (token_piece l) :: pieces fuel' (drop (fst (token_piece l)) l)
      end
  end.

(** Canonical text, read left to right: no quote byte, no whitespace
    byte but the space, no space right after a space, and no digit at
    the start or right after a space. *)
Inductive cstate : Type := AtStart | AfterSpace | InWord.

Fixpoint canonical (s : cstate) (t : bytes) : bool :=
  match t with
  | [] => true
  | c :: t' =>
      if is_quote c then false
      else if is_space c then
        bool_decide (c = sp)
        && match s with AfterSpace => false | _ => true end
        && canonical AfterSpace t'
      else if is_digit c then
        match s with InWord => canonical InWord t' | _ => false end
      else canonical InWord t'
  end.

(** The size a buffer declares: the 24-bit little-endian integer in its
    first three bytes. *)
Definition declared_size (b : bytes) : option Z :=
  match b with
  | b0 :: b1 :: b2 :: _ =>
      Some (byte_val b0 + 2 ^ 8 * byte_val b1 + 2 ^ 16 * byte_val b2)
  | _ => None
  end.

(** The elements [parseFormat] can put in [format]: a string, or one
    of the four field selectors (it never appends [F_NONE]). *)
Definition valid_item (it : item) : Prop :=
  match it with
  | ItemInt n => n = F_QUERY \/ n = F_ROUTE \/ n = F_SOURCE \/ n = F_SOURCEIP
  | ItemString _ => True
  | ItemOther => False
  end.

(** The buffer of a direction, and a flow with that buffer replaced. *)
Definition buffer_of (request : bool) (rs : source) : slice :=
  if request then reqbuffer rs else resbuffer rs.

Definition with_buffer (request : bool) (b : slice) (rs : source) : source :=
  if request then set_buffers rs b (resbuffer rs)
  else set_buffers rs (reqbuffer rs) b.

(** Concrete data for the examples: a configuration whose key is the
    canonical query text, fresh global counters, a [COM_QUERY] frame
    carrying [SELECT 1], and a flow that is synced with both buffers
    [nil]. *)
Definition example_config : config := mkConfig false false [ItemInt F_QUERY].

Definition example_globals : globals :=
  mkGlobals ∅ 0 (replicate 100 0) 0 0 0 0.

Definition example_frame : bytes :=
  [Byte.x09; Byte.x00; Byte.x00; Byte.x00; Byte.x03] ++ bytes_of "SELECT 1".

Definition example_synced_flow : source :=
  set_synced (newSource (bytes_of "10.0.0.7:51234") (bytes_of "10.0.0.7")) true.

(** The timing summary in the specification's words: over the slots
    that are not the zero sentinel, the minimum, the integer-truncated
    mean and the maximum, each divided by 1,000,000; zeros when no slot
    is filled. *)
Definition nonzero (timings : list Z) : list Z :=
  filter (fun v => v <> 0) timings.

Definition minimum (l : list Z) : Z :=
  match l with [] => 0 | x :: l' => foldr Z.min x l' end.

Definition maximum (l : list Z) : Z :=
  match l with [] => 0 | x :: l' => foldr Z.max x l' end.

Definition sumZ (l : list Z) : Z := foldr Z.add 0 l.

Definition mean (l : list Z) : Z :=
  match l with [] => 0 | _ :: _ => sumZ l / Z.of_nat (length l) end.

Definition ms (ns : Z) : spec_float := fdiv (float64 ns) (float64 1000000).

Definition summarize (timings : list Z) : spec_float * spec_float * spec_float :=
  let nz := nonzero timings in
  (ms (minimum nz), ms (mean nz), ms (maximum nz)).

(** The state of [calculateTimes]'s loop after it has read slots whose
    non-zero values are [nz]. *)
Definition acc_of (nz : list Z) : acc :=
  mkAcc (u64 (Z.of_nat (length nz))) (u64 (sumZ nz)) (minimum nz) (maximum nz)
    (match nz with [] => false | _ :: _ => true end).

(** A samples array whose only filled slots hold [2^63]. *)
Definition example_wrapping_samples : list Z :=
  [2 ^ 63; 2 ^ 63] ++ replicate 98 0.

End Aux.
Export Aux.

(** ** The format compiler: [parseFormat] (lines 548-599)

    [parseFormat] reads its argument rune by rune and relies on four
    operations of the Go runtime and of package [strings] that are not
    part of the program; they are parameters of the model:
    [strings.TrimSpace], [strings.ToLower], the sequence of runes that
    [for _, char := range formatstr] yields, and the conversion
    [string(char)] of a rune to a string.  A rune is its code point. *)

Module Format.

Section GoStrings.

Variable TrimSpace : bytes -> bytes.
Variable ToLower : bytes -> bytes.
Variable runes : bytes -> list Z.
Variable string_of_rune : Z -> bytes.

(** The variables of the loop; [compiled] is the global [format]. *)
Record pstate : Type := mkPstate {
  is_special : bool;
  curstr : bytes;
  do_append : Z;
  compiled : list item
}.

(** The [switch strings.ToLower(string(char))] of lines 569-580. *)
Definition directive (st : pstate) (char : Z) : pstate :=
  let l := ToLower (string_of_rune char) in
  if decide (l = bytes_of "s") then
    mkPstate (is_special st) (curstr st) F_SOURCE (compiled st)
  else if decide (l = bytes_of "i") then
    mkPstate (is_special st) (curstr st) F_SOURCEIP (compiled st)
  else if decide (l = bytes_of "r") then
    mkPstate (is_special st) (curstr st) F_ROUTE (compiled st)
  else if decide (l = bytes_of "q") then
    mkPstate (is_special st) (curstr st) F_QUERY (compiled st)
  else
    mkPstate (is_special st)
      (curstr st ++ bytes_of "#" ++ string_of_rune char)
      (do_append st) (compiled st).

(** Lines 586-594: flush a pending field selector. *)
Definition flush (st : pstate) : pstate :=
  if do_append st =? F_NONE then st
  else if decide (curstr st = []) then
    mkPstate (is_special st) (curstr st) F_NONE
      (compiled st ++ [ItemInt (do_append st)])
  else
    mkPstate (is_special st) [] F_NONE
      (compiled st ++ [ItemString (curstr st); ItemInt (do_append st)]).

(** The body of [for _, char := range formatstr]. *)
Definition parse_step (st : pstate) (char : Z) : pstate :=
  if char =? 35 then                      (* '#' *)
    if is_special st then
      mkPstate false (curstr st ++ string_of_rune char) (do_append st)
        (compiled st)
    else mkPstate true (curstr st) (do_append st) (compiled st)
  else
    let st1 :=
      if is_special st then
        let st' := directive st char in
        mkPstate false (curstr st') (do_append st') (compiled st')
      else
        mkPstate (is_special st) (curstr st ++ string_of_rune char)
          (do_append st) (compiled st) in
    flush st1.

(** [parseFormat format0 formatstr] is the global [format] after the
    call, [format0] being its value before. *)
Definition parseFormat (format0 : list item) (formatstr : bytes) : list item :=
  let trimmed := TrimSpace formatstr in
  let formatstr1 :=
    if decide (trimmed = []) then bytes_of "#b:#k" else trimmed in
  let st := fold_left parse_step (runes formatstr1)
              (mkPstate false [] F_NONE format0) in
  if decide (curstr st = []) then compiled st
  else compiled st ++ [ItemString (curstr st)].

End GoStrings.

End Format.

(** ** Packet demultiplexing: [handlePacket] (lines 386-439) *)

Module Capture.

(** A [*pcap.Packet] as far as [handlePacket] reads it: the slice
    [Data] and what its backing array holds between [len(Data)] and
    [cap(Data)] (a slice expression is checked against the capacity,
    an index against the length). *)
Record Packet : Type := mkPacket {
  Data : bytes;
  spare : bytes
}.

(** How a call ends: it returns, the process exits in [log.Fatalf], or
    an index or slice expression is out of range and the program
    panics. *)
Inductive result (A : Type) : Type :=
| Return (a : A)
| Exits (msg : string)
| Panics
| NoFuel.
Arguments Return {A} a.
Arguments Exits {A} msg.
Arguments Panics {A}.
Arguments NoFuel {A}.

Definition rbind {A B} (m : result A) (k : A -> result B) : result B :=
  match m with
  | Return a => k a
  | Exits msg => Exits msg
  | Panics => Panics
  | NoFuel => NoFuel
  end.

Notation "'letr' x ':=' m 'in' k" := (rbind m (fun x => k))
  (at level 10, x name, m at level 100, k at level 200).

Definition u8 (z : Z) : Z := z mod 2 ^ 8.
Definition u16 (z : Z) : Z := z mod 2 ^ 16.

(** [pkt.Data[i]], [pkt.Data[lo:hi]] and [pkt.Data[lo:]]. *)
Definition at_index (pkt : Packet) (i : Z) : result Z :=
  match Data pkt !! Z.to_nat i with
  | Some b => Return (byte_val b)
  | None => Panics
  end.

Definition slice_range (pkt : Packet) (lo hi : Z) : result bytes :=
  if (lo <=? hi) && (hi <=? Z.of_nat (length (Data pkt ++ spare pkt))) then
    Return (take (Z.to_nat (hi - lo)) (drop (Z.to_nat lo) (Data pkt ++ spare pkt)))
  else Panics.

Definition slice_from (pkt : Packet) (lo : Z) : result bytes :=
  if lo <=? Z.of_nat (length (Data pkt)) then
    Return (drop (Z.to_nat lo) (Data pkt))
  else Panics.

(** [%d] of a non-negative integer. *)
Fixpoint digits (d : Decimal.uint) : bytes :=
  match d with
  | Decimal.Nil => []
  | Decimal.D0 d' => "0"%byte :: digits d'
  | Decimal.D1 d' => "1"%byte :: digits d'
  | Decimal.D2 d' => "2"%byte :: digits d'
  | Decimal.D3 d' => "3"%byte :: digits d'
  | Decimal.D4 d' => "4"%byte :: digits d'
  | Decimal.D5 d' => "5"%byte :: digits d'
  | Decimal.D6 d' => "6"%byte :: digits d'
  | Decimal.D7 d' => "7"%byte :: digits d'
  | Decimal.D8 d' => "8"%byte :: digits d'
  | Decimal.D9 d' => "9"%byte :: digits d'
  end.

Definition decimal (n : Z) : bytes := digits (N.to_uint (Z.to_N n)).

(** The dotted quad of a 4-byte address, and
    [fmt.Sprintf("%d.%d.%d.%d:%d", ip[0], ip[1], ip[2], ip[3], port)]. *)
Definition dotted (ip : bytes) : bytes :=
  decimal (byte_val (ip !!! 0%nat)) ++ bytes_of "."
  ++ decimal (byte_val (ip !!! 1%nat)) ++ bytes_of "."
  ++ decimal (byte_val (ip !!! 2%nat)) ++ bytes_of "."
  ++ decimal (byte_val (ip !!! 3%nat)).

Definition endpoint (ip : bytes) (port : Z) : bytes :=
  dotted ip ++ bytes_of ":" ++ decimal port.

(** Lines 410-426: the flow a packet belongs to and its direction. *)
Definition flowOf (port : Z) (srcIP dstIP : bytes) (srcPort dstPort : Z)
  : result (bytes * bool) :=
  if srcPort =? port then Return (endpoint dstIP dstPort, false)
  else if dstPort =? port then Return (endpoint srcIP srcPort, true)
  else Exits "got packet src = %d, dst = %d".

(** Lines 404-438, once the headers are read.  [port] is the global
    [port uint16]; [chmap] maps a flow to its [*source], so the flow
    that [processPacket] has updated is stored back under its key. *)
Definition dispatch (cfg : config) (port : Z) (now : Z) (randn : nat)
    (g : globals) (chmap : gmap bytes source)
    (srcIP dstIP : bytes) (srcPort dstPort : Z) (payload : bytes)
  : result (globals * gmap bytes source) :=
  if (Z.of_nat (length payload) <=? 0) then Return (g, chmap)
  else
    letr flow := flowOf port srcIP dstIP srcPort dstPort in
    let '(src, request) := flow in
    let '(g1, chmap1, rs) := lookupSource g chmap src in
    match processPacket cfg now randn g1 rs request (Some payload) with
    | Ok (g2, rs') => Return (g2, <[src := rs']> chmap1)
    | Fatal msg => Exits msg
    | OutOfFuel => NoFuel
    end.

(** Lines 387-402 read the headers with [pos] a [byte]; the rest is
    [dispatch]. *)
Definition handlePacket (cfg : config) (port : Z) (now : Z) (randn : nat)
    (g : globals) (chmap : gmap bytes source) (pkt : Packet)
  : result (globals * gmap bytes source) :=
  let pos := 14 in
  letr srcIP := slice_range pkt (u8 (pos + 12)) (u8 (pos + 16)) in
  letr dstIP := slice_range pkt (u8 (pos + 16)) (u8 (pos + 20)) in
  letr ihl := at_index pkt pos in
  let pos1 := u8 (pos + u8 (Z.land ihl 15 * 4)) in
  letr s0 := at_index pkt pos1 in
  letr s1 := at_index pkt (u8 (pos1 + 1)) in
  let srcPort := u16 (u16 (Z.shiftl s0 8) + s1) in
  letr d0 := at_index pkt (u8 (pos1 + 2)) in
  letr d1 := at_index pkt (u8 (pos1 + 3)) in
  let dstPort := u16 (u16 (Z.shiftl d0 8) + d1) in
  letr off := at_index pkt (u8 (pos1 + 12)) in
  let pos2 := u8 (pos1 + u8 (Z.shiftr off 4 * 4)) in
  letr payload := slice_from pkt pos2 in
  dispatch cfg port now randn g chmap srcIP dstIP srcPort dstPort payload.

End Capture.

(** ** Conditions on the state of a flow and of the aggregates *)

Module FlowInv.

(** The [*queryData] of a flow points into [qbuf]. *)
Definition qdata_ok (g : globals) (rs : source) : Prop :=
  forall key, qdata rs = Some key -> is_Some (qbuf g !! key).

(** The three kinds of [[100]uint64] arrays have 100 slots. *)
Definition arrays_ok (g : globals) (rs : source) : Prop :=
  length (times g) = 100%nat
  /\ length (reqTimes rs) = 100%nat
  /\ map_Forall (fun _ qd => length (queryData.times qd) = 100%nat) (qbuf g).

(** The aggregate of [key] after a request of [plen] payload bytes. *)
Definition counted (g : globals) (key : bytes) (plen : Z) : queryData.t :=
  let qd := default queryData.zero (qbuf g !! key) in
  queryData.mk (u64 (queryData.count qd + 1))
    (u64 (queryData.bytes qd + plen)) (queryData.times qd).

(** The aggregate [qd] after a response of [plen] payload bytes that
    took [reqtime] nanoseconds, stored in slot [randn]. *)
Definition timed (qd : queryData.t) (randn : nat) (reqtime plen : Z)
  : queryData.t :=
  queryData.mk (queryData.count qd) (u64 (queryData.bytes qd + plen))
    (<[randn := reqtime]> (queryData.times qd)).

End FlowInv.
Export FlowInv.

(** ** Conditions on query text *)

Module Text.

(** [l] is empty or its first byte is not of class [p]. *)
Definition starts_without (p : byte -> bool) (l : bytes) : Prop :=
  match l with
  | [] => True
  | c :: _ => p c = false
  end.

(** [a] is empty or its last byte is a whitespace byte. *)
Definition ends_with_space (a : bytes) : Prop :=
  a = [] \/ exists a0 w, a = a0 ++ [w] /\ is_space w = true.

End Text.
Export Text.

(** ** The route annotation of a canonical text *)

Module Route.

(** The route that the rewrite of [cleanupQuery] keeps (line 538):
    what follows the first colon of the third space-separated field. *)
Definition route_of (tmp : bytes) : bytes :=
  Strings.SplitN (Strings.SplitN tmp sp 5 !!! 2%nat) colon 2 !!! 1%nat.

(** A route that a second run of [cleanupQuery] leaves alone: not
    empty, not starting with a digit, and without a colon. *)
Definition plain_route (r : bytes) : Prop :=
  r <> [] /\ starts_without is_digit r /\ (colon ∉ r).

End Route.
Export Route.

(** [strings.Join(parts, sep)] for a one-byte separator. *)
Fixpoint join_with (sep : byte) (parts : list bytes) : bytes :=
  match parts with
  | [] => []
  | p :: rest =>
      match rest with
      | [] => p
      | _ :: _ => p ++ sep :: join_with sep rest
      end
  end.

(** ** Conditions on the compiler's loop and on the whole state *)

Module SystemInv.

(** What holds of [parseFormat]'s variables between two turns of its
    loop. *)
Definition parse_inv (st : Format.pstate) : Prop :=
  Format.do_append st = F_NONE
  /\ Forall (fun it => valid_item it /\ it <> ItemString [])
       (Format.compiled st).

(** A flow stored under [key]. *)
Definition flow_ok (g : globals) (key : bytes) (rs : source) : Prop :=
  src rs = key
  /\ length (reqTimes rs) = 100%nat
  /\ qdata_ok g rs
  /\ (synced rs = false -> reqbuffer rs = None /\ resbuffer rs = None).

(** The global state and the flow table. *)
Definition system_ok (g : globals) (chmap : gmap bytes source) : Prop :=
  streams g = u64 (Z.of_nat (size chmap))
  /\ length (times g) = 100%nat
  /\ map_Forall (fun _ qd => length (queryData.times qd) = 100%nat) (qbuf g)
  /\ map_Forall (flow_ok g) chmap.

(** A big-endian 16-bit number. *)
Definition be16 (hi lo : byte) : Z := 2 ^ 8 * byte_val hi + byte_val lo.

End SystemInv.
Export SystemInv.

(** A packet for the examples: 14 bytes of Ethernet header, an IPv4
    header of 20 bytes from 10.0.0.7 to 10.0.0.1, a TCP header of 20
    bytes from port 51234 to port 3306, and [example_frame]. *)
Definition example_packet : Capture.Packet :=
  Capture.mkPacket
    (replicate 14 Byte.x00
     ++ [Byte.x45] ++ replicate 11 Byte.x00
     ++ [Byte.x0a; Byte.x00; Byte.x00; Byte.x07]
     ++ [Byte.x0a; Byte.x00; Byte.x00; Byte.x01]
     ++ [Byte.xc8; Byte.x22; Byte.x0c; Byte.xea] ++ replicate 8 Byte.x00
     ++ [Byte.x50] ++ replicate 7 Byte.x00
     ++ example_frame)
    [].

(** * Properties *)

(** ** Bytes and fixed-width arithmetic *)

Lemma byte_val_range (b : byte) : 0 <= byte_val b <= 255.
Proof.
  unfold byte_val. pose proof (Byte.to_N_bounded b). lia.
Qed.

Lemma byte_val_inj (b c : byte) : byte_val b = byte_val c -> b = c.
Proof.
  unfold byte_val. intros H. apply N2Z.inj in H.
  rewrite <- (byte_of_to_N b), <- (byte_of_to_N c). by rewrite H.
Qed.

(** ** Tokenizer *)

(* Decide a relation between the byte classes by cases on the
   comparisons they are made of. *)
Ltac byte_class :=
  unfold is_digit, is_quote, is_space;
  repeat match goal with
         | |- context [Z.eqb ?a ?b] => destruct (Z.eqb_spec a b)
         | |- context [Z.leb ?a ?b] => destruct (Z.leb_spec a b)
         end;
  simpl; intros; first [done | lia].

Section TokenizerFacts.

(** The three byte classes are disjoint. *)
Lemma digit_not_quote c : is_digit c = true -> is_quote c = false.
Proof. byte_class. Qed.

Lemma digit_not_space c : is_digit c = true -> is_space c = false.
Proof. byte_class. Qed.

Lemma space_not_quote c : is_space c = true -> is_quote c = false.
Proof. byte_class. Qed.

Lemma prefix_len_le p l : (prefix_len p l <= length l)%nat.
Proof. induction l as [|c l IH]; simpl; [lia|]. destruct (p c); lia. Qed.

Lemma prefix_len_take p l : Forall (fun c => p c = true) (take (prefix_len p l) l).
Proof.
  induction l as [|c l IH]; simpl; [constructor|].
  destruct (p c) eqn:E; simpl; [by constructor | constructor].
Qed.

Lemma prefix_len_drop p l :
  match drop (prefix_len p l) l with
  | [] => True
  | c :: _ => p c = false
  end.
Proof.
  induction l as [|c l IH]; simpl; [done|].
  destruct (p c) eqn:E; simpl; done.
Qed.

Lemma scan_quote_range rest : forall i escaped n,
  n = (i + length rest)%nat ->
  (i <= fst (scan_quote rest i escaped n) <= n)%nat
  /\ snd (scan_quote rest i escaped n) = TOKEN_QUOTE.
Proof.
  induction rest as [|c rest IH]; intros i escaped n Hn; simpl in *.
  - split; [lia | done].
  - destruct ((byte_val c =? 39) || (byte_val c =? 34)).
    + destruct escaped.
      * destruct (IH (S i) false n) as [? ?]; [lia|]. split; [lia | done].
      * simpl. split; [lia | done].
    + destruct (byte_val c =? 92).
      * destruct (IH (S i) true n) as [? ?]; [lia|]. split; [lia | done].
      * destruct (IH (S i) false n) as [? ?]; [lia|]. split; [lia | done].
Qed.

Lemma scan_number_range rest : forall i n,
  n = (i + length rest)%nat ->
  (i <= fst (scan_number rest i n) <= n)%nat
  /\ snd (scan_number rest i n) = TOKEN_NUMBER.
Proof.
  induction rest as [|c rest IH]; intros i n Hn; simpl in *.
  - split; [lia | done].
  - destruct (is_digit c); simpl.
    + destruct (IH (S i) n) as [? ?]; [lia|]. split; [lia | done].
    + split; [lia | done].
Qed.

Lemma scan_whitespace_eq rest : forall i n,
  n = (i + length rest)%nat ->
  scan_whitespace rest i n
  = ((i + prefix_len is_space rest)%nat, TOKEN_WHITESPACE).
Proof.
  induction rest as [|c rest IH]; intros i n Hn; simpl in *.
  - f_equal. lia.
  - destruct (is_space c); [rewrite (IH (S i) n) by lia|]; f_equal; lia.
Qed.

Lemma scan_default_eq rest : forall i n,
  n = (i + length rest)%nat ->
  scan_default rest i n
  = ((i + prefix_len word_byte rest)%nat, TOKEN_DEFAULT).
Proof.
  induction rest as [|c rest IH]; intros i n Hn; simpl in *.
  - f_equal. lia.
  - unfold word_byte at 1.
    destruct (is_digit c) eqn:Ed.
    + rewrite (digit_not_quote _ Ed), (digit_not_space _ Ed). simpl.
      rewrite (IH (S i) n) by lia. f_equal. lia.
    + rewrite orb_false_r.
      destruct (is_quote c || is_space c); simpl;
        [|rewrite (IH (S i) n) by lia]; f_equal; lia.
Qed.

End TokenizerFacts.

(** ** Canonicalizer: the loop *)

Section CanonicalizerLoop.

Lemma token_piece_range (l : bytes) :
  l <> [] -> (1 <= fst (token_piece l) <= length l)%nat.
Proof.
  destruct l as [|c rest]; [done|]; intros _. unfold token_piece.
  destruct (is_quote c); [|destruct (is_digit c); [|destruct (is_space c)]];
    cbn [fst length].
  - destruct (scan_quote_range rest 1 false (S (length rest))); lia.
  - destruct (scan_number_range rest 1 (S (length rest))); lia.
  - rewrite (scan_whitespace_eq rest 1 (S (length rest))) by lia.
    pose proof (prefix_len_le is_space rest). simpl. lia.
  - rewrite (scan_default_eq rest 1 (S (length rest))) by lia.
    pose proof (prefix_len_le word_byte rest). simpl. lia.
Qed.

Lemma scanToken_range (q : bytes) :
  q <> [] ->
  exists len ty, scanToken q = Ok (len, ty)
    /\ (1 <= len <= length q)%nat
    /\ (ty = TOKEN_DEFAULT \/ ty = TOKEN_QUOTE
        \/ ty = TOKEN_NUMBER \/ ty = TOKEN_WHITESPACE).
Proof.
  destruct q as [|c rest]; [done|]; intros _. unfold scanToken.
  destruct (is_quote c); [|destruct (is_digit c); [|destruct (is_space c)]];
    cbn [length].
  - destruct (scan_quote_range rest 1 false (S (length rest))) as [? ?]; [lia|].
    destruct (scan_quote _ _ _ _) as [len ty]; simpl in *. eauto 10.
  - destruct (scan_number_range rest 1 (S (length rest))) as [? ?]; [lia|].
    destruct (scan_number _ _ _) as [len ty]; simpl in *. eauto 10.
  - rewrite (scan_whitespace_eq rest 1 (S (length rest))) by lia.
    pose proof (prefix_len_le is_space rest).
    eexists _, _; split; [done|]. split; [lia | eauto].
  - rewrite (scan_default_eq rest 1 (S (length rest))) by lia.
    pose proof (prefix_len_le word_byte rest).
    eexists _, _; split; [done|]. split; [lia | eauto].
Qed.

(** One turn of the loop appends [token_piece]'s string. *)
Lemma cleanup_step_piece (query : bytes) (i : nat) (qspace : list bytes) :
  (i < length query)%nat ->
  cleanup_step query i qspace
  = Ok ((i + fst (token_piece (drop i query)))%nat,
        qspace ++ [snd (token_piece (drop i query))]).
Proof.
  intros Hi. unfold cleanup_step.
  assert (Hne : drop i query <> []).
  { intros E. apply (f_equal length) in E. rewrite length_drop in E.
    simpl in E. lia. }
  destruct (drop i query) as [|c rest] eqn:E; [done|].
  unfold scanToken, token_piece.
  destruct (is_quote c); [|destruct (is_digit c); [|destruct (is_space c)]];
    cbn [obind length].
  - destruct (scan_quote_range rest 1 false (S (length rest))) as [_ Hty]; [lia|].
    destruct (scan_quote _ _ _ _) as [len ty]; simpl in *. by subst ty.
  - destruct (scan_number_range rest 1 (S (length rest))) as [_ Hty]; [lia|].
    destruct (scan_number _ _ _) as [len ty]; simpl in *. by subst ty.
  - by rewrite (scan_whitespace_eq rest 1 (S (length rest))) by lia.
  - by rewrite (scan_default_eq rest 1 (S (length rest))) by lia.
Qed.

Lemma cleanup_loop_pieces (fuel : nat) : forall (query : bytes) i qspace,
  (length query - i <= fuel)%nat ->
  cleanup_loop fuel query i qspace
  = Ok (qspace ++ pieces fuel (drop i query)).
Proof.
  induction fuel as [|fuel IH]; intros query i qspace Hfuel.
  - simpl. destruct (Nat.ltb_spec i (length query)); [lia|].
    rewrite drop_ge by lia. simpl. by rewrite app_nil_r.
  - simpl. destruct (Nat.ltb_spec i (length query)) as [Hi|Hi].
    + rewrite cleanup_step_piece by done. cbn [obind].
      assert (Hne : drop i query <> []).
      { intros E. apply (f_equal length) in E. rewrite length_drop in E.
        simpl in E. lia. }
      pose proof (token_piece_range _ Hne) as Hr.
      rewrite IH by lia.
      rewrite <- app_assoc. simpl. rewrite drop_drop.
      destruct (drop i query) eqn:E; [done|]. reflexivity.
    + rewrite drop_ge by lia. simpl. by rewrite app_nil_r.
Qed.

Lemma joinTokens_pieces (query : bytes) :
  joinTokens query = Ok (concat (pieces (length query) query)).
Proof.
  unfold joinTokens. rewrite cleanup_loop_pieces by lia.
  by rewrite drop_0.
Qed.

Lemma cleanupQuery_pieces (query : bytes) :
  cleanupQuery query = Ok (stripRoute (concat (pieces (length query) query))).
Proof. unfold cleanupQuery. by rewrite joinTokens_pieces. Qed.

End CanonicalizerLoop.

(** ** Canonicalizer: the joined text is canonical, and canonical text
       is a fixed point of the token pass *)

Section CanonicalText.

Lemma token_piece_space c rest :
  is_space c = true ->
  token_piece (c :: rest)
  = (S (prefix_len is_space rest), bytes_of " ").
Proof.
  intros Hs. unfold token_piece.
  rewrite (space_not_quote _ Hs).
  destruct (is_digit c) eqn:Ed; [by rewrite (digit_not_space _ Ed) in Hs|].
  rewrite Hs. by rewrite (scan_whitespace_eq rest 1 (length (c :: rest))).
Qed.

Lemma token_piece_default c rest :
  is_quote c = false -> is_digit c = false -> is_space c = false ->
  token_piece (c :: rest)
  = (S (prefix_len word_byte rest), c :: take (prefix_len word_byte rest) rest).
Proof.
  intros Hq Hd Hs. unfold token_piece. rewrite Hq, Hd, Hs.
  by rewrite (scan_default_eq rest 1 (length (c :: rest))).
Qed.

Lemma token_piece_placeholder c rest :
  is_quote c || is_digit c = true ->
  snd (token_piece (c :: rest)) = bytes_of "?".
Proof.
  intros H. unfold token_piece.
  destruct (is_quote c); [done|]. simpl in H. by rewrite H.
Qed.

(** A run of word bytes read inside a word leaves the reader inside a
    word. *)
Lemma canonical_word_run w t :
  Forall (fun c => word_byte c = true) w ->
  canonical InWord (w ++ t) = canonical InWord t.
Proof.
  induction 1 as [|c w Hc _ IH]; [done|]. simpl.
  unfold word_byte in Hc. apply negb_true_iff, orb_false_iff in Hc as [-> ->].
  by destruct (is_digit c).
Qed.

(** After the word bytes at the head of canonical text comes a token
    boundary. *)
Lemma canonical_after_word r :
  canonical InWord r = true ->
  canonical AtStart (drop (prefix_len word_byte r) r) = true.
Proof.
  induction r as [|d r IH]; [done|]. simpl. unfold word_byte at 1.
  destruct (is_quote d) eqn:Eq; [done|].
  destruct (is_space d) eqn:Es; simpl.
  - by rewrite Eq, Es.
  - destruct (is_digit d); auto.
Qed.

(** The text joined from the tokens of any query is canonical. *)
Lemma pieces_canonical (fuel : nat) : forall (l : bytes) (s : cstate),
  (length l <= fuel)%nat ->
  (s = AfterSpace -> match l with c :: _ => is_space c = false | [] => True end) ->
  canonical s (concat (pieces fuel l)) = true.
Proof.
  induction fuel as [|fuel IH]; intros l s Hfuel Hs.
  - destruct l; [done | simpl in Hfuel; lia].
  - destruct l as [|c rest]; [done|].
    pose proof (token_piece_range (c :: rest) ltac:(done)) as Hr.
    cbn [pieces concat].
    destruct (is_quote c || is_digit c) eqn:Eqd.
    + rewrite token_piece_placeholder by done.
      change (canonical s (bytes_of "?" ++ ?t)) with (canonical InWord t).
      apply IH; [rewrite length_drop; simpl in *; lia | done].
    + apply orb_false_iff in Eqd as [Eq Ed].
      destruct (is_space c) eqn:Es.
      * rewrite token_piece_space by done. cbn [fst snd].
        change (canonical s (bytes_of " " ++ ?t))
          with (true && match s with AfterSpace => false | _ => true end
                && canonical AfterSpace t).
        assert (s <> AfterSpace) as Hne.
        { intros ->. specialize (Hs eq_refl). simpl in Hs. congruence. }
        replace (match s with AfterSpace => false | _ => true end) with true
          by (by destruct s).
        simpl. apply IH.
        -- rewrite length_drop. simpl in *. lia.
        -- intros _. simpl.
           pose proof (prefix_len_drop is_space rest) as Hd.
           by destruct (drop (prefix_len is_space rest) rest).
      * rewrite token_piece_default by done. cbn [fst snd].
        rewrite <- app_comm_cons. cbn [canonical]. rewrite Eq, Es, Ed.
        rewrite canonical_word_run by apply prefix_len_take.
        apply IH; [rewrite length_drop; simpl in *; lia | done].
Qed.

(** Scanning canonical text from a token boundary gives the text back. *)
Lemma pieces_fixed (fuel : nat) : forall (t : bytes) (s : cstate),
  (length t <= fuel)%nat -> s <> InWord ->
  canonical s t = true ->
  concat (pieces fuel t) = t.
Proof.
  induction fuel as [|fuel IH]; intros t s Hfuel Hs Hc.
  - destruct t; [done | simpl in Hfuel; lia].
  - destruct t as [|c r]; [done|].
    cbn [pieces concat]. simpl in Hc.
    destruct (is_quote c) eqn:Eq; [done|].
    destruct (is_space c) eqn:Es.
    + apply andb_true_iff in Hc as [Hc Hr].
      apply andb_true_iff in Hc as [Hsp _].
      apply bool_decide_eq_true in Hsp. subst c.
      rewrite token_piece_space by done. cbn [fst snd].
      assert (prefix_len is_space r = 0%nat) as ->.
      { destruct r as [|d r]; [done|]. simpl in *.
        destruct (is_quote d); [done|]. destruct (is_space d); [|done].
        by rewrite andb_false_r in Hr. }
      simpl. f_equal. apply (IH r AfterSpace); [simpl in *; lia|done|done].
    + destruct (is_digit c) eqn:Ed; [by destruct s|].
      rewrite token_piece_default by done. cbn [fst snd].
      simpl. f_equal.
      rewrite (IH _ AtStart); [apply take_drop| |done|].
      * rewrite length_drop. simpl in *. lia.
      * by apply canonical_after_word.
Qed.

Lemma joinTokens_canonical (q t : bytes) :
  joinTokens q = Ok t -> canonical AtStart t = true.
Proof.
  rewrite joinTokens_pieces. intros [= <-].
  by apply pieces_canonical.
Qed.

Lemma joinTokens_fixed (t : bytes) :
  canonical AtStart t = true -> joinTokens t = Ok t.
Proof.
  intros Hc. rewrite joinTokens_pieces. f_equal.
  by apply (pieces_fixed _ t AtStart).
Qed.

End CanonicalText.

(** ** Tokenizer and canonicalizer: the specification's claims *)

Section CanonicalizerClaims.

Lemma pieces_fuel (f1 : nat) : forall (f2 : nat) (l : bytes),
  (length l <= f1)%nat -> (length l <= f2)%nat -> pieces f1 l = pieces f2 l.
Proof.
  induction f1 as [|f1 IH]; intros f2 l H1 H2.
  - destruct l; [by destruct f2 | simpl in H1; lia].
  - destruct l as [|c r]; [by destruct f2|].
    destruct f2 as [|f2]; [simpl in H2; lia|].
    pose proof (token_piece_range (c :: r) ltac:(done)) as Hr.
    cbn [pieces]. f_equal.
    apply IH; rewrite length_drop; simpl in *; lia.
Qed.

(** C6.  The specification's example for the canonicalizer,
    [SELECT * FROM t WHERE id = 42 AND name = 'bob'], evaluated on the
    code: the number becomes one [?], but the quoted literal becomes
    two, because [scanToken] returns the index of the closing quote as
    the token length ([4] for ['bob'], a string of five bytes) and the
    closing quote is then scanned as the start of another quoted
    literal. *)
Theorem cleanupQuery_example_quoted_literal :
  cleanupQuery (bytes_of "SELECT * FROM t WHERE id = 42 AND name = 'bob'")
  = Ok (bytes_of "SELECT * FROM t WHERE id = ? AND name = ??")
  /\ scanToken (bytes_of "'bob'") = Ok (4%nat, TOKEN_QUOTE)
  /\ scanToken (drop 4 (bytes_of "'bob'")) = Ok (1%nat, TOKEN_QUOTE).
Proof. repeat split; vm_compute; reflexivity. Qed.

(** C7, as the specification states it, fails on the code: scanning
    [s2compiled] gives one literal token of all ten bytes, not a
    literal run [s] that ends before the [2]. *)
Lemma s2compiled_is_one_token :
  scanToken (bytes_of "s2compiled") = Ok (10%nat, TOKEN_DEFAULT)
  /\ scanToken (bytes_of "s2compiled") <> Ok (1%nat, TOKEN_DEFAULT).
Proof. split; [vm_compute; reflexivity | vm_compute; discriminate]. Qed.

(** C7, amended.  A digit met inside a literal run does not end the
    run ("Numbers, allow."): a literal run started by a byte that is no
    quote, digit or whitespace byte extends to the first quote or
    whitespace byte, or to the end of the input, and every digit is a
    byte that continues it.  So [s2compiled] is a single literal token
    of length 10. *)
Theorem literal_run_keeps_digits (c : byte) (rest : bytes) :
  is_quote c = false -> is_digit c = false -> is_space c = false ->
  scanToken (c :: rest) = Ok (S (prefix_len word_byte rest), TOKEN_DEFAULT)
  /\ (forall d, is_digit d = true -> word_byte d = true)
  /\ (forall d, word_byte d = negb (is_quote d || is_space d))
  /\ scanToken (bytes_of "s2compiled") = Ok (10%nat, TOKEN_DEFAULT).
Proof.
  intros Hq Hd Hs. repeat split.
  - unfold scanToken. rewrite Hq, Hd, Hs.
    by rewrite (scan_default_eq rest 1 (length (c :: rest))).
  - intros d Hdig. unfold word_byte.
    by rewrite (digit_not_quote _ Hdig), (digit_not_space _ Hdig).
Qed.

Lemma literal_run_keeps_digits_witness :
  scanToken (bytes_of "s2compiled")
  = Ok (S (prefix_len word_byte (bytes_of "2compiled")), TOKEN_DEFAULT).
Proof.
  apply (literal_run_keeps_digits "s"%byte (bytes_of "2compiled"));
    vm_compute; reflexivity.
Defined.

(** C8, as the specification states it, fails on the code: the
    route-comment rewrite removes the text before the first colon each
    time it runs, so a second application changes the text again. *)
Lemma cleanupQuery_not_idempotent :
  cleanupQuery (bytes_of "SELECT /* a:b:c */ x")
  = Ok (bytes_of "SELECT /* b:c */ x")
  /\ cleanupQuery (bytes_of "SELECT /* b:c */ x")
     = Ok (bytes_of "SELECT /* c */ x")
  /\ bytes_of "SELECT /* b:c */ x" <> bytes_of "SELECT /* c */ x".
Proof. repeat split; vm_compute; (reflexivity || discriminate). Qed.

(** C10.  On a non-empty slice [scanToken] returns a length between 1
    and the length of the slice and one of the four token types.  So
    each turn of [cleanupQuery]'s loop moves [i] strictly forward and
    not past the end, the loop ends within [len(query)] turns whatever
    fuel it is given beyond that, [cleanupQuery] returns a string on
    every input (the empty string on the empty input), and neither
    [log.Fatalf] is reached. *)
Theorem scanToken_advances_cleanupQuery_total (q : bytes) :
  (q <> [] ->
   exists len ty, scanToken q = Ok (len, ty)
     /\ (1 <= len <= length q)%nat
     /\ (ty = TOKEN_DEFAULT \/ ty = TOKEN_QUOTE
         \/ ty = TOKEN_NUMBER \/ ty = TOKEN_WHITESPACE))
  /\ (forall i qspace, (i < length q)%nat ->
      exists i' qspace', cleanup_step q i qspace = Ok (i', qspace')
        /\ (i < i' <= length q)%nat)
  /\ (forall fuel, (length q <= fuel)%nat ->
      exists qspace, cleanup_loop fuel q 0 [] = Ok qspace
        /\ cleanup_loop (length q) q 0 [] = Ok qspace)
  /\ (exists out, cleanupQuery q = Ok out)
  /\ cleanupQuery [] = Ok [].
Proof.
  split; [apply scanToken_range|].
  split.
  { intros i qspace Hi. rewrite cleanup_step_piece by done.
    eexists _, _; split; [done|].
    assert (Hne : drop i q <> []).
    { intros E. apply (f_equal length) in E. rewrite length_drop in E.
      simpl in E. lia. }
    pose proof (token_piece_range _ Hne) as Hr.
    rewrite length_drop in Hr. lia. }
  split.
  { intros fuel Hfuel. rewrite !cleanup_loop_pieces by lia.
    eexists; split; [done|]. rewrite drop_0. simpl.
    f_equal. by apply pieces_fuel. }
  split; [rewrite cleanupQuery_pieces; eauto | reflexivity].
Qed.

Lemma scanToken_advances_cleanupQuery_total_witness :
  exists len ty, scanToken (bytes_of "SELECT 1") = Ok (len, ty)
    /\ (1 <= len <= length (bytes_of "SELECT 1"))%nat
    /\ (ty = TOKEN_DEFAULT \/ ty = TOKEN_QUOTE
        \/ ty = TOKEN_NUMBER \/ ty = TOKEN_WHITESPACE).
Proof.
  apply (proj1 (scanToken_advances_cleanupQuery_total (bytes_of "SELECT 1"))).
  vm_compute. discriminate.
Defined.

End CanonicalizerClaims.

(** ** Frame carver *)

Section CarverClaims.

Lemma declared_size_range (b : bytes) (size : Z) :
  declared_size b = Some size -> 0 <= size < 2 ^ 24.
Proof.
  destruct b as [|b0 [|b1 [|b2 b]]]; try done. intros [= <-].
  pose proof (byte_val_range b0). pose proof (byte_val_range b1).
  pose proof (byte_val_range b2).
  change (2 ^ 24) with 16777216. change (2 ^ 8) with 256.
  change (2 ^ 16) with 65536. lia.
Qed.

(** The shifts and additions of line 362 compute the declared size; no
    [uint32] operation wraps. *)
Lemma carve_size (b : bytes) (size : Z) :
  declared_size b = Some size ->
  u32 (u32 (u32 (byte_val (b !!! 0%nat))
            + u32 (Z.shiftl (u32 (byte_val (b !!! 1%nat))) 8))
       + u32 (Z.shiftl (u32 (byte_val (b !!! 2%nat))) 16)) = size.
Proof.
  destruct b as [|b0 [|b1 [|b2 b]]]; try done. intros [= <-].
  change ((b0 :: b1 :: b2 :: b) !!! 0%nat) with b0.
  change ((b0 :: b1 :: b2 :: b) !!! 1%nat) with b1.
  change ((b0 :: b1 :: b2 :: b) !!! 2%nat) with b2.
  pose proof (byte_val_range b0). pose proof (byte_val_range b1).
  pose proof (byte_val_range b2).
  unfold u32. rewrite !Z.shiftl_mul_pow2 by lia.
  change (2 ^ 32) with 4294967296. change (2 ^ 8) with 256.
  change (2 ^ 16) with 65536.
  rewrite (Z.mod_small (byte_val b0)), (Z.mod_small (byte_val b1)),
    (Z.mod_small (byte_val b2)) by lia.
  rewrite (Z.mod_small (byte_val b1 * 256)),
    (Z.mod_small (byte_val b2 * 65536)) by lia.
  rewrite (Z.mod_small (byte_val b0 + byte_val b1 * 256)) by lia.
  rewrite Z.mod_small by lia. lia.
Qed.

Lemma declared_size_is_Some (b : bytes) :
  (3 <= length b)%nat -> exists size, declared_size b = Some size.
Proof.
  destruct b as [|b0 [|b1 [|b2 b]]]; simpl; try lia. eauto.
Qed.

(** Where [carvePacket] indexes and slices the buffer, the indices are
    in range. *)
Lemma carvePacket_in_range (buf : slice) (size : Z) :
  let b := slice_bytes buf in
  let datalen := u32 (Z.of_nat (length b)) in
  declared_size b = Some size ->
  (datalen <? 5) = false ->
  (size =? 0) || (datalen <? u32 (size + 4)) = false ->
  (5 <= length b)%nat
  /\ 5 <= u32 (size + 4) <= Z.of_nat (length b).
Proof.
  intros b datalen Hsz H5 Hguard. subst datalen.
  pose proof (declared_size_range _ _ Hsz) as Hr.
  apply orb_false_iff in Hguard as [H0 Hlt].
  apply Z.ltb_ge in H5, Hlt. apply Z.eqb_neq in H0.
  unfold u32 in *. rewrite (Z.mod_small (size + 4)) in * by lia.
  pose proof (Z.mod_le (Z.of_nat (length b)) (2 ^ 32) ltac:(lia) ltac:(lia)).
  lia.
Qed.

(** C4.  A buffer of exactly [size + 4] bytes that declares a size
    [size > 0]: [carvePacket] returns the byte at offset 4 as the
    command type and the bytes [[5, size+4)], [size - 1] of them, as
    the payload, and leaves the buffer [nil]. *)
Theorem carvePacket_exact_frame (buf : bytes) (size : Z) :
  declared_size buf = Some size ->
  0 < size ->
  Z.of_nat (length buf) = size + 4 ->
  exists cmd,
    buf !! 4%nat = Some cmd
    /\ carvePacket (Some buf)
       = (byte_val cmd, Some (drop 5 (take (Z.to_nat (size + 4)) buf)), None)
    /\ drop 5 (take (Z.to_nat (size + 4)) buf) = drop 5 buf
    /\ Z.of_nat (length (drop 5 buf)) = size - 1.
Proof.
  intros Hsz Hpos Hlen.
  pose proof (declared_size_range _ _ Hsz) as Hr.
  destruct (lookup_lt_is_Some_2 buf 4%nat) as [cmd Hcmd]; [lia|].
  exists cmd. split; [done|].
  unfold carvePacket. cbv zeta. cbn [slice_bytes].
  rewrite (carve_size _ _ Hsz).
  assert (Hd : u32 (Z.of_nat (length buf)) = size + 4)
    by (unfold u32; rewrite Z.mod_small; lia).
  assert (He : u32 (size + 4) = size + 4)
    by (unfold u32; rewrite Z.mod_small; lia).
  rewrite Hd, He.
  destruct (Z.ltb_spec (size + 4) 5); [lia|].
  destruct (Z.eqb_spec size 0); [lia|].
  destruct (Z.ltb_spec (size + 4) (size + 4)); [lia|]. cbn [orb].
  destruct (Z.geb_spec (size + 4) (size + 4)); [|lia].
  rewrite (list_lookup_total_correct _ _ _ Hcmd).
  split; [done|].
  split; [by rewrite take_ge by lia|].
  rewrite length_drop. lia.
Qed.

Lemma carvePacket_exact_frame_witness :
  exists cmd,
    ([Byte.x06; Byte.x00; Byte.x00; Byte.x00; Byte.x03] ++ bytes_of "SELEC")
      !! 4%nat = Some cmd
    /\ carvePacket
         (Some ([Byte.x06; Byte.x00; Byte.x00; Byte.x00; Byte.x03]
                ++ bytes_of "SELEC"))
       = (byte_val cmd,
          Some (drop 5 (take (Z.to_nat (6 + 4))
                  ([Byte.x06; Byte.x00; Byte.x00; Byte.x00; Byte.x03]
                   ++ bytes_of "SELEC"))), None)
    /\ drop 5 (take (Z.to_nat (6 + 4))
                 ([Byte.x06; Byte.x00; Byte.x00; Byte.x00; Byte.x03]
                  ++ bytes_of "SELEC"))
       = drop 5 ([Byte.x06; Byte.x00; Byte.x00; Byte.x00; Byte.x03]
                 ++ bytes_of "SELEC")
    /\ Z.of_nat (length (drop 5
         ([Byte.x06; Byte.x00; Byte.x00; Byte.x00; Byte.x03]
          ++ bytes_of "SELEC"))) = 6 - 1.
Proof.
  apply (carvePacket_exact_frame
           ([Byte.x06; Byte.x00; Byte.x00; Byte.x00; Byte.x03]
            ++ bytes_of "SELEC") 6);
    [vm_compute; reflexivity | lia | vm_compute; reflexivity].
Defined.

(** C5.  [carvePacket] returns [-1] and [nil] and leaves the buffer as
    it was when the buffer has fewer than 5 bytes, or declares the
    size 0, or has fewer than [size + 4] bytes for the size it
    declares. *)
Theorem carvePacket_incomplete (buf : slice) :
  (length (slice_bytes buf) < 5)%nat
  \/ declared_size (slice_bytes buf) = Some 0
  \/ (exists size, declared_size (slice_bytes buf) = Some size
        /\ Z.of_nat (length (slice_bytes buf)) < size + 4) ->
  carvePacket buf = (-1, None, buf).
Proof.
  intros H. unfold carvePacket. cbv zeta.
  set (b := slice_bytes buf) in *.
  destruct (Z.ltb_spec (u32 (Z.of_nat (length b))) 5) as [|H5]; [done|].
  assert (Hmod : u32 (Z.of_nat (length b)) <= Z.of_nat (length b))
    by (apply Z.mod_le; lia).
  destruct H as [H | [H | (size & Hsz & H)]]; [lia | |].
  - by rewrite (carve_size _ _ H).
  - rewrite (carve_size _ _ Hsz).
    pose proof (declared_size_range _ _ Hsz) as Hr.
    assert (Hd : u32 (Z.of_nat (length b)) = Z.of_nat (length b))
      by (unfold u32; rewrite Z.mod_small; lia).
    assert (He : u32 (size + 4) = size + 4)
      by (unfold u32; rewrite Z.mod_small; lia).
    rewrite Hd, He.
    destruct (Z.ltb_spec (Z.of_nat (length b)) (size + 4)); [|lia].
    by rewrite orb_true_r.
Qed.

Lemma carvePacket_incomplete_witness :
  carvePacket (Some [Byte.x02; Byte.x00; Byte.x00; Byte.x00; Byte.x03])
  = (-1, None, Some [Byte.x02; Byte.x00; Byte.x00; Byte.x00; Byte.x03]).
Proof.
  apply (carvePacket_incomplete
           (Some [Byte.x02; Byte.x00; Byte.x00; Byte.x00; Byte.x03])).
  right. right. exists 2. split; [vm_compute; reflexivity | simpl; lia].
Defined.

End CarverClaims.

(** ** Flow state machine *)

Section FlowClaims.

Lemma formatItem_ok cfg rs pdata it :
  valid_item it -> exists piece, formatItem cfg rs pdata it = Ok piece.
Proof.
  destruct it as [n|s|]; simpl; [|eauto|done].
  intros [-> | [-> | [-> | ->]]]; cbn.
  - destruct (dirty cfg); [eauto|]. rewrite cleanupQuery_pieces. eauto.
  - match goal with |- context [if ?b then _ else _] => destruct b end.
    + match goal with |- context [if ?b then _ else _] => destruct b end; eauto.
    + rewrite cleanupQuery_pieces. cbn. eauto.
  - eauto.
  - eauto.
Qed.

Lemma buildKey_ok cfg rs pdata items :
  Forall valid_item items ->
  forall text, exists key, buildKey cfg rs pdata items text = Ok key.
Proof.
  induction 1 as [|it items Hit _ IH]; intros text; simpl; [eauto|].
  destruct (formatItem_ok cfg rs pdata it Hit) as [piece ->]. cbn.
  apply IH.
Qed.

(** Accounting a request frame touches neither the buffers, nor
    [synced], nor the desync counter. *)
Lemma recordRequest_ok cfg now g rs pdata plen :
  Forall valid_item (format cfg) ->
  exists g' rs', recordRequest cfg now g rs pdata plen = Ok (g', rs')
    /\ synced rs' = synced rs /\ reqbuffer rs' = reqbuffer rs
    /\ resbuffer rs' = resbuffer rs /\ desyncs g' = desyncs g.
Proof.
  intros Hfmt. unfold recordRequest.
  destruct (buildKey_ok cfg (set_reqSent rs (Some now)) pdata _ Hfmt [])
    as [key ->]. cbn.
  eexists _, _. split; [done|]. by destruct rs.
Qed.

Lemma recordResponse_frame now randn g rs plen :
  let '(g', rs') := recordResponse now randn g rs plen in
  synced rs' = synced rs /\ reqbuffer rs' = reqbuffer rs
  /\ resbuffer rs' = resbuffer rs /\ desyncs g' = desyncs g.
Proof.
  unfold recordResponse. destruct (reqSent rs); [|done].
  destruct rs as [? ? ? ? ? ? ? ? [k|] ?]; by cbn.
Qed.

(** C1, as the specification states it, fails on the code: a
    [COM_QUERY] frame delivered in two pieces on the request direction
    of a synced flow.  The first piece is kept in the request buffer;
    the second delivery overwrites it, so the buffer holds the second
    piece alone, nothing is carved and no query is counted, although
    the two pieces appended are a complete frame. *)
Lemma split_frame_is_not_carved :
  exists g1 rs1 g2 rs2,
    processPacket example_config 10 0 example_globals example_synced_flow
      true (Some (take 9 example_frame)) = Ok (g1, rs1)
    /\ reqbuffer rs1 = Some (take 9 example_frame)
    /\ processPacket example_config 20 0 g1 rs1
         true (Some (drop 9 example_frame)) = Ok (g2, rs2)
    /\ reqbuffer rs2 = Some (drop 9 example_frame)
    /\ reqbuffer rs2 <> Some (take 9 example_frame ++ drop 9 example_frame)
    /\ querycount g2 = 0
    /\ carvePacket (Some (take 9 example_frame ++ drop 9 example_frame))
       = (COM_QUERY, Some (bytes_of "SELECT 1"), None).
Proof.
  eexists _, _, _, _.
  split; [vm_compute; reflexivity|].
  split; [vm_compute; reflexivity|].
  split; [vm_compute; reflexivity|].
  split; [vm_compute; reflexivity|].
  split; [vm_compute; discriminate|].
  split; vm_compute; reflexivity.
Qed.

(** C1, amended.  [processPacket] stores the delivered bytes as the
    direction's buffer, replacing what the buffer held, and carves that:
    the outcome of a delivery does not depend on the bytes buffered
    before for that direction, and the carve result and the buffer left
    behind are those of [carvePacket] run on the delivered bytes
    alone. *)
Theorem processPacket_replaces_buffer (cfg : config) (now : Z) (randn : nat)
    (g : globals) (rs : source) (request : bool) (data : slice) :
  (forall b : slice,
     processPacket cfg now randn g (with_buffer request b rs) request data
     = processPacket cfg now randn g rs request data)
  /\ (let '(_, rs1, ptype, pdata) := receive g rs request data in
      carvePacket data = (ptype, pdata, buffer_of request rs1)).
Proof.
  split.
  - intros b. unfold processPacket, receive, with_buffer.
    destruct request, rs as [? ? ? ? [?|] ? ? ? ? ?]; cbn;
      destruct (carvePacket data) as [[ptype pdata] buf]; reflexivity.
  - unfold receive, buffer_of.
    destruct request, rs as [? ? ? ? [?|] ? ? ? ? ?]; cbn;
      destruct (carvePacket data) as [[ptype pdata] buf]; reflexivity.
Qed.

(** C2.  A flow is created unsynced.  While a flow is unsynced, a
    delivery leaves it synced exactly when it is a request whose carved
    frame has command type [COM_QUERY]; in every other case both
    buffers are set to [nil], nothing else of the flow changes, and of
    the global state only the packet counter (and the desync counter,
    if a response buffer was left over) is touched. *)
Theorem unsynced_flow_syncs_on_query (cfg : config) (now : Z) (randn : nat)
    (g : globals) (rs : source) (request : bool) (data : slice) :
  Forall valid_item (format cfg) ->
  synced rs = false ->
  (forall g0 chmap s, chmap !! s = None ->
     synced (lookupSource g0 chmap s).2 = false)
  /\ exists g' rs',
       processPacket cfg now randn g rs request data = Ok (g', rs')
       /\ synced rs' = request && ((carvePacket data).1.1 =? COM_QUERY)
       /\ (request && ((carvePacket data).1.1 =? COM_QUERY) = false ->
           rs' = set_buffers rs None None
           /\ g' = if request && bool_decide (is_Some (resbuffer rs))
                   then count_desync (count_packet g false)
                   else count_packet g false).
Proof.
  intros Hfmt Hsync. split.
  { intros g0 chmap s Hs. unfold lookupSource. by rewrite Hs. }
  unfold processPacket, receive.
  destruct rs as [s ip sy rq rsb sent rt qb qd qt]. simpl in Hsync. subst sy.
  destruct (carvePacket data) as [[ptype pdata] buf] eqn:Ecarve.
  destruct request; cbn [andb negb fst snd].
  - (* request *)
    destruct rsb as [rsb|]; cbn [resbuffer reqbuffer synced set_buffers
      set_synced]; rewrite Ecarve; cbn [synced set_buffers negb andb].
    all: destruct (Z.eqb_spec ptype COM_QUERY) as [->|Hne]; cbn [negb].
    2,4: eexists _, _; split; [done|]; split; [done|]; intros _;
         split; reflexivity.
    all: change (COM_QUERY =? -1) with false; cbn [negb].
    all: match goal with
         | |- context [recordRequest ?c ?n ?g ?r ?p ?l] =>
             destruct (recordRequest_ok c n g r p l Hfmt)
               as (g' & rs' & -> & Hs' & _)
         end.
    all: eexists _, _; split; [done|]; split; [done|]; intros [=].
  - (* response *)
    cbn [resbuffer reqbuffer synced set_buffers]. rewrite Ecarve.
    cbn [synced set_buffers negb andb].
    eexists _, _; split; [done|]; split; [done|]; intros _.
    split; reflexivity.
Qed.

Lemma unsynced_flow_syncs_on_query_witness :
  exists g' rs',
    processPacket example_config 10 0 example_globals
      (newSource (bytes_of "10.0.0.7:51234") (bytes_of "10.0.0.7"))
      true (Some example_frame) = Ok (g', rs')
    /\ synced rs' = true.
Proof.
  destruct (unsynced_flow_syncs_on_query example_config 10 0 example_globals
              (newSource (bytes_of "10.0.0.7:51234") (bytes_of "10.0.0.7"))
              true (Some example_frame))
    as (_ & g' & rs' & Hrun & Hsync & _).
  - repeat constructor.
  - reflexivity.
  - exists g', rs'. split; [exact Hrun | exact Hsync].
Defined.

(** C3, as the specification states it, fails on the code: a synced
    flow whose response buffer is [nil] receives two request payloads
    in a row, each one complete [COM_QUERY] frame.  The desync counter
    stays at 0 and the flow stays synced. *)
Lemma consecutive_requests_no_desync :
  exists g1 rs1 g2 rs2,
    synced example_synced_flow = true
    /\ processPacket example_config 10 0 example_globals example_synced_flow
         true (Some example_frame) = Ok (g1, rs1)
    /\ processPacket example_config 20 0 g1 rs1
         true (Some example_frame) = Ok (g2, rs2)
    /\ desyncs example_globals = 0
    /\ desyncs g2 = 0
    /\ synced rs2 = true
    /\ querycount g2 = 2.
Proof.
  eexists _, _, _, _.
  split; [reflexivity|].
  split; [vm_compute; reflexivity|].
  split; [vm_compute; reflexivity|].
  repeat split; vm_compute; reflexivity.
Qed.

(** C3, amended.  What desynchronises a synced flow is a request
    payload processed while the flow's response buffer is not [nil]
    (bytes of a response were left over): then the desync counter is
    incremented once, the response buffer is cleared and the flow is
    marked unsynced before the request is carved, so that after the
    delivery it is synced only if this request carves to a [COM_QUERY]
    frame.  A request processed while the response buffer is [nil]
    leaves the desync counter and [synced] as they were. *)
Theorem request_desyncs_on_leftover_response (cfg : config) (now : Z)
    (randn : nat) (g : globals) (rs : source) (data : slice) :
  Forall valid_item (format cfg) ->
  synced rs = true ->
  (is_Some (resbuffer rs) ->
     let '(g1, rs1, _, _) := receive g rs true data in
     desyncs g1 = u64 (desyncs g + 1)
     /\ resbuffer rs1 = None /\ synced rs1 = false)
  /\ exists g' rs',
       processPacket cfg now randn g rs true data = Ok (g', rs')
       /\ resbuffer rs' = None
       /\ (is_Some (resbuffer rs) ->
           desyncs g' = u64 (desyncs g + 1)
           /\ synced rs' = ((carvePacket data).1.1 =? COM_QUERY))
       /\ (resbuffer rs = None ->
           desyncs g' = desyncs g /\ synced rs' = true).
Proof.
  intros Hfmt Hsync.
  destruct rs as [s ip sy rq rsb sent rt qb qd qt]. simpl in Hsync. subst sy.
  unfold processPacket, receive.
  destruct (carvePacket data) as [[ptype pdata] buf] eqn:Ecarve.
  destruct rsb as [rsb|]; cbn [resbuffer reqbuffer synced set_buffers
    set_synced]; rewrite Ecarve; cbn [synced set_buffers negb andb fst snd].
  - split; [done|].
    destruct (Z.eqb_spec ptype COM_QUERY) as [->|Hne]; cbn [negb].
    + change (COM_QUERY =? -1) with false; cbn [negb].
      match goal with
      | |- context [recordRequest ?c ?n ?g ?r ?p ?l] =>
          destruct (recordRequest_ok c n g r p l Hfmt)
            as (g' & rs' & -> & Hs' & _ & Hres & Hde)
      end.
      eexists _, _; split; [done|]. split; [done|].
      split; [done | by intros [=]].
    + eexists _, _; split; [done|]. split; [done|].
      split; [done | by intros [=]].
  - split; [by intros [? [=]]|].
    destruct (Z.eqb_spec ptype (-1)) as [->|Hne].
    + eexists _, _; split; [done|]. split; [done|].
      split; [by intros [? [=]] | done].
    + match goal with
      | |- context [recordRequest ?c ?n ?g ?r ?p ?l] =>
          destruct (recordRequest_ok c n g r p l Hfmt)
            as (g' & rs' & -> & Hs' & _ & Hres & Hde)
      end.
      eexists _, _; split; [done|]. split; [done|].
      split; [by intros [? [=]] | done].
Qed.

Lemma request_desyncs_on_leftover_response_witness :
  exists g' rs',
    processPacket example_config 10 0 example_globals
      (set_buffers example_synced_flow None (Some (bytes_of "x")))
      true (Some example_frame) = Ok (g', rs')
    /\ resbuffer rs' = None
    /\ desyncs g' = u64 (desyncs example_globals + 1)
    /\ synced rs' = true.
Proof.
  destruct (request_desyncs_on_leftover_response example_config 10 0
              example_globals
              (set_buffers example_synced_flow None (Some (bytes_of "x")))
              (Some example_frame))
    as (_ & g' & rs' & Hrun & Hres & Hsome & _).
  - repeat constructor.
  - reflexivity.
  - exists g', rs'. split; [exact Hrun|]. split; [exact Hres|].
    apply Hsome. by eexists.
Defined.

End FlowClaims.

(** ** Timing summary *)

Section TimingClaims.

Lemma foldr_min_le_init (l : list Z) (x : Z) : foldr Z.min x l <= x.
Proof. induction l as [|y l IH]; simpl; lia. Qed.

Lemma foldr_min_le_elem (l : list Z) (x y : Z) : y ∈ l -> foldr Z.min x l <= y.
Proof.
  induction l as [|z l IH]; [by intros ?%elem_of_nil|].
  intros [->|H]%elem_of_cons; simpl; [lia|]. specialize (IH H). lia.
Qed.

Lemma foldr_min_elem (l : list Z) (x : Z) : foldr Z.min x l ∈ x :: l.
Proof.
  induction l as [|z l IH]; simpl; [left|].
  destruct (Z.min_spec z (foldr Z.min x l)) as [[_ ->]|[_ ->]].
  - right; left.
  - apply elem_of_cons in IH as [->|IH]; [left | by do 2 right].
Qed.

Lemma foldr_max_ge_init (l : list Z) (x : Z) : x <= foldr Z.max x l.
Proof. induction l as [|y l IH]; simpl; lia. Qed.

Lemma foldr_max_ge_elem (l : list Z) (x y : Z) : y ∈ l -> y <= foldr Z.max x l.
Proof.
  induction l as [|z l IH]; [by intros ?%elem_of_nil|].
  intros [->|H]%elem_of_cons; simpl; [lia|]. specialize (IH H). lia.
Qed.

Lemma foldr_max_elem (l : list Z) (x : Z) : foldr Z.max x l ∈ x :: l.
Proof.
  induction l as [|z l IH]; simpl; [left|].
  destruct (Z.max_spec z (foldr Z.max x l)) as [[_ ->]|[_ ->]].
  - apply elem_of_cons in IH as [->|IH]; [left | by do 2 right].
  - right; left.
Qed.

(** [minimum] and [maximum] are the least and the greatest element. *)
Lemma minimum_spec (l : list Z) :
  l <> [] -> minimum l ∈ l /\ forall x, x ∈ l -> minimum l <= x.
Proof.
  destruct l as [|y l]; [done|]; intros _. simpl. split.
  - apply foldr_min_elem.
  - intros x [->|H]%elem_of_cons;
      [apply foldr_min_le_init | by apply foldr_min_le_elem].
Qed.

Lemma maximum_spec (l : list Z) :
  l <> [] -> maximum l ∈ l /\ forall x, x ∈ l -> x <= maximum l.
Proof.
  destruct l as [|y l]; [done|]; intros _. simpl. split.
  - apply foldr_max_elem.
  - intros x [->|H]%elem_of_cons;
      [apply foldr_max_ge_init | by apply foldr_max_ge_elem].
Qed.

Lemma foldr_min_snoc (l : list Z) (x v : Z) :
  foldr Z.min x (l ++ [v]) = Z.min (foldr Z.min x l) v.
Proof. induction l as [|y l IH]; simpl; [|rewrite IH]; lia. Qed.

Lemma foldr_max_snoc (l : list Z) (x v : Z) :
  foldr Z.max x (l ++ [v]) = Z.max (foldr Z.max x l) v.
Proof. induction l as [|y l IH]; simpl; [|rewrite IH]; lia. Qed.

Lemma sumZ_snoc (l : list Z) (v : Z) : sumZ (l ++ [v]) = sumZ l + v.
Proof. induction l as [|x l IH]; simpl; [lia|]. rewrite IH. lia. Qed.

Lemma sumZ_perm (l l' : list Z) : l ≡ₚ l' -> sumZ l = sumZ l'.
Proof. induction 1; simpl; lia. Qed.

Lemma nonzero_snoc (l : list Z) (v : Z) :
  nonzero (l ++ [v]) = nonzero l ++ (if decide (v = 0) then [] else [v]).
Proof.
  unfold nonzero. rewrite filter_app. f_equal.
  rewrite filter_cons. by destruct (decide (v = 0)); case_decide.
Qed.

Lemma nonzero_positive (l : list Z) :
  Forall (fun v => 0 <= v < 2 ^ 64) l -> Forall (fun v => 0 < v) (nonzero l).
Proof.
  intros H. apply Forall_forall. intros v [Hv Hin]%list_elem_of_filter.
  rewrite Forall_forall in H. specialize (H v Hin). lia.
Qed.

(** One turn of the loop, on the state reached after the non-zero
    values [nz]. *)
Lemma times_body_acc_of (nz : list Z) (v : Z) :
  Forall (fun x => 0 < x) nz -> 0 <= v ->
  times_body (acc_of nz) v
  = acc_of (nz ++ (if decide (v = 0) then [] else [v])).
Proof.
  intros Hpos Hv. unfold times_body.
  destruct (decide (v = 0)) as [->|Hne]; [by rewrite app_nil_r|].
  destruct (Z.eqb_spec v 0); [done|].
  unfold acc_of. cbn [counts total min max has_min].
  rewrite length_app, sumZ_snoc. cbn [length].
  assert (Hc : u64 (u64 (Z.of_nat (length nz)) + 1)
               = u64 (Z.of_nat (length nz + 1))).
  { unfold u64. rewrite Zplus_mod_idemp_l. f_equal. lia. }
  assert (Ht : u64 (u64 (sumZ nz) + v) = u64 (sumZ nz + v)).
  { unfold u64. by rewrite Zplus_mod_idemp_l. }
  rewrite Hc, Ht. clear Hc Ht.
  destruct nz as [|x nz].
  - cbn. rewrite orb_true_r. destruct (Z.gtb_spec v 0); [done | lia].
  - cbn [negb orb app minimum maximum]. rewrite orb_false_r.
    rewrite foldr_min_snoc, foldr_max_snoc.
    destruct (Z.ltb_spec v (foldr Z.min x nz));
      destruct (Z.gtb_spec v (foldr Z.max x nz)); f_equal; lia.
Qed.

Lemma times_loop_acc_of (timings : list Z) :
  Forall (fun v => 0 <= v < 2 ^ 64) timings ->
  times_loop timings = acc_of (nonzero timings).
Proof.
  unfold times_loop.
  induction timings as [|v l IH] using rev_ind; intros Hr; [done|].
  apply Forall_app in Hr as [Hl Hv]. inversion Hv as [|? ? Hv0 _]; subst.
  rewrite fold_left_app. cbn [fold_left]. rewrite IH by done.
  rewrite times_body_acc_of; [|by apply nonzero_positive|lia].
  by rewrite nonzero_snoc.
Qed.

Lemma nonzero_length (timings : list Z) :
  (length (nonzero timings) <= length timings)%nat.
Proof. apply length_filter. Qed.

(** C9, as the specification states it, fails on the code: [total] is
    a [uint64], so the sum of two samples of [2^63] nanoseconds wraps
    to 0 and the average returned is 0, not their mean [2^63]. *)
Lemma calculateTimes_mean_wraps :
  length example_wrapping_samples = 100%nat
  /\ nonzero example_wrapping_samples = [2 ^ 63; 2 ^ 63]
  /\ mean (nonzero example_wrapping_samples) = 2 ^ 63
  /\ calculateTimes example_wrapping_samples = (ms (2 ^ 63), ms 0, ms (2 ^ 63))
  /\ summarize example_wrapping_samples
     = (ms (2 ^ 63), ms (2 ^ 63), ms (2 ^ 63))
  /\ calculateTimes example_wrapping_samples
     <> summarize example_wrapping_samples.
Proof.
  repeat split; try (vm_compute; reflexivity).
  vm_compute. discriminate.
Qed.

(** C9, amended.  Over a 100-slot array of [uint64] samples,
    [calculateTimes] ignores the slots equal to 0 and returns, over
    the other slots, their minimum, the integer quotient of their
    64-bit sum (the sum modulo [2^64]) by their number, and their
    maximum, each converted to [float64] and divided by 1,000,000.
    Whenever the sum of the non-zero samples is below [2^64] this is
    the summary of the specification, with the integer-truncated mean.
    When the non-zero entries are 10, 20 and 30 (in any slots) the
    result is [10/1e6], [20/1e6], [30/1e6]; for an all-zero array it is
    three zeros. *)
Theorem calculateTimes_summary (timings : list Z) :
  length timings = 100%nat ->
  Forall (fun v => 0 <= v < 2 ^ 64) timings ->
  let nz := nonzero timings in
  calculateTimes timings
  = (ms (minimum nz),
     ms (match nz with
         | [] => 0
         | _ :: _ => u64 (sumZ nz) / Z.of_nat (length nz)
         end),
     ms (maximum nz))
  /\ (sumZ nz < 2 ^ 64 -> calculateTimes timings = summarize timings)
  /\ (nz ≡ₚ [10; 20; 30] -> calculateTimes timings = (ms 10, ms 20, ms 30))
  /\ (nz = [] ->
      calculateTimes timings
      = (S754_zero false, S754_zero false, S754_zero false)).
Proof.
  intros Hlen Hrange nz.
  assert (Hcode : calculateTimes timings
    = (ms (minimum nz),
       ms (match nz with
           | [] => 0
           | _ :: _ => u64 (sumZ nz) / Z.of_nat (length nz)
           end),
       ms (maximum nz))).
  { unfold calculateTimes. rewrite times_loop_acc_of by done.
    fold nz. unfold acc_of. cbn [counts total min max]. unfold ms.
    pose proof (nonzero_length timings) as Hn. fold nz in Hn.
    assert (Hc : u64 (Z.of_nat (length nz)) = Z.of_nat (length nz)).
    { unfold u64. apply Z.mod_small.
      change (2 ^ 64) with 18446744073709551616. lia. }
    rewrite Hc. destruct nz as [|x nz']; [done|].
    destruct (Z.gtb_spec (Z.of_nat (length (x :: nz'))) 0) as [_|H0];
      [done | simpl in H0; lia]. }
  split; [exact Hcode|].
  pose proof (nonzero_positive _ Hrange) as Hpos. fold nz in Hpos.
  split; [|split].
  - intros Hsum. rewrite Hcode. unfold summarize, mean. fold nz.
    destruct nz as [|x nz'] eqn:E; [done|]. rewrite <- E in *.
    assert (0 <= sumZ nz).
    { clear -Hpos. induction Hpos; simpl; lia. }
    unfold u64. by rewrite Z.mod_small by lia.
  - intros Hperm. rewrite Hcode.
    assert (Hne : nz <> []).
    { intros E. rewrite E in Hperm. by apply Permutation_nil_l in Hperm. }
    destruct (minimum_spec nz Hne) as [Hmin_in Hmin_le].
    destruct (maximum_spec nz Hne) as [Hmax_in Hmax_ge].
    assert (Hin : forall x, x ∈ nz <-> x = 10 \/ x = 20 \/ x = 30).
    { intros x. rewrite Hperm, !elem_of_cons, elem_of_nil. tauto. }
    assert (minimum nz = 10) as ->.
    { apply Hin in Hmin_in. specialize (Hmin_le 10 (proj2 (Hin 10) ltac:(lia))).
      lia. }
    assert (maximum nz = 30) as ->.
    { apply Hin in Hmax_in. specialize (Hmax_ge 30 (proj2 (Hin 30) ltac:(lia))).
      lia. }
    rewrite (sumZ_perm _ _ Hperm), (Permutation_length Hperm).
    destruct nz; [done|]. reflexivity.
  - intros E. rewrite Hcode, E. vm_compute. reflexivity.
Qed.

Lemma calculateTimes_summary_witness :
  calculateTimes (replicate 5 0 ++ [30; 10; 20] ++ replicate 92 0)
  = (ms 10, ms 20, ms 30).
Proof.
  destruct (calculateTimes_summary
              (replicate 5 0 ++ [30; 10; 20] ++ replicate 92 0))
    as (_ & _ & H & _).
  - reflexivity.
  - apply (bool_decide_unpack _). vm_compute. reflexivity.
  - apply H. vm_compute.
    apply (Permutation_cons_app [10; 20] []). reflexivity.
Defined.

End TimingClaims.

(** * Further properties of the code *)

(** ** Frame carver: complete frames *)

Section CarverExtras.

Lemma u32_small (z : Z) : 0 <= z < 2 ^ 32 -> u32 z = z.
Proof. intros H. unfold u32. by apply Z.mod_small. Qed.

Lemma declared_size_app (b rest : bytes) (size : Z) :
  declared_size b = Some size -> declared_size (b ++ rest) = Some size.
Proof. destruct b as [|b0 [|b1 [|b2 b]]]; try done. Qed.

(** What [carvePacket] computes on a buffer that holds a complete
    frame, as a single equation. *)
Lemma carvePacket_success (buf : bytes) (size : Z) :
  Z.of_nat (length buf) < 2 ^ 32 ->
  declared_size buf = Some size ->
  0 < size ->
  size + 4 <= Z.of_nat (length buf) ->
  carvePacket (Some buf)
  = (byte_val (buf !!! 4%nat),
     Some (drop 5 (take (Z.to_nat (size + 4)) buf)),
     if decide (Z.of_nat (length buf) = size + 4) then None
     else Some (drop (Z.to_nat (size + 4)) buf)).
Proof.
  intros Hlen Hsz Hpos Hfit.
  pose proof (declared_size_range _ _ Hsz) as Hr.
  change (2 ^ 24) with 16777216 in Hr.
  change (2 ^ 32) with 4294967296 in Hlen.
  unfold carvePacket. cbv zeta. cbn [slice_bytes].
  rewrite (carve_size _ _ Hsz).
  rewrite (u32_small (Z.of_nat (length buf)))
    by (change (2 ^ 32) with 4294967296; lia).
  rewrite (u32_small (size + 4)) by (change (2 ^ 32) with 4294967296; lia).
  destruct (Z.ltb_spec (Z.of_nat (length buf)) 5); [lia|].
  destruct (Z.eqb_spec size 0); [lia|].
  destruct (Z.ltb_spec (Z.of_nat (length buf)) (size + 4)); [lia|].
  cbn [orb].
  destruct (Z.geb_spec (size + 4) (Z.of_nat (length buf)));
    destruct (decide (Z.of_nat (length buf) = size + 4)); try lia; done.
Qed.

(** X1.  A buffer shorter than [2^32] bytes that starts with a complete
    frame (declared size [size > 0], at least [size + 4] bytes):
    [carvePacket] returns the byte at offset 4 and the [size - 1] bytes
    after it, and leaves the bytes after the frame in the buffer, or
    [nil] if there are none.  Nothing is lost: the 4 header bytes, the
    command byte, the payload and the buffer left behind make up the
    buffer again. *)
Theorem carvePacket_complete_frame (buf : bytes) (size : Z) :
  Z.of_nat (length buf) < 2 ^ 32 ->
  declared_size buf = Some size ->
  0 < size ->
  size + 4 <= Z.of_nat (length buf) ->
  exists (cmd : byte) (payload : bytes) (rest : slice),
    carvePacket (Some buf) = (byte_val cmd, Some payload, rest)
    /\ buf !! 4%nat = Some cmd
    /\ payload = take (Z.to_nat (size - 1)) (drop 5 buf)
    /\ Z.of_nat (length payload) = size - 1
    /\ rest = (if decide (Z.of_nat (length buf) = size + 4) then None
               else Some (drop (Z.to_nat (size + 4)) buf))
    /\ take 4 buf ++ cmd :: payload ++ slice_bytes rest = buf.
Proof.
  intros Hlen Hsz Hpos Hfit.
  destruct (lookup_lt_is_Some_2 buf 4%nat) as [cmd Hcmd]; [lia|].
  rewrite (carvePacket_success buf size) by done.
  rewrite (list_lookup_total_correct _ _ _ Hcmd).
  assert (Hpay : drop 5 (take (Z.to_nat (size + 4)) buf)
                 = take (Z.to_nat (size - 1)) (drop 5 buf)).
  { rewrite take_drop_commute. f_equal. f_equal. lia. }
  rewrite Hpay.
  eexists cmd, _, _. split; [reflexivity|]. split; [done|].
  split; [done|]. split; [rewrite length_take, length_drop; lia|].
  split; [done|].
  assert (Hrest : slice_bytes
            (if decide (Z.of_nat (length buf) = size + 4) then None
             else Some (drop (Z.to_nat (size + 4)) buf))
          = drop (Z.to_nat (size + 4)) buf).
  { destruct (decide _); [|done]. simpl. rewrite drop_ge; [done | lia]. }
  rewrite Hrest.
  rewrite <- (take_drop 4 buf) at 4.
  f_equal.
  assert (Hd4 : drop 4 buf = cmd :: drop 5 buf).
  { by rewrite (drop_S _ _ _ Hcmd). }
  rewrite Hd4. f_equal.
  rewrite <- (take_drop (Z.to_nat (size - 1)) (drop 5 buf)) at 2.
  f_equal. rewrite drop_drop. f_equal. lia.
Qed.

Lemma carvePacket_complete_frame_witness :
  exists (cmd : byte) (payload : bytes) (rest : slice),
    carvePacket (Some (example_frame ++ bytes_of "xy"))
    = (byte_val cmd, Some payload, rest)
    /\ (example_frame ++ bytes_of "xy") !! 4%nat = Some cmd
    /\ payload = take (Z.to_nat (9 - 1)) (drop 5 (example_frame ++ bytes_of "xy"))
    /\ Z.of_nat (length payload) = 9 - 1
    /\ rest = (if decide (Z.of_nat (length (example_frame ++ bytes_of "xy"))
                          = 9 + 4) then None
               else Some (drop (Z.to_nat (9 + 4))
                            (example_frame ++ bytes_of "xy")))
    /\ take 4 (example_frame ++ bytes_of "xy")
         ++ cmd :: payload ++ slice_bytes rest
       = example_frame ++ bytes_of "xy".
Proof.
  apply (carvePacket_complete_frame (example_frame ++ bytes_of "xy") 9);
    [vm_compute; reflexivity | vm_compute; reflexivity | lia
    | vm_compute; discriminate].
Defined.

(** X2.  [carvePacket] returns a packet type other than [-1] only from
    a buffer that holds a complete frame: at least 5 bytes, a declared
    size [size > 0] and at least [size + 4] bytes.  The type is then a
    byte value and the payload a slice of [size - 1] bytes. *)
Theorem carvePacket_carves_only_complete_frames (buf : slice)
    (ptype : Z) (pdata rest : slice) :
  carvePacket buf = (ptype, pdata, rest) ->
  ptype <> -1 ->
  exists (size : Z) (payload : bytes),
    declared_size (slice_bytes buf) = Some size
    /\ 0 < size
    /\ size + 4 <= Z.of_nat (length (slice_bytes buf))
    /\ 0 <= ptype <= 255
    /\ pdata = Some payload
    /\ Z.of_nat (length payload) = size - 1.
Proof.
  unfold carvePacket. cbv zeta.
  set (b := slice_bytes buf).
  assert (Hmod : u32 (Z.of_nat (length b)) <= Z.of_nat (length b))
    by (apply Z.mod_le; lia).
  destruct (Z.ltb_spec (u32 (Z.of_nat (length b))) 5) as [|H5];
    [by intros [= <- _ _]|].
  destruct (declared_size_is_Some b) as [size Hsz]; [lia|].
  rewrite (carve_size _ _ Hsz).
  pose proof (declared_size_range _ _ Hsz) as Hr.
  change (2 ^ 24) with 16777216 in Hr.
  rewrite (u32_small (size + 4)) by (change (2 ^ 32) with 4294967296; lia).
  destruct (Z.eqb_spec size 0); [by intros [= <- _ _]|].
  destruct (Z.ltb_spec (u32 (Z.of_nat (length b))) (size + 4));
    [by intros [= <- _ _]|].
  cbn [orb]. intros Hres _.
  exists size, (drop 5 (take (Z.to_nat (size + 4)) b)).
  split; [done|]. split; [lia|]. split; [lia|].
  pose proof (byte_val_range (b !!! 4%nat)).
  assert (Hl : Z.of_nat (length (drop 5 (take (Z.to_nat (size + 4)) b)))
               = size - 1)
    by (rewrite length_drop, length_take; lia).
  destruct (Z.geb _ _); injection Hres as <- <- _; done.
Qed.

Lemma carvePacket_carves_only_complete_frames_witness :
  exists (size : Z) (payload : bytes),
    declared_size (slice_bytes (Some example_frame)) = Some size
    /\ 0 < size
    /\ size + 4 <= Z.of_nat (length (slice_bytes (Some example_frame)))
    /\ 0 <= COM_QUERY <= 255
    /\ Some (bytes_of "SELECT 1") = Some payload
    /\ Z.of_nat (length payload) = size - 1.
Proof.
  apply (carvePacket_carves_only_complete_frames (Some example_frame)
           COM_QUERY (Some (bytes_of "SELECT 1")) None);
    [vm_compute; reflexivity | vm_compute; discriminate].
Defined.

(** X3.  Carving a buffer that holds exactly one frame followed by
    more bytes yields the same packet type and payload as carving the
    frame alone, and leaves exactly the bytes that follow. *)
Theorem carvePacket_frame_then_rest (frame rest : bytes) (size : Z) :
  declared_size frame = Some size ->
  0 < size ->
  Z.of_nat (length frame) = size + 4 ->
  rest <> [] ->
  Z.of_nat (length (frame ++ rest)) < 2 ^ 32 ->
  exists (ptype : Z) (pdata : slice),
    carvePacket (Some frame) = (ptype, pdata, None)
    /\ carvePacket (Some (frame ++ rest)) = (ptype, pdata, Some rest).
Proof.
  intros Hsz Hpos Hlen Hrest Hbound.
  rewrite length_app in Hbound.
  assert (0 < length rest)%nat by (destruct rest; [done | simpl; lia]).
  rewrite (carvePacket_success frame size) by (done || lia).
  rewrite (carvePacket_success (frame ++ rest) size);
    [|rewrite length_app; lia | by apply declared_size_app | done
     |rewrite length_app; lia].
  rewrite length_app.
  destruct (decide (Z.of_nat (length frame) = size + 4)); [|lia].
  destruct (decide (Z.of_nat (length frame + length rest) = size + 4)); [lia|].
  eexists _, _. split; [reflexivity|].
  assert (Hn : Z.to_nat (size + 4) = length frame) by lia.
  rewrite Hn. rewrite take_app_length, drop_app_length.
  rewrite take_ge by lia.
  f_equal. f_equal. f_equal.
  rewrite lookup_total_app_l by lia. done.
Qed.

Lemma carvePacket_frame_then_rest_witness :
  exists (ptype : Z) (pdata : slice),
    carvePacket (Some example_frame) = (ptype, pdata, None)
    /\ carvePacket (Some (example_frame ++ example_frame))
       = (ptype, pdata, Some example_frame).
Proof.
  apply (carvePacket_frame_then_rest example_frame example_frame 9);
    [vm_compute; reflexivity | lia | vm_compute; reflexivity
    | vm_compute; discriminate | vm_compute; reflexivity].
Defined.

End CarverExtras.

(** ** Flow state machine: what a delivery does to the state *)

Section FlowExtras.

Lemma formatItem_src cfg rs rs' pdata it :
  src rs = src rs' -> srcip rs = srcip rs' ->
  formatItem cfg rs pdata it = formatItem cfg rs' pdata it.
Proof. intros H1 H2. unfold formatItem. by rewrite H1, H2. Qed.

Lemma buildKey_src cfg rs rs' pdata items : forall text,
  src rs = src rs' -> srcip rs = srcip rs' ->
  buildKey cfg rs pdata items text = buildKey cfg rs' pdata items text.
Proof.
  induction items as [|it items IH]; intros text H1 H2; simpl; [done|].
  rewrite (formatItem_src cfg rs rs' pdata it H1 H2).
  destruct (formatItem cfg rs' pdata it); cbn; [by apply IH|done|done].
Qed.

(** [recordRequest] as one equation, given the key. *)
Lemma recordRequest_key cfg now g rs pdata plen key :
  buildKey cfg rs pdata (format cfg) [] = Ok key ->
  recordRequest cfg now g rs pdata plen
  = Ok (set_qbuf (count_query g) (<[key := counted g key plen]> (qbuf g)),
        set_query (set_reqSent rs (Some now)) key plen).
Proof.
  intros Hkey. unfold recordRequest.
  rewrite (buildKey_src cfg (set_reqSent rs (Some now)) rs)
    by (by destruct rs).
  rewrite Hkey. cbn [obind]. by destruct g.
Qed.

Lemma recordRequest_inv cfg now g rs pdata plen g' rs' :
  recordRequest cfg now g rs pdata plen = Ok (g', rs') ->
  exists key,
    buildKey cfg rs pdata (format cfg) [] = Ok key
    /\ g' = set_qbuf (count_query g) (<[key := counted g key plen]> (qbuf g))
    /\ rs' = set_query (set_reqSent rs (Some now)) key plen.
Proof.
  intros H.
  destruct (buildKey cfg rs pdata (format cfg) []) as [key| |] eqn:Hkey.
  - rewrite (recordRequest_key _ _ _ _ _ _ _ Hkey) in H.
    injection H as <- <-. eauto.
  - unfold recordRequest in H.
    rewrite (buildKey_src cfg (set_reqSent rs (Some now)) rs) in H
      by (by destruct rs).
    by rewrite Hkey in H.
  - unfold recordRequest in H.
    rewrite (buildKey_src cfg (set_reqSent rs (Some now)) rs) in H
      by (by destruct rs).
    by rewrite Hkey in H.
Qed.

(** A delivery on a synced flow, by direction and carve result. *)
Lemma processPacket_synced_incomplete cfg now randn g rs request data
    pdata buf :
  synced rs = true ->
  (request = true -> resbuffer rs = None) ->
  carvePacket data = (-1, pdata, buf) ->
  processPacket cfg now randn g rs request data
  = Ok (count_packet g true, with_buffer request buf rs).
Proof.
  intros Hs Hres Hc. unfold processPacket, receive, with_buffer.
  destruct rs as [s ip sy rq rsb sent rt qb qd qt]. simpl in Hs. subst sy.
  destruct request.
  - specialize (Hres eq_refl). simpl in Hres. subst rsb.
    cbn [resbuffer reqbuffer synced set_buffers]. rewrite Hc. by cbn.
  - cbn [resbuffer reqbuffer synced set_buffers]. rewrite Hc. by cbn.
Qed.

Lemma processPacket_synced_response cfg now randn g rs data ptype payload buf :
  synced rs = true ->
  carvePacket data = (ptype, Some payload, buf) ->
  ptype <> -1 ->
  processPacket cfg now randn g rs false data
  = Ok (recordResponse now randn (count_packet g true)
          (set_buffers rs (reqbuffer rs) buf)
          (u64 (Z.of_nat (length payload)))).
Proof.
  intros Hs Hc Hp. unfold processPacket, receive.
  destruct rs as [s ip sy rq rsb sent rt qb qd qt]. simpl in Hs. subst sy.
  cbn [resbuffer reqbuffer synced set_buffers]. rewrite Hc.
  cbn [synced set_buffers negb andb].
  destruct (Z.eqb_spec ptype (-1)); [done|]. by cbn.
Qed.

Lemma processPacket_synced_request cfg now randn g rs data ptype payload buf :
  synced rs = true ->
  resbuffer rs = None ->
  carvePacket data = (ptype, Some payload, buf) ->
  ptype <> -1 ->
  processPacket cfg now randn g rs true data
  = recordRequest cfg now (count_packet g true) (set_buffers rs buf None)
      payload (u64 (Z.of_nat (length payload))).
Proof.
  intros Hs Hres Hc Hp. unfold processPacket, receive.
  destruct rs as [s ip sy rq rsb sent rt qb qd qt].
  simpl in Hs, Hres. subst sy rsb.
  cbn [resbuffer reqbuffer synced set_buffers]. rewrite Hc.
  cbn [synced set_buffers negb andb].
  destruct (Z.eqb_spec ptype (-1)); [done|]. by cbn.
Qed.

(** Every way [processPacket] can return, as a case list: the
    delivery was dropped for lack of synchronisation, it carved
    nothing, it was a response frame, or it was a request frame. *)
Lemma processPacket_cases cfg now randn g rs request data g' rs' :
  processPacket cfg now randn g rs request data = Ok (g', rs') ->
  let '(g1, rs1, ptype, pdata) := receive g rs request data in
  (g' = g1 /\ rs' = set_buffers rs1 None None /\ synced rs1 = false)
  \/ (g' = g1 /\ rs' = rs1 /\ synced rs1 = true)
  \/ (request = false /\ synced rs' = true
      /\ (g', rs') = recordResponse now randn g1 (set_synced rs1 true)
                       (u64 (Z.of_nat (length (slice_bytes pdata)))))
  \/ (request = true /\ synced rs' = true
      /\ recordRequest cfg now g1 (set_synced rs1 true) (slice_bytes pdata)
           (u64 (Z.of_nat (length (slice_bytes pdata)))) = Ok (g', rs')).
Proof.
  unfold processPacket.
  destruct (receive g rs request data) as [[[g1 rs1] ptype] pdata].
  destruct (synced rs1) eqn:Hs; cbn [negb andb].
  - assert (set_synced rs1 true = rs1) as Hid
      by (destruct rs1; simpl in Hs; by subst).
    rewrite Hid.
    destruct (ptype =? -1).
    + intros [= <- <-]. right; left. done.
    + destruct request; cbn [negb].
      * intros H. do 3 right. split; [done|]. split; [|done].
        apply recordRequest_inv in H as (key & _ & _ & ->).
        by destruct rs1.
      * intros [= H]. right; right; left. split; [done|].
        split; [|done].
        pose proof (recordResponse_frame now randn g1 rs1
                      (u64 (Z.of_nat (length (slice_bytes pdata))))) as Hf.
        rewrite H in Hf. destruct Hf as [-> _]. done.
  - destruct (request && (ptype =? COM_QUERY)) eqn:Hq; cbn [negb].
    + apply andb_true_iff in Hq as [-> Hq]. apply Z.eqb_eq in Hq. subst ptype.
      change (COM_QUERY =? -1) with false. cbn [negb].
      intros H. do 3 right. split; [done|]. split; [|done].
      apply recordRequest_inv in H as (key & _ & _ & ->). done.
    + intros [= <- <-]. by left.
Qed.

End FlowExtras.

Section FlowExtraTheorems.

Lemma receive_frame g rs request data :
  let '(g1, rs1, _, _) := receive g rs request data in
  qbuf g1 = qbuf g /\ querycount g1 = querycount g /\ times g1 = times g
  /\ rcvd g1 = u64 (rcvd g + 1)
  /\ rcvd_sync g1 = (if synced rs then u64 (rcvd_sync g + 1) else rcvd_sync g)
  /\ streams g1 = streams g
  /\ desyncs g1 = (if request && bool_decide (is_Some (resbuffer rs))
                   then u64 (desyncs g + 1) else desyncs g)
  /\ qdata rs1 = qdata rs /\ reqTimes rs1 = reqTimes rs
  /\ reqSent rs1 = reqSent rs /\ src rs1 = src rs /\ srcip rs1 = srcip rs.
Proof.
  unfold receive.
  destruct request, rs as [s ip sy rq [rsb|] sent rt qb qd qt];
    cbn [resbuffer reqbuffer synced set_buffers set_synced];
    destruct (carvePacket _) as [[ptype pdata] buf]; by cbn.
Qed.

Lemma recordResponse_counters now randn g rs plen :
  let '(g', rs') := recordResponse now randn g rs plen in
  querycount g' = querycount g /\ rcvd g' = rcvd g
  /\ rcvd_sync g' = rcvd_sync g /\ streams g' = streams g
  /\ desyncs g' = desyncs g /\ qdata rs' = qdata rs
  /\ length (times g') = length (times g)
  /\ length (reqTimes rs') = length (reqTimes rs).
Proof.
  unfold recordResponse. destruct (reqSent rs); [|done].
  destruct rs as [? ? ? ? ? ? ? ? [k|] ?]; cbn; by rewrite !length_insert.
Qed.

Lemma processPacket_unsynced_nil (cfg : config) (now : Z) (randn : nat)
    (g : globals) (rs : source) (request : bool) (data : slice)
    (g' : globals) (rs' : source) :
  processPacket cfg now randn g rs request data = Ok (g', rs') ->
  synced rs' = false ->
  reqbuffer rs' = None /\ resbuffer rs' = None.
Proof.
  intros H Hs. apply processPacket_cases in H.
  destruct (receive g rs request data) as [[[g1 rs1] ptype] pdata].
  destruct H as [(_ & -> & _) | [H | [H | H]]]; [done| | |].
  - destruct H as (_ & -> & H). congruence.
  - destruct H as (_ & H & _). congruence.
  - destruct H as (_ & H & _). congruence.
Qed.

(** X4.  After any delivery, a flow that is not synced has both
    buffers [nil]: an unsynced flow holds no bytes. *)
Theorem unsynced_flow_holds_no_bytes (cfg : config) (now : Z) (randn : nat)
    (g : globals) (rs : source) (request : bool) (data : slice)
    (g' : globals) (rs' : source) :
  processPacket cfg now randn g rs request data = Ok (g', rs') ->
  synced rs' = false ->
  reqbuffer rs' = None /\ resbuffer rs' = None.
Proof. apply processPacket_unsynced_nil. Qed.

Lemma unsynced_flow_holds_no_bytes_witness :
  reqbuffer (set_buffers
               (newSource (bytes_of "10.0.0.7:51234") (bytes_of "10.0.0.7"))
               None None) = None
  /\ resbuffer (set_buffers
                  (newSource (bytes_of "10.0.0.7:51234") (bytes_of "10.0.0.7"))
                  None None) = None.
Proof.
  apply (unsynced_flow_holds_no_bytes example_config 10 0 example_globals
           (newSource (bytes_of "10.0.0.7:51234") (bytes_of "10.0.0.7"))
           false (Some example_frame)
           (count_packet example_globals false)
           (set_buffers
              (newSource (bytes_of "10.0.0.7:51234") (bytes_of "10.0.0.7"))
              None None));
    vm_compute; reflexivity.
Defined.

Lemma processPacket_counts (cfg : config) (now : Z) (randn : nat)
    (g : globals) (rs : source) (request : bool) (data : slice)
    (g' : globals) (rs' : source) :
  processPacket cfg now randn g rs request data = Ok (g', rs') ->
  rcvd g' = u64 (rcvd g + 1)
  /\ rcvd_sync g' = (if synced rs then u64 (rcvd_sync g + 1) else rcvd_sync g)
  /\ desyncs g' = (if request && bool_decide (is_Some (resbuffer rs))
                   then u64 (desyncs g + 1) else desyncs g)
  /\ streams g' = streams g.
Proof.
  intros H. apply processPacket_cases in H.
  pose proof (receive_frame g rs request data) as Hf.
  destruct (receive g rs request data) as [[[g1 rs1] ptype] pdata].
  destruct Hf as (_ & _ & _ & Hr & Hrs & Hst & Hde & _).
  destruct H as [(-> & _) | [(-> & _) | [(_ & _ & H) | (_ & _ & H)]]];
    [done|done| |].
  - pose proof (recordResponse_counters now randn g1 (set_synced rs1 true)
                  (u64 (Z.of_nat (length (slice_bytes pdata))))) as Hc.
    rewrite <- H in Hc. destruct Hc as (_ & -> & -> & -> & -> & _). done.
  - apply recordRequest_inv in H as (key & _ & -> & _). done.
Qed.

(** X5.  Every delivery that returns adds one to the packet counter,
    adds one to the synced-packet counter exactly when the flow was
    synced on entry, adds one to the desync counter exactly when it is
    a request and the response buffer was not [nil], and leaves the
    flow counter alone (all modulo [2^64]). *)
Theorem processPacket_counters (cfg : config) (now : Z) (randn : nat)
    (g : globals) (rs : source) (request : bool) (data : slice)
    (g' : globals) (rs' : source) :
  processPacket cfg now randn g rs request data = Ok (g', rs') ->
  rcvd g' = u64 (rcvd g + 1)
  /\ rcvd_sync g' = (if synced rs then u64 (rcvd_sync g + 1) else rcvd_sync g)
  /\ desyncs g' = (if request && bool_decide (is_Some (resbuffer rs))
                   then u64 (desyncs g + 1) else desyncs g)
  /\ streams g' = streams g.
Proof. apply processPacket_counts. Qed.

Lemma processPacket_counters_witness :
  exists g' rs',
    processPacket example_config 10 0 example_globals
      (set_buffers example_synced_flow None (Some (bytes_of "x")))
      true (Some example_frame) = Ok (g', rs')
    /\ rcvd g' = 1 /\ rcvd_sync g' = 1 /\ desyncs g' = 1 /\ streams g' = 0.
Proof.
  destruct (processPacket example_config 10 0 example_globals
              (set_buffers example_synced_flow None (Some (bytes_of "x")))
              true (Some example_frame)) as [[g' rs']| |] eqn:E;
    [|vm_compute in E; discriminate..].
  exists g', rs'. split; [reflexivity|].
  exact (processPacket_counters _ _ _ _ _ _ _ _ _ E).
Defined.

(** X6.  A response delivered to a synced flow that has no request
    outstanding ([reqSent] is [nil]) is ignored: apart from the two
    packet counters and the response buffer, which holds what
    [carvePacket] left of the delivery, nothing changes; no latency is
    recorded and no aggregate is touched. *)
Theorem orphan_response_is_ignored (cfg : config) (now : Z) (randn : nat)
    (g : globals) (rs : source) (data : slice) :
  synced rs = true ->
  reqSent rs = None ->
  processPacket cfg now randn g rs false data
  = Ok (count_packet g true,
        set_buffers rs (reqbuffer rs) (carvePacket data).2).
Proof.
  intros Hs Hsent. unfold processPacket, receive.
  destruct rs as [s ip sy rq rsb sent rt qb qd qt].
  simpl in Hs, Hsent. subst sy sent.
  cbn [resbuffer reqbuffer synced set_buffers].
  destruct (carvePacket data) as [[ptype pdata] buf].
  cbn [synced set_buffers negb andb snd].
  destruct (ptype =? -1); [done|]. by cbn.
Qed.

Lemma orphan_response_is_ignored_witness :
  processPacket example_config 10 0 example_globals example_synced_flow
    false (Some example_frame)
  = Ok (count_packet example_globals true,
        set_buffers example_synced_flow (reqbuffer example_synced_flow)
          (carvePacket (Some example_frame)).2).
Proof.
  apply (orphan_response_is_ignored example_config 10 0 example_globals
           example_synced_flow (Some example_frame)); reflexivity.
Defined.

End FlowExtraTheorems.

Section FlowAccounting.

(** What [recordResponse] stores when a request is outstanding. *)
Lemma recordResponse_sent now randn g rs plen sent :
  reqSent rs = Some sent ->
  recordResponse now randn g rs plen
  = (match qdata rs with
     | Some key =>
         set_qbuf (set_times g (<[randn := u64 (now - sent)]> (times g)))
           (alter (fun qd => timed qd randn (u64 (now - sent)) plen)
              key (qbuf g))
     | None => set_times g (<[randn := u64 (now - sent)]> (times g))
     end,
     set_reqSent (set_reqTimes rs (<[randn := u64 (now - sent)]> (reqTimes rs)))
       None).
Proof.
  intros Hsent. unfold recordResponse. rewrite Hsent.
  by destruct rs as [? ? ? ? ? ? ? ? [k|] ?].
Qed.

(** X7.  A response frame carved on a synced flow with a request
    outstanding: the time since the request, as a [uint64], is written
    to slot [randn] of the flow's and of the global sample array, the
    other slots keep their values, the outstanding request is cleared,
    and the aggregate the flow points at gets the same sample in the
    same slot and the payload length added to its byte total, its
    count unchanged; no other aggregate changes. *)
Theorem response_records_latency (cfg : config) (now : Z) (randn : nat)
    (g : globals) (rs : source) (data : slice)
    (ptype : Z) (payload : bytes) (buf : slice) (sent : Z) :
  synced rs = true ->
  reqSent rs = Some sent ->
  carvePacket data = (ptype, Some payload, buf) ->
  ptype <> -1 ->
  (randn < 100)%nat ->
  arrays_ok g rs ->
  exists g' rs',
    processPacket cfg now randn g rs false data = Ok (g', rs')
    /\ reqSent rs' = None
    /\ reqTimes rs' !! randn = Some (u64 (now - sent))
    /\ times g' !! randn = Some (u64 (now - sent))
    /\ (forall j, j <> randn ->
          reqTimes rs' !! j = reqTimes rs !! j
          /\ times g' !! j = times g !! j)
    /\ querycount g' = querycount g
    /\ (forall key qd, qdata rs = Some key -> qbuf g !! key = Some qd ->
          qbuf g' !! key
          = Some (timed qd randn (u64 (now - sent))
                    (u64 (Z.of_nat (length payload)))))
    /\ (forall key, qdata rs <> Some key -> qbuf g' !! key = qbuf g !! key).
Proof.
  intros Hs Hsent Hc Hp Hr (Ht & Hrt & _).
  rewrite (processPacket_synced_response _ _ _ _ _ _ _ _ _ Hs Hc Hp).
  rewrite (recordResponse_sent _ _ _ _ _ sent)
    by (by destruct rs).
  eexists _, _. split; [reflexivity|].
  destruct rs as [s ip sy rq rsb snt rt qb qd qt].
  destruct g as [m qc ts r rsn de st].
  cbn [reqSent reqTimes times qdata qbuf querycount set_buffers set_reqSent
       set_reqTimes set_times set_qbuf count_packet reqbuffer] in *.
  split; [done|].
  split; [by apply list_lookup_insert_eq; lia|].
  split; [destruct qd; cbn; apply list_lookup_insert_eq; lia|].
  split.
  { intros j Hj. split; [by apply list_lookup_insert_ne|].
    destruct qd; cbn; by apply list_lookup_insert_ne. }
  split; [by destruct qd|].
  split.
  - intros key q -> Hq. cbn. by rewrite lookup_alter_eq, Hq.
  - intros key Hne. destruct qd as [k|]; cbn; [|done].
    apply lookup_alter_ne. congruence.
Qed.

Lemma response_records_latency_witness :
  exists g' rs',
    processPacket example_config 1500 7 example_globals
      (set_reqSent example_synced_flow (Some 1000))
      false (Some example_frame) = Ok (g', rs')
    /\ reqSent rs' = None
    /\ reqTimes rs' !! 7%nat = Some (u64 (1500 - 1000))
    /\ times g' !! 7%nat = Some (u64 (1500 - 1000)).
Proof.
  destruct (response_records_latency example_config 1500 7 example_globals
              (set_reqSent example_synced_flow (Some 1000))
              (Some example_frame) COM_QUERY (bytes_of "SELECT 1") None 1000)
    as (g' & rs' & H1 & H2 & H3 & H4 & _);
    [reflexivity | reflexivity | vm_compute; reflexivity
    | vm_compute; discriminate | lia | |].
  - repeat split; try reflexivity. apply map_Forall_empty.
  - exists g', rs'. repeat split; assumption.
Defined.

(** X8.  A complete request frame on a synced flow whose response
    buffer is [nil] is counted as a query whatever its command type:
    the request time is set, [querycount] goes up by one, the key
    built from the payload is stored on the flow together with the
    payload length, and the aggregate of that key, created with zeros
    if it is new, gets its count increased by one and the payload
    length added to its byte total.  No other aggregate changes. *)
Theorem request_is_counted (cfg : config) (now : Z) (randn : nat)
    (g : globals) (rs : source) (data : slice)
    (ptype : Z) (payload : bytes) (buf : slice) :
  Forall valid_item (format cfg) ->
  synced rs = true ->
  resbuffer rs = None ->
  carvePacket data = (ptype, Some payload, buf) ->
  ptype <> -1 ->
  exists key g' rs',
    buildKey cfg rs payload (format cfg) [] = Ok key
    /\ processPacket cfg now randn g rs true data = Ok (g', rs')
    /\ synced rs' = true
    /\ reqbuffer rs' = buf
    /\ reqSent rs' = Some now
    /\ qtext rs' = key /\ qdata rs' = Some key
    /\ qbytes rs' = u64 (Z.of_nat (length payload))
    /\ querycount g' = i64 (querycount g + 1)
    /\ qbuf g' !! key = Some (counted g key (u64 (Z.of_nat (length payload))))
    /\ (forall k, k <> key -> qbuf g' !! k = qbuf g !! k).
Proof.
  intros Hfmt Hs Hres Hc Hp.
  destruct (buildKey_ok cfg rs payload _ Hfmt []) as [key Hkey].
  rewrite (processPacket_synced_request _ _ _ _ _ _ _ _ _ Hs Hres Hc Hp).
  rewrite (recordRequest_key _ _ _ _ _ _ key).
  2:{ rewrite <- Hkey. apply buildKey_src; by destruct rs. }
  eexists key, _, _. split; [done|]. split; [reflexivity|].
  destruct rs as [s ip sy rq rsb snt rt qb qd qt].
  destruct g as [m qc ts r rsn de st].
  simpl in Hs. subst sy. cbn.
  repeat split.
  - apply lookup_insert_eq.
  - intros k Hk. by apply lookup_insert_ne.
Qed.

Lemma request_is_counted_witness :
  exists key g' rs',
    buildKey example_config example_synced_flow (bytes_of "SELECT 1")
      (format example_config) [] = Ok key
    /\ processPacket example_config 10 0 example_globals example_synced_flow
         true (Some example_frame) = Ok (g', rs')
    /\ qtext rs' = key
    /\ querycount g' = i64 (querycount example_globals + 1)
    /\ qbuf g' !! key
       = Some (counted example_globals key
                 (u64 (Z.of_nat (length (bytes_of "SELECT 1"))))).
Proof.
  destruct (request_is_counted example_config 10 0 example_globals
              example_synced_flow (Some example_frame)
              COM_QUERY (bytes_of "SELECT 1") None)
    as (key & g' & rs' & H1 & H2 & _ & _ & _ & H3 & _ & _ & H4 & H5 & _);
    [repeat constructor | reflexivity | reflexivity
    | vm_compute; reflexivity | vm_compute; discriminate |].
  exists key, g', rs'. repeat split; assumption.
Defined.

End FlowAccounting.

Section FlowInvariants.

Lemma processPacket_qbuf_grows (cfg : config) (now : Z) (randn : nat)
    (g : globals) (rs : source) (request : bool) (data : slice)
    (g' : globals) (rs' : source) :
  processPacket cfg now randn g rs request data = Ok (g', rs') ->
  (forall key, is_Some (qbuf g !! key) -> is_Some (qbuf g' !! key))
  /\ (qdata_ok g rs -> qdata_ok g' rs').
Proof.
  intros H. apply processPacket_cases in H.
  pose proof (receive_frame g rs request data) as Hf.
  destruct (receive g rs request data) as [[[g1 rs1] ptype] pdata].
  destruct Hf as (Hq & _ & _ & _ & _ & _ & _ & Hqd & _).
  unfold qdata_ok.
  destruct H as [(-> & -> & _) | [(-> & H) | [(_ & _ & H) | (_ & _ & H)]]].
  - rewrite Hq. split; [done|]. intros Hok key.
    destruct rs1; cbn in *. rewrite Hqd. apply Hok.
  - destruct H as (-> & _). rewrite Hq, Hqd. done.
  - unfold recordResponse in H.
    destruct (reqSent (set_synced rs1 true)) as [sent|].
    + assert (Hq1 : qdata (set_synced rs1 true) = qdata rs)
        by (by destruct rs1).
      destruct (qdata (set_reqTimes (set_synced rs1 true) _)) as [k|] eqn:Ek;
        injection H as -> ->.
      * assert (qdata rs = Some k) as Hk by (destruct rs1; cbn in *; congruence).
        cbn. rewrite Hq. split.
        -- intros key Hkey. by apply lookup_alter_is_Some.
        -- intros Hok key. destruct rs1; cbn in *. rewrite Hqd.
           intros Hkey. apply lookup_alter_is_Some. by apply Hok.
      * cbn. rewrite Hq. split; [done|].
        intros Hok key. destruct rs1; cbn in *. rewrite Hqd. apply Hok.
    + injection H as -> ->. rewrite Hq. split; [done|].
      intros Hok key. destruct rs1; cbn in *. rewrite Hqd. apply Hok.
  - apply recordRequest_inv in H as (key & _ & -> & ->).
    destruct g1; cbn in *. subst. split.
    + intros k Hk. apply lookup_insert_is_Some'. by right.
    + intros _ k [= <-]. apply lookup_insert_is_Some'. by left.
Qed.

(** X9.  [processPacket] never removes an aggregate, and it keeps the
    flow's [*queryData] pointing at an aggregate of [qbuf]; since no
    aggregate is removed, the pointers of all other flows stay valid
    as well. *)
Theorem processPacket_keeps_aggregates (cfg : config) (now : Z) (randn : nat)
    (g : globals) (rs : source) (request : bool) (data : slice)
    (g' : globals) (rs' : source) :
  processPacket cfg now randn g rs request data = Ok (g', rs') ->
  (forall key, is_Some (qbuf g !! key) -> is_Some (qbuf g' !! key))
  /\ (qdata_ok g rs -> qdata_ok g' rs').
Proof. apply processPacket_qbuf_grows. Qed.

Lemma processPacket_keeps_aggregates_witness :
  exists g' rs',
    processPacket example_config 10 0 example_globals example_synced_flow
      true (Some example_frame) = Ok (g', rs')
    /\ qdata_ok g' rs'.
Proof.
  destruct (processPacket example_config 10 0 example_globals
              example_synced_flow true (Some example_frame))
    as [[g' rs']| |] eqn:E; [|vm_compute in E; discriminate..].
  exists g', rs'. split; [reflexivity|].
  apply (processPacket_keeps_aggregates _ _ _ _ _ _ _ _ _ E).
  intros key Hkey. discriminate Hkey.
Defined.

Lemma processPacket_arrays (cfg : config) (now : Z) (randn : nat)
    (g : globals) (rs : source) (request : bool) (data : slice)
    (g' : globals) (rs' : source) :
  processPacket cfg now randn g rs request data = Ok (g', rs') ->
  arrays_ok g rs ->
  arrays_ok g' rs'.
Proof.
  intros H (Ht & Hrt & Hall). apply processPacket_cases in H.
  pose proof (receive_frame g rs request data) as Hf.
  destruct (receive g rs request data) as [[[g1 rs1] ptype] pdata].
  destruct Hf as (Hq & _ & Hts & _ & _ & _ & _ & _ & Hrts & _).
  unfold arrays_ok.
  destruct H as [(-> & -> & _) | [(-> & H) | [(_ & _ & H) | (_ & _ & H)]]].
  - rewrite Hq, Hts. destruct rs1; cbn in *. by rewrite Hrts.
  - destruct H as (-> & _). by rewrite Hq, Hts, Hrts.
  - unfold recordResponse in H.
    destruct (reqSent (set_synced rs1 true)) as [sent|].
    + destruct (qdata (set_reqTimes (set_synced rs1 true) _)) as [k|];
        injection H as -> ->; destruct rs1, g1; cbn in *; subst;
        rewrite !length_insert; repeat split; try done.
      intros key qd Hqd. cbn.
      apply lookup_alter_Some in Hqd as [(-> & qd0 & Hqd0 & ->) | (_ & Hqd)].
      * cbn. rewrite length_insert. by apply (Hall _ _ Hqd0).
      * by apply (Hall _ _ Hqd).
    + injection H as -> ->. destruct rs1; cbn in *. by rewrite Hq, Hts, Hrts.
  - apply recordRequest_inv in H as (key & _ & -> & ->).
    destruct rs1, g1; cbn in *; subst. repeat split; try done.
    apply map_Forall_insert_2; [|done]. unfold counted. cbn.
    destruct (qbuf g !! key) as [qd|] eqn:Hqd; cbn.
    + by apply (Hall _ _ Hqd).
    + reflexivity.
Qed.

(** X10.  Memory stays bounded: if the global sample array, the flow's
    sample array and the sample array of every aggregate have 100
    slots before a delivery, they have 100 slots after it, including
    the array of an aggregate the delivery creates. *)
Theorem processPacket_keeps_100_slots (cfg : config) (now : Z) (randn : nat)
    (g : globals) (rs : source) (request : bool) (data : slice)
    (g' : globals) (rs' : source) :
  processPacket cfg now randn g rs request data = Ok (g', rs') ->
  arrays_ok g rs ->
  arrays_ok g' rs'.
Proof. apply processPacket_arrays. Qed.

Lemma processPacket_keeps_100_slots_witness :
  exists g' rs',
    processPacket example_config 10 0 example_globals example_synced_flow
      true (Some example_frame) = Ok (g', rs')
    /\ arrays_ok g' rs'.
Proof.
  destruct (processPacket example_config 10 0 example_globals
              example_synced_flow true (Some example_frame))
    as [[g' rs']| |] eqn:E; [|vm_compute in E; discriminate..].
  exists g', rs'. split; [reflexivity|].
  apply (processPacket_keeps_100_slots _ _ _ _ _ _ _ _ _ E).
  repeat split; try reflexivity. apply map_Forall_empty.
Defined.

End FlowInvariants.

Section FlowScenarios.

Lemma processPacket_response_synced cfg now randn g rs data :
  synced rs = true ->
  exists g1 rs1,
    processPacket cfg now randn g rs false data = Ok (g1, rs1)
    /\ resbuffer rs1 = (carvePacket data).2
    /\ synced rs1 = true
    /\ desyncs g1 = desyncs g.
Proof.
  intros Hs. unfold processPacket, receive.
  destruct rs as [s ip sy rq rsb sent rt qb qd qt]. simpl in Hs. subst sy.
  cbn [resbuffer reqbuffer synced set_buffers].
  destruct (carvePacket data) as [[ptype pdata] buf].
  cbn [synced set_buffers negb andb snd].
  destruct (ptype =? -1); [by eexists _, _|]. cbn [negb].
  match goal with
  | |- context [recordResponse ?n ?r ?g ?s ?l] =>
      pose proof (recordResponse_frame n r g s l) as Hf;
      destruct (recordResponse n r g s l) as [g1 rs1]
  end.
  destruct Hf as (? & _ & ? & ?). by eexists _, _.
Qed.

Lemma processPacket_request_leftover cfg now randn g rs data left :
  Forall valid_item (format cfg) ->
  resbuffer rs = Some left ->
  exists g' rs',
    processPacket cfg now randn g rs true data = Ok (g', rs')
    /\ desyncs g' = u64 (desyncs g + 1)
    /\ resbuffer rs' = None
    /\ synced rs' = ((carvePacket data).1.1 =? COM_QUERY).
Proof.
  intros Hfmt Hres. unfold processPacket, receive.
  destruct rs as [s ip sy rq rsb sent rt qb qd qt]. simpl in Hres. subst rsb.
  cbn [resbuffer reqbuffer synced set_buffers set_synced].
  destruct (carvePacket data) as [[ptype pdata] buf].
  cbn [synced set_buffers negb andb fst snd].
  destruct (Z.eqb_spec ptype COM_QUERY) as [->|Hne]; cbn [negb].
  - change (COM_QUERY =? -1) with false. cbn [negb].
    match goal with
    | |- context [recordRequest ?c ?n ?g ?r ?p ?l] =>
        destruct (recordRequest_ok c n g r p l Hfmt)
          as (g' & rs' & -> & Hs' & _ & Hr' & Hd')
    end.
    by eexists _, _.
  - by eexists _, _.
Qed.

(** X11.  A response delivery that is not exactly one frame (an
    incomplete frame, or a frame followed by more bytes) leaves bytes
    in the response buffer of a synced flow, and the next request on
    that flow is then taken for a desynchronisation: the desync
    counter goes up by one, the response buffer is cleared, and the
    flow is synced afterwards only if that request carves to a
    [COM_QUERY] frame. *)
Theorem partial_response_desyncs_next_request (cfg : config)
    (now1 now2 : Z) (randn1 randn2 : nat) (g : globals) (rs : source)
    (response request : slice) (left : bytes) :
  Forall valid_item (format cfg) ->
  synced rs = true ->
  (carvePacket response).2 = Some left ->
  exists g1 rs1 g2 rs2,
    processPacket cfg now1 randn1 g rs false response = Ok (g1, rs1)
    /\ resbuffer rs1 = Some left
    /\ processPacket cfg now2 randn2 g1 rs1 true request = Ok (g2, rs2)
    /\ desyncs g2 = u64 (desyncs g + 1)
    /\ resbuffer rs2 = None
    /\ synced rs2 = ((carvePacket request).1.1 =? COM_QUERY).
Proof.
  intros Hfmt Hs Hleft.
  destruct (processPacket_response_synced cfg now1 randn1 g rs response Hs)
    as (g1 & rs1 & H1 & Hres & _ & Hde).
  rewrite Hleft in Hres.
  destruct (processPacket_request_leftover cfg now2 randn2 g1 rs1 request
              left Hfmt Hres) as (g2 & rs2 & H2 & Hde2 & Hres2 & Hs2).
  exists g1, rs1, g2, rs2. rewrite <- Hde. done.
Qed.

Lemma partial_response_desyncs_next_request_witness :
  exists g1 rs1 g2 rs2,
    processPacket example_config 10 0 example_globals example_synced_flow
      false (Some (take 9 example_frame)) = Ok (g1, rs1)
    /\ resbuffer rs1 = Some (take 9 example_frame)
    /\ processPacket example_config 20 0 g1 rs1 true (Some example_frame)
       = Ok (g2, rs2)
    /\ desyncs g2 = u64 (desyncs example_globals + 1)
    /\ resbuffer rs2 = None
    /\ synced rs2 = ((carvePacket (Some example_frame)).1.1 =? COM_QUERY).
Proof.
  apply (partial_response_desyncs_next_request example_config 10 20 0 0
           example_globals example_synced_flow
           (Some (take 9 example_frame)) (Some example_frame)
           (take 9 example_frame));
    [repeat constructor | reflexivity | vm_compute; reflexivity].
Defined.

(** X12.  A request frame at time [t1] followed by a response frame
    at time [t2] on a synced flow: the sample [t2 - t1] (as a
    [uint64]) lands in slot [randn] of the flow's and of the global
    sample array, and the aggregate of the request's key has been
    counted once, has that sample in slot [randn], and has both
    payload lengths added to its byte total.  The desync counter does
    not move and no request is outstanding afterwards. *)
Theorem request_response_round_trip (cfg : config) (t1 t2 : Z)
    (randn1 randn : nat) (g : globals) (rs : source)
    (request response : slice) (p1 p2 : Z) (pay1 pay2 : bytes)
    (buf1 buf2 : slice) :
  Forall valid_item (format cfg) ->
  synced rs = true ->
  resbuffer rs = None ->
  carvePacket request = (p1, Some pay1, buf1) -> p1 <> -1 ->
  carvePacket response = (p2, Some pay2, buf2) -> p2 <> -1 ->
  (randn < 100)%nat ->
  arrays_ok g rs ->
  exists key g1 rs1 g2 rs2,
    buildKey cfg rs pay1 (format cfg) [] = Ok key
    /\ processPacket cfg t1 randn1 g rs true request = Ok (g1, rs1)
    /\ processPacket cfg t2 randn g1 rs1 false response = Ok (g2, rs2)
    /\ qtext rs2 = key
    /\ reqSent rs2 = None
    /\ reqTimes rs2 !! randn = Some (u64 (t2 - t1))
    /\ times g2 !! randn = Some (u64 (t2 - t1))
    /\ qbuf g2 !! key
       = Some (timed (counted g key (u64 (Z.of_nat (length pay1))))
                 randn (u64 (t2 - t1)) (u64 (Z.of_nat (length pay2))))
    /\ desyncs g2 = desyncs g.
Proof.
  intros Hfmt Hs Hres Hc1 Hp1 Hc2 Hp2 Hr (Ht & Hrt & Hall).
  destruct (buildKey_ok cfg rs pay1 _ Hfmt []) as [key Hkey].
  exists key.
  rewrite (processPacket_synced_request _ _ _ _ _ _ _ _ _ Hs Hres Hc1 Hp1).
  rewrite (recordRequest_key _ _ _ _ _ _ key).
  2:{ rewrite <- Hkey. apply buildKey_src; by destruct rs. }
  eexists _, _, _, _. split; [done|]. split; [reflexivity|].
  match goal with
  | |- context [processPacket _ _ _ ?g1 ?r1 false _] =>
      assert (Hs1 : synced r1 = true) by (by destruct rs);
      assert (Hsent1 : reqSent r1 = Some t1) by (by destruct rs);
      rewrite (processPacket_synced_response cfg t2 randn g1 r1 _ _ _ _
                 Hs1 Hc2 Hp2)
  end.
  rewrite (recordResponse_sent _ _ _ _ _ t1) by (by destruct rs).
  split; [reflexivity|].
  destruct rs as [s ip sy rq rsb snt rt qb qd qt].
  destruct g as [m qc ts r rsn de st].
  cbn in *. subst.
  split; [done|]. split; [done|].
  split; [apply list_lookup_insert_eq; lia|].
  split; [apply list_lookup_insert_eq; lia|].
  split; [|done].
  by rewrite lookup_alter_eq, lookup_insert_eq.
Qed.

Lemma request_response_round_trip_witness :
  exists key g1 rs1 g2 rs2,
    buildKey example_config example_synced_flow (bytes_of "SELECT 1")
      (format example_config) [] = Ok key
    /\ processPacket example_config 1000 0 example_globals
         example_synced_flow true (Some example_frame) = Ok (g1, rs1)
    /\ processPacket example_config 1500 7 g1 rs1 false (Some example_frame)
       = Ok (g2, rs2)
    /\ qtext rs2 = key
    /\ reqSent rs2 = None
    /\ reqTimes rs2 !! 7%nat = Some (u64 (1500 - 1000))
    /\ times g2 !! 7%nat = Some (u64 (1500 - 1000))
    /\ qbuf g2 !! key
       = Some (timed (counted example_globals key
                        (u64 (Z.of_nat (length (bytes_of "SELECT 1")))))
                 7 (u64 (1500 - 1000))
                 (u64 (Z.of_nat (length (bytes_of "SELECT 1")))))
    /\ desyncs g2 = desyncs example_globals.
Proof.
  apply (request_response_round_trip example_config 1000 1500 0 7
           example_globals example_synced_flow
           (Some example_frame) (Some example_frame)
           COM_QUERY COM_QUERY (bytes_of "SELECT 1") (bytes_of "SELECT 1")
           None None);
    [repeat constructor | reflexivity | reflexivity
    | vm_compute; reflexivity | vm_compute; discriminate
    | vm_compute; reflexivity | vm_compute; discriminate | lia |].
  repeat split; try reflexivity. apply map_Forall_empty.
Defined.

End FlowScenarios.

(** ** Tokenizer: the extent of each kind of token *)

Section TokenizerExtras.

Lemma scan_number_eq rest : forall i n,
  n = (i + length rest)%nat ->
  scan_number rest i n = ((i + prefix_len is_digit rest)%nat, TOKEN_NUMBER).
Proof.
  induction rest as [|c rest IH]; intros i n Hn; simpl in *.
  - f_equal. lia.
  - destruct (is_digit c); [rewrite (IH (S i) n) by lia|]; f_equal; lia.
Qed.

Lemma scan_quote_no_quote rest : forall i escaped n,
  n = (i + length rest)%nat ->
  Forall (fun b => is_quote b = false) rest ->
  scan_quote rest i escaped n = (n, TOKEN_QUOTE).
Proof.
  induction rest as [|c rest IH]; intros i escaped n Hn Hq; simpl in *; [done|].
  inversion Hq as [|? ? Hc Hrest]; subst. unfold is_quote in Hc. rewrite Hc.
  destruct (byte_val c =? 92); apply IH; (lia || done).
Qed.

Lemma scan_quote_closing body : forall i n q2 rest',
  Forall (fun b => is_quote b = false /\ byte_val b <> 92) body ->
  is_quote q2 = true ->
  scan_quote (body ++ q2 :: rest') i false n
  = ((i + length body)%nat, TOKEN_QUOTE).
Proof.
  induction body as [|c body IH]; intros i n q2 rest' Hb Hq; simpl.
  - unfold is_quote in Hq. rewrite Hq. f_equal. lia.
  - inversion Hb as [|? ? [Hc H92] Hrest]; subst.
    unfold is_quote in Hc. rewrite Hc.
    destruct (Z.eqb_spec (byte_val c) 92); [done|].
    rewrite IH by done. f_equal. lia.
Qed.

(** X13.  A token that starts with a digit is the longest run of
    digits, and a token that starts with a whitespace byte is the
    longest run of whitespace bytes: every byte of the token is of
    the class and the byte after the token, if any, is not. *)
Theorem scanToken_maximal_runs (c : byte) (rest : bytes) (p : byte -> bool)
    (ty : Z) :
  (p = is_digit /\ ty = TOKEN_NUMBER) \/ (p = is_space /\ ty = TOKEN_WHITESPACE) ->
  p c = true ->
  exists n,
    scanToken (c :: rest) = Ok (n, ty)
    /\ n = S (prefix_len p rest)
    /\ Forall (fun b => p b = true) (take n (c :: rest))
    /\ (forall b, (c :: rest) !! n = Some b -> p b = false).
Proof.
  intros Hcls Hc. exists (S (prefix_len p rest)).
  split.
  - unfold scanToken.
    destruct Hcls as [[-> ->] | [-> ->]].
    + rewrite (digit_not_quote _ Hc), Hc.
      by rewrite (scan_number_eq rest 1 (length (c :: rest))).
    + rewrite (space_not_quote _ Hc).
      destruct (is_digit c) eqn:Ed; [by rewrite (digit_not_space _ Ed) in Hc|].
      rewrite Hc. by rewrite (scan_whitespace_eq rest 1 (length (c :: rest))).
  - split; [done|]. split.
    + simpl. constructor; [done | apply prefix_len_take].
    + intros b Hb. simpl in Hb.
      pose proof (prefix_len_drop p rest) as Hd.
      rewrite <- (Nat.add_0_r (prefix_len p rest)), <- lookup_drop in Hb.
      destruct (drop (prefix_len p rest) rest); [done|].
      simpl in Hb. by injection Hb as <-.
Qed.

Lemma scanToken_maximal_runs_witness :
  exists n,
    scanToken (bytes_of "4217 AND") = Ok (n, TOKEN_NUMBER)
    /\ n = S (prefix_len is_digit (bytes_of "217 AND"))
    /\ Forall (fun b => is_digit b = true) (take n (bytes_of "4217 AND"))
    /\ (forall b, bytes_of "4217 AND" !! n = Some b -> is_digit b = false).
Proof.
  apply (scanToken_maximal_runs "4"%byte (bytes_of "217 AND") is_digit
           TOKEN_NUMBER); [by left | reflexivity].
Defined.

Lemma quote_not_backslash (c : byte) :
  is_quote c = true -> (byte_val c =? 92) = false.
Proof. byte_class. Qed.

(** The quote loop from any index [i], with [prev] the byte before
    [rest]: [escaped] is true exactly when [prev] is a backslash. *)
Lemma scan_quote_extent rest : forall (prev : byte) (i n : nat),
  n = (i + length rest)%nat ->
  exists k,
    scan_quote rest i (byte_val prev =? 92) n = ((i + k)%nat, TOKEN_QUOTE)
    /\ (k <= length rest)%nat
    /\ (forall j b, (j < k)%nat -> rest !! j = Some b -> is_quote b = true ->
          exists p, (prev :: rest) !! j = Some p /\ byte_val p = 92)
    /\ ((k < length rest)%nat ->
          exists b p, rest !! k = Some b /\ is_quote b = true
            /\ (prev :: rest) !! k = Some p /\ byte_val p <> 92).
Proof.
  induction rest as [|c rest IH]; intros prev i n Hn.
  - exists 0%nat. simpl in *. split; [f_equal; lia|].
    split; [lia|]. split; [intros; lia | lia].
  - cbn [scan_quote]. fold (is_quote c).
    destruct (is_quote c) eqn:Hq.
    + destruct (Z.eqb_spec (byte_val prev) 92) as [Hp|Hp].
      * destruct (IH c (S i) n) as (k & Hk & Hle & Hin & Hend);
          [simpl in Hn; lia|].
        rewrite (quote_not_backslash c Hq) in Hk.
        exists (S k). split; [rewrite Hk; f_equal; lia|].
        split; [simpl; lia|]. split.
        -- intros [|j] b Hj Hb Hqb.
           ++ exists prev. by split.
           ++ apply (Hin j b); [lia | done | done].
        -- intros Hlt. apply Hend. simpl in Hlt. lia.
      * exists 0%nat. split; [f_equal; lia|]. split; [simpl; lia|].
        split; [intros; lia|]. intros _. exists c, prev. by repeat split.
    + assert (Hrec : (if byte_val c =? 92 then scan_quote rest (S i) true n
                      else scan_quote rest (S i) false n)
                     = scan_quote rest (S i) (byte_val c =? 92) n)
        by (by destruct (byte_val c =? 92)).
      rewrite Hrec.
      destruct (IH c (S i) n) as (k & Hk & Hle & Hin & Hend);
        [simpl in Hn; lia|].
      exists (S k). split; [rewrite Hk; f_equal; lia|].
      split; [simpl; lia|]. split.
      * intros [|j] b Hj Hb Hqb.
        -- simpl in Hb. injection Hb as <-. congruence.
        -- apply (Hin j b); [lia | done | done].
      * intros Hlt. apply Hend. simpl in Hlt. lia.
Qed.

(** X18.  On an input that starts with a quote byte [scanToken] always
    returns [TOKEN_QUOTE], and the token ends at the first later quote
    byte, of either kind, that does not come right after a backslash:
    every quote byte inside the token follows a backslash, and the
    token is the whole input when there is no such closing byte (an
    unterminated literal swallows the rest of the query).  The length
    is the index of the closing byte, which is left to the next token.
    In particular the token is the whole input when no quote byte
    follows, and when the bytes after the opening quote are free of
    quotes and backslashes up to a quote byte it stops at that byte. *)
Theorem scanToken_quoted_extent (c : byte) (rest : bytes) :
  is_quote c = true ->
  (exists n,
     scanToken (c :: rest) = Ok (n, TOKEN_QUOTE)
     /\ (1 <= n <= S (length rest))%nat
     /\ (forall i b, (1 <= i < n)%nat -> (c :: rest) !! i = Some b ->
           is_quote b = true ->
           exists p, (c :: rest) !! (i - 1)%nat = Some p /\ byte_val p = 92)
     /\ ((n < S (length rest))%nat ->
           exists b p, (c :: rest) !! n = Some b /\ is_quote b = true
             /\ (c :: rest) !! (n - 1)%nat = Some p /\ byte_val p <> 92))
  /\ (Forall (fun b => is_quote b = false) rest ->
      scanToken (c :: rest) = Ok (S (length rest), TOKEN_QUOTE))
  /\ (forall body q2 rest',
        rest = body ++ q2 :: rest' ->
        Forall (fun b => is_quote b = false /\ byte_val b <> 92) body ->
        is_quote q2 = true ->
        scanToken (c :: rest) = Ok (S (length body), TOKEN_QUOTE)
        /\ (c :: rest) !! S (length body) = Some q2).
Proof.
  intros Hc. unfold scanToken. rewrite Hc. split; [|split].
  - destruct (scan_quote_extent rest c 1 (length (c :: rest)))
      as (k & Hk & Hle & Hin & Hend); [done|].
    rewrite (quote_not_backslash c Hc) in Hk.
    exists (S k). split; [by rewrite Hk|]. split; [lia|]. split.
    + intros [|j] b Hi Hb Hqb; [lia|].
      replace (S j - 1)%nat with j by lia.
      apply (Hin j b); [lia | done | done].
    + intros Hlt. replace (S k - 1)%nat with k by lia.
      apply Hend. lia.
  - intros Hq.
    by rewrite (scan_quote_no_quote rest 1 false (length (c :: rest))).
  - intros body q2 rest' -> Hb Hq. split.
    + by rewrite scan_quote_closing.
    + simpl. by rewrite lookup_app_r, Nat.sub_diag.
Qed.

Lemma scanToken_quoted_extent_witness :
  scanToken (bytes_of "'a\'b' c") = Ok (5%nat, TOKEN_QUOTE)
  /\ scanToken (bytes_of "'bob AND x = 1") = Ok (14%nat, TOKEN_QUOTE)
  /\ scanToken ("'"%byte :: bytes_of "it" ++ Byte.x22 :: bytes_of " x")
     = Ok (3%nat, TOKEN_QUOTE).
Proof.
  destruct (scanToken_quoted_extent "'"%byte (bytes_of "a\'b' c"))
    as [(n & Hn & Hr & _) _]; [reflexivity|].
  destruct (scanToken_quoted_extent "'"%byte (bytes_of "bob AND x = 1"))
    as (_ & H1 & _); [reflexivity|].
  destruct (scanToken_quoted_extent "'"%byte
              (bytes_of "it" ++ Byte.x22 :: bytes_of " x"))
    as (_ & _ & H2); [reflexivity|].
  split.
  { assert (Hn5 : n = 5%nat) by (vm_compute in Hn; congruence).
    rewrite Hn5 in Hn. exact Hn. }
  split.
  - apply H1. apply (bool_decide_unpack _). vm_compute. reflexivity.
  - apply (H2 (bytes_of "it") Byte.x22 (bytes_of " x"));
      [reflexivity | | reflexivity].
    repeat constructor; (reflexivity || discriminate).
Defined.


End TokenizerExtras.

(** ** Canonicalizer: the shape and the length of the canonical text *)

Section CanonicalizerExtras.

Lemma canonical_shape (t : bytes) : forall s,
  canonical s t = true ->
  (forall c, c ∈ t -> is_quote c = false /\ (is_space c = true -> c = sp))
  /\ (forall i c d, t !! i = Some c -> t !! S i = Some d ->
        is_space c = true -> is_space d = false /\ is_digit d = false)
  /\ (forall c, t !! 0%nat = Some c ->
        (is_digit c = true -> s = InWord)
        /\ (is_space c = true -> s <> AfterSpace)).
Proof.
  induction t as [|c t IH]; intros s Hc.
  - split; [by intros ? ?%elem_of_nil|]. split; by intros.
  - simpl in Hc.
    destruct (is_quote c) eqn:Eq; [done|].
    assert (exists s', canonical s' t = true
              /\ (is_space c = true -> c = sp /\ s <> AfterSpace /\ s' = AfterSpace)
              /\ (is_digit c = true -> s = InWord)) as (s' & Ht & Hsp & Hdg).
    { destruct (is_space c) eqn:Es.
      - apply andb_true_iff in Hc as [Hc Hr].
        apply andb_true_iff in Hc as [Hsp Hst].
        apply bool_decide_eq_true in Hsp.
        exists AfterSpace. split; [done|]. split.
        + intros _. split; [done|]. split; [by destruct s | done].
        + intros Hd. by rewrite (digit_not_space _ Hd) in Es.
      - destruct (is_digit c) eqn:Ed.
        + destruct s; try done. exists InWord. by repeat split.
        + exists InWord. by repeat split. }
    destruct (IH s' Ht) as (Hall & Hadj & Hhd).
    split; [|split].
    + intros x [->|Hx]%elem_of_cons; [|by apply Hall].
      split; [done|]. intros Hs. by apply Hsp.
    + intros [|i] x d Hx Hd Hs; simpl in *.
      * injection Hx as <-. destruct (Hsp Hs) as (_ & _ & ->).
        destruct (Hhd d Hd) as [H1 H2]. split.
        -- destruct (is_space d); [by destruct H2|done].
        -- destruct (is_digit d); [by specialize (H1 eq_refl)|done].
      * by apply (Hadj i x d).
    + intros x [= <-]. split; [done|]. intros Hs. by apply Hsp.
Qed.

(** X14.  The text joined from the tokens of any query has a fixed
    shape: it holds no quote byte, its only whitespace byte is the
    space, a space is never followed by a whitespace byte nor by a
    digit, and the text does not start with a digit (the only digits
    left are those inside words). *)
Theorem joinTokens_text_shape (q t : bytes) :
  joinTokens q = Ok t ->
  (forall c, c ∈ t -> is_quote c = false /\ (is_space c = true -> c = sp))
  /\ (forall i c d, t !! i = Some c -> t !! S i = Some d ->
        is_space c = true -> is_space d = false /\ is_digit d = false)
  /\ (forall c, t !! 0%nat = Some c -> is_digit c = false).
Proof.
  intros Hq. apply joinTokens_canonical in Hq.
  destruct (canonical_shape t AtStart Hq) as (H1 & H2 & H3).
  split; [done|]. split; [done|].
  intros c Hc. destruct (H3 c Hc) as [Hd _].
  destruct (is_digit c); [by specialize (Hd eq_refl)|done].
Qed.

Lemma joinTokens_text_shape_witness :
  joinTokens (bytes_of "a  12  b") = Ok (bytes_of "a ? b")
  /\ is_quote "?"%byte = false
  /\ is_digit "a"%byte = false.
Proof.
  destruct (joinTokens_text_shape (bytes_of "a  12  b") (bytes_of "a ? b"))
    as (H1 & _ & H3); [vm_compute; reflexivity|].
  split; [vm_compute; reflexivity|]. split.
  - apply (H1 "?"%byte). apply (bool_decide_unpack _). vm_compute. reflexivity.
  - apply (H3 "a"%byte). reflexivity.
Defined.

Lemma token_piece_length (l : bytes) :
  (length (snd (token_piece l)) <= fst (token_piece l))%nat.
Proof.
  destruct l as [|c rest]; [done|].
  pose proof (token_piece_range (c :: rest) ltac:(done)) as Hr.
  revert Hr. unfold token_piece. cbv zeta.
  destruct (is_quote c); [|destruct (is_digit c); [|destruct (is_space c)]];
    cbn [fst snd]; intros Hr.
  - change (length (bytes_of "?")) with 1%nat. lia.
  - change (length (bytes_of "?")) with 1%nat. lia.
  - change (length (bytes_of " ")) with 1%nat. lia.
  - rewrite length_take. lia.
Qed.

Lemma pieces_length (fuel : nat) : forall l : bytes,
  (length (concat (pieces fuel l)) <= length l)%nat.
Proof.
  induction fuel as [|fuel IH]; intros l.
  - destruct l; simpl; lia.
  - destruct l as [|c rest]; [done|].
    cbn [pieces concat]. rewrite length_app.
    pose proof (token_piece_length (c :: rest)).
    pose proof (token_piece_range (c :: rest) ltac:(done)).
    specialize (IH (drop (fst (token_piece (c :: rest))) (c :: rest))).
    rewrite length_drop in IH. lia.
Qed.

End CanonicalizerExtras.

(** ** Canonicalizer: splitting, the route comment and the length *)

Section RouteExtras.

Lemma IndexByte_app_sep (p rest : bytes) (sep : byte) :
  sep ∉ p -> Strings.IndexByte (p ++ sep :: rest) sep = Some (length p).
Proof.
  induction p as [|c p IH]; intros Hp; simpl.
  - by rewrite decide_True.
  - apply not_elem_of_cons in Hp as [Hc Hp].
    rewrite decide_False by done. by rewrite IH.
Qed.

Lemma IndexByte_Some (s : bytes) (sep : byte) (m : nat) :
  Strings.IndexByte s sep = Some m ->
  s = take m s ++ sep :: drop (S m) s /\ (m < length s)%nat.
Proof.
  revert m. induction s as [|c s IH]; intros m; simpl; [done|].
  destruct (decide (c = sep)) as [->|Hne].
  - intros [= <-]. simpl. split; [by rewrite drop_0 | lia].
  - destruct (Strings.IndexByte s sep) as [k|]; [|done].
    intros [= <-]. destruct (IH k eq_refl) as [Hs Hk]. simpl.
    split; [by rewrite <- Hs | lia].
Qed.

Lemma SplitN_step (p rest : bytes) (sep : byte) (n : nat) :
  sep ∉ p ->
  Strings.SplitN (p ++ sep :: rest) sep (S (S n))
  = p :: Strings.SplitN rest sep (S n).
Proof.
  intros Hp. cbn [Strings.SplitN]. rewrite IndexByte_app_sep by done.
  rewrite take_app_length.
  replace (S (length p)) with (length (p ++ [sep]))
    by (rewrite length_app; simpl; lia).
  rewrite (cons_middle sep p rest), app_assoc, drop_app_length.
  done.
Qed.

Lemma SplitN_SS (s : bytes) (sep : byte) (n : nat) :
  Strings.SplitN s sep (S (S n))
  = match Strings.IndexByte s sep with
    | None => [s]
    | Some m => take m s :: Strings.SplitN (drop (S m) s) sep (S n)
    end.
Proof. reflexivity. Qed.

(** Joining what [SplitN] cut gives the string back. *)
Lemma SplitN_join (n : nat) : forall (s : bytes) (sep : byte),
  join_with sep (Strings.SplitN s sep (S n)) = s.
Proof.
  induction n as [|n IH]; intros s sep; [done|].
  rewrite SplitN_SS.
  destruct (Strings.IndexByte s sep) as [m|] eqn:Hm; [|done].
  destruct (IndexByte_Some _ _ _ Hm) as [Hs _].
  specialize (IH (drop (S m) s) sep).
  destruct (Strings.SplitN (drop (S m) s) sep (S n)) as [|x l] eqn:E.
  - exfalso. destruct n; cbn [Strings.SplitN] in E; [done|].
    by destruct (Strings.IndexByte _ _).
  - change (take m s ++ sep :: join_with sep (x :: l) = s).
    rewrite IH. by rewrite <- Hs.
Qed.

Lemma SplitN_length (n : nat) : forall (s : bytes) (sep : byte),
  (length (Strings.SplitN s sep n) <= n)%nat.
Proof.
  induction n as [|n IH]; intros s sep; [done|].
  destruct n as [|n]; [done|]. rewrite SplitN_SS.
  destruct (Strings.IndexByte s sep) as [m|]; [|simpl; lia].
  cbn [length]. specialize (IH (drop (S m) s) sep). lia.
Qed.

Lemma SplitN_after_colon (s : bytes) :
  Strings.Contains s colon = true ->
  (length (Strings.SplitN s colon 2 !!! 1%nat) < length s)%nat.
Proof.
  unfold Strings.Contains. intros [m Hm]%bool_decide_eq_true.
  cbn [Strings.SplitN]. rewrite Hm.
  destruct (IndexByte_Some _ _ _ Hm) as [_ Hlt].
  change ((take m s :: [drop (S m) s]) !!! 1%nat) with (drop (S m) s).
  rewrite length_drop. lia.
Qed.

Lemma stripRoute_length (t : bytes) :
  (length (stripRoute t) <= length t)%nat.
Proof.
  unfold stripRoute. destruct (routeApplies t) eqn:Hr; [|done].
  unfold routeApplies in Hr.
  pose proof (SplitN_join 4 t sp) as Hj.
  pose proof (SplitN_length 5 t sp) as Hl.
  destruct (Strings.SplitN t sp 5) as [|p0 [|p1 [|p2 [|p3 [|p4 [|? ?]]]]]];
    try (simpl in Hr; discriminate); [|simpl in Hl; lia].
  apply andb_true_iff in Hr as [Hr Hcolon].
  apply andb_true_iff in Hr as [Hr H3].
  apply andb_true_iff in Hr as [_ H1].
  apply bool_decide_eq_true in H1, H3.
  injection H1 as ->. injection H3 as ->.
  change ([p0; bytes_of "/*"; p2; bytes_of "*/"; p4] !!! 0%nat) with p0.
  change ([p0; bytes_of "/*"; p2; bytes_of "*/"; p4] !!! 2%nat) with p2 in *.
  change ([p0; bytes_of "/*"; p2; bytes_of "*/"; p4] !!! 4%nat) with p4.
  pose proof (SplitN_after_colon p2 Hcolon) as Hsuf.
  rewrite <- Hj. cbn [join_with].
  repeat (rewrite length_app; cbn [length]).
  change (length (bytes_of " /* ")) with 4%nat.
  change (length (bytes_of " */ ")) with 4%nat.
  change (length (bytes_of "/*")) with 2%nat.
  change (length (bytes_of "*/")) with 2%nat.
  lia.
Qed.

(** X15.  Canonicalizing never lengthens a query: the text joined
    from the tokens, and the string [cleanupQuery] returns, are at
    most as long as the query. *)
Theorem cleanupQuery_never_longer (q : bytes) :
  exists tmp out,
    joinTokens q = Ok tmp /\ cleanupQuery q = Ok out
    /\ (length out <= length tmp <= length q)%nat.
Proof.
  exists (concat (pieces (length q) q)),
         (stripRoute (concat (pieces (length q) q))).
  split; [apply joinTokens_pieces|]. split; [apply cleanupQuery_pieces|].
  split; [apply stripRoute_length | apply pieces_length].
Qed.

(** X17.  The route-comment rewrite of [cleanupQuery], where it
    applies: on a text of the form [t0 /* host:route */ rest], in which
    [t0], [host] and [route] hold no space and [host] no colon, it
    removes [host] and the colon and keeps everything else; when the
    annotation holds no colon the text is returned as it is. *)
Theorem stripRoute_removes_host (t0 host route rest : bytes) :
  sp ∉ t0 -> sp ∉ host -> colon ∉ host -> sp ∉ route ->
  stripRoute (t0 ++ bytes_of " /* " ++ host ++ colon :: route
              ++ bytes_of " */ " ++ rest)
  = t0 ++ bytes_of " /* " ++ route ++ bytes_of " */ " ++ rest
  /\ (colon ∉ route ->
      stripRoute (t0 ++ bytes_of " /* " ++ route ++ bytes_of " */ " ++ rest)
      = t0 ++ bytes_of " /* " ++ route ++ bytes_of " */ " ++ rest).
Proof.
  intros Ht0 Hhost Hcolon Hroute.
  assert (Hsplit : forall ann, sp ∉ ann ->
    Strings.SplitN (t0 ++ bytes_of " /* " ++ ann ++ bytes_of " */ " ++ rest) sp 5
    = [t0; bytes_of "/*"; ann; bytes_of "*/"; rest]).
  { intros ann Hann.
    change (bytes_of " /* " ++ ann ++ bytes_of " */ " ++ rest)
      with (sp :: bytes_of "/*" ++ sp :: ann ++ sp :: bytes_of "*/" ++ sp :: rest).
    rewrite SplitN_step by done.
    rewrite SplitN_step by (apply (bool_decide_unpack _); vm_compute; reflexivity).
    rewrite SplitN_step by done.
    rewrite SplitN_step by (apply (bool_decide_unpack _); vm_compute; reflexivity).
    done. }
  split.
  - assert (Hann : sp ∉ host ++ colon :: route).
    { rewrite not_elem_of_app, not_elem_of_cons. by repeat split. }
    specialize (Hsplit _ Hann). rewrite <- !app_assoc in Hsplit.
    rewrite <- app_comm_cons in Hsplit.
    unfold stripRoute, routeApplies. rewrite Hsplit.
    change ([t0; bytes_of "/*"; host ++ colon :: route; bytes_of "*/"; rest]
              !!! 2%nat) with (host ++ colon :: route).
    unfold Strings.Contains. rewrite IndexByte_app_sep by done.
    rewrite (SplitN_step host route colon 0) by done.
    done.
  - intros Hnc. specialize (Hsplit _ Hroute).
    unfold stripRoute, routeApplies. rewrite Hsplit.
    change ([t0; bytes_of "/*"; route; bytes_of "*/"; rest] !!! 2%nat)
      with route.
    assert (Strings.Contains route colon = false) as ->; [|by rewrite andb_false_r].
    unfold Strings.Contains. apply bool_decide_eq_false.
    intros [m Hm]. destruct (IndexByte_Some _ _ _ Hm) as [Hs _].
    apply Hnc. rewrite Hs. apply elem_of_app. right. left.
Qed.

Lemma stripRoute_removes_host_witness :
  stripRoute (bytes_of "SELECT" ++ bytes_of " /* " ++ bytes_of "web1"
              ++ colon :: bytes_of "checkout" ++ bytes_of " */ "
              ++ bytes_of "* FROM t")
  = bytes_of "SELECT" ++ bytes_of " /* " ++ bytes_of "checkout"
    ++ bytes_of " */ " ++ bytes_of "* FROM t".
Proof.
  apply (stripRoute_removes_host (bytes_of "SELECT") (bytes_of "web1")
           (bytes_of "checkout") (bytes_of "* FROM t"));
    apply (bool_decide_unpack _); vm_compute; reflexivity.
Defined.

End RouteExtras.

Section RouteIdempotence.

Lemma IndexByte_first (s : bytes) (sep : byte) : forall m : nat,
  Strings.IndexByte s sep = Some m -> sep ∉ take m s.
Proof.
  induction s as [|c s IH]; intros m; simpl; [done|].
  destruct (decide (c = sep)) as [->|Hne].
  - intros [= <-]. simpl. apply not_elem_of_nil.
  - destruct (Strings.IndexByte s sep) as [k|]; [|done].
    intros [= <-]. simpl. apply not_elem_of_cons. split; [done|].
    by apply IH.
Qed.

Lemma Contains_elem (s : bytes) (sep : byte) :
  Strings.Contains s sep = true <-> sep ∈ s.
Proof.
  unfold Strings.Contains. rewrite bool_decide_eq_true.
  induction s as [|c s IH]; simpl.
  - split; [by intros [? ?] | by intros ?%elem_of_nil].
  - destruct (decide (c = sep)) as [->|Hne].
    + split; [intros _; left | by eexists].
    + rewrite elem_of_cons, <- IH.
      destruct (Strings.IndexByte s sep) as [k|]; simpl.
      * split; [intros _; right; by eexists | by eexists].
      * split; [by intros [? ?] | intros [?|[? ?]]; congruence].
Qed.

(** A cut made by [SplitN]: the part before the separator holds no
    separator, and the rest is split in turn. *)
Lemma SplitN_cons (s : bytes) (sep : byte) (n : nat) (p x : bytes)
    (l : list bytes) :
  Strings.SplitN s sep (S (S n)) = p :: x :: l ->
  exists rest,
    s = p ++ sep :: rest /\ (sep ∉ p)
    /\ Strings.SplitN rest sep (S n) = x :: l.
Proof.
  rewrite SplitN_SS.
  destruct (Strings.IndexByte s sep) as [m|] eqn:Hm; [|done].
  intros [= <- H]. exists (drop (S m) s).
  destruct (IndexByte_Some _ _ _ Hm) as [Hs _].
  split; [done|]. split; [by apply IndexByte_first | done].
Qed.

(** The five fields of a text to which the route rewrite applies, and
    what the rewrite returns. *)
Lemma route_shape (t : bytes) :
  routeApplies t = true ->
  exists p0 host route p4,
    t = p0 ++ sp :: bytes_of "/*" ++ sp :: (host ++ colon :: route)
          ++ sp :: bytes_of "*/" ++ sp :: p4
    /\ (sp ∉ p0) /\ (sp ∉ host) /\ (colon ∉ host) /\ (sp ∉ route)
    /\ route_of t = route
    /\ stripRoute t
       = p0 ++ sp :: bytes_of "/*" ++ sp :: route
           ++ sp :: bytes_of "*/" ++ sp :: p4.
Proof.
  intros Hr. unfold stripRoute, route_of. rewrite Hr.
  unfold routeApplies in Hr.
  pose proof (SplitN_length 5 t sp) as Hl.
  destruct (Strings.SplitN t sp 5) as [|p0 [|p1 [|p2 [|p3 [|p4 [|? ?]]]]]] eqn:E;
    try (simpl in Hr; discriminate); [|simpl in Hl; lia].
  apply andb_true_iff in Hr as [Hr Hcolon].
  apply andb_true_iff in Hr as [Hr H3].
  apply andb_true_iff in Hr as [_ H1].
  apply bool_decide_eq_true in H1, H3.
  injection H1 as ->. injection H3 as ->.
  change ([p0; bytes_of "/*"; p2; bytes_of "*/"; p4] !!! 0%nat) with p0.
  change ([p0; bytes_of "/*"; p2; bytes_of "*/"; p4] !!! 2%nat) with p2 in *.
  change ([p0; bytes_of "/*"; p2; bytes_of "*/"; p4] !!! 4%nat) with p4.
  apply SplitN_cons in E as (r1 & -> & Hp0 & E).
  apply SplitN_cons in E as (r2 & -> & _ & E).
  apply SplitN_cons in E as (r3 & -> & Hp2 & E).
  apply SplitN_cons in E as (r4 & -> & _ & E).
  injection E as ->.
  unfold Strings.Contains in Hcolon.
  apply bool_decide_eq_true in Hcolon as [m Hm].
  cbn [Strings.SplitN]. rewrite Hm.
  change ((take m p2 :: [drop (S m) p2]) !!! 1%nat) with (drop (S m) p2).
  destruct (IndexByte_Some _ _ _ Hm) as [Hs _].
  pose proof (IndexByte_first _ _ _ Hm) as Hhost.
  set (host := take m p2) in *. set (route := drop (S m) p2) in *.
  clearbody host route. clear Hm. subst p2.
  apply not_elem_of_app in Hp2 as [Hsh Hp2].
  apply not_elem_of_cons in Hp2 as [_ Hsr].
  by exists p0, host, route, p4.
Qed.

Lemma route_split (p0 r p4 : bytes) :
  sp ∉ p0 -> sp ∉ r ->
  Strings.SplitN
    (p0 ++ sp :: bytes_of "/*" ++ sp :: r ++ sp :: bytes_of "*/" ++ sp :: p4)
    sp 5
  = [p0; bytes_of "/*"; r; bytes_of "*/"; p4].
Proof.
  intros H0 Hr.
  assert (H1 : sp ∉ bytes_of "/*")
    by (apply (bool_decide_unpack _); vm_compute; reflexivity).
  assert (H3 : sp ∉ bytes_of "*/")
    by (apply (bool_decide_unpack _); vm_compute; reflexivity).
  rewrite (SplitN_step p0 _ sp 3 H0).
  rewrite (SplitN_step (bytes_of "/*") _ sp 2 H1).
  rewrite (SplitN_step r _ sp 1 Hr).
  by rewrite (SplitN_step (bytes_of "*/") _ sp 0 H3).
Qed.

(** Whether the rewrite applies to a text with a well-formed
    annotation depends only on the colon. *)
Lemma routeApplies_annotation (p0 r p4 : bytes) :
  sp ∉ p0 -> sp ∉ r ->
  routeApplies
    (p0 ++ sp :: bytes_of "/*" ++ sp :: r ++ sp :: bytes_of "*/" ++ sp :: p4)
  = Strings.Contains r colon.
Proof.
  intros H0 Hr. unfold routeApplies. by rewrite route_split.
Qed.

Lemma stripRoute_shorter (t : bytes) :
  routeApplies t = true -> (length (stripRoute t) < length t)%nat.
Proof.
  intros (p0 & host & route & p4 & Ht & _ & _ & _ & _ & _ & Hs)%route_shape.
  rewrite Hs. rewrite Ht.
  repeat (rewrite length_app; cbn [length]). lia.
Qed.

(** Canonical text is read field by field: after a space the reader
    is in the state [AfterSpace] whatever came before. *)
Lemma canonical_space_split (a : bytes) : forall (s : cstate) (b : bytes),
  canonical s (a ++ sp :: b)
  = canonical s (a ++ [sp]) && canonical AfterSpace b.
Proof.
  induction a as [|c a IH]; intros s b.
  - cbn. by rewrite andb_true_r.
  - cbn [app canonical].
    destruct (is_quote c); [done|].
    destruct (is_space c).
    + rewrite (IH AfterSpace b). by rewrite !andb_assoc.
    + destruct (is_digit c); [destruct s; try done|]; apply IH.
Qed.

Lemma canonical_field_word (w : bytes) : forall (s : cstate) (x : bytes),
  canonical s (w ++ x) = true -> sp ∉ w ->
  Forall (fun c => word_byte c = true) w.
Proof.
  induction w as [|c w IH]; intros s x Hc Hsp; [constructor|].
  apply not_elem_of_cons in Hsp as [Hne Hsp].
  cbn [app canonical] in Hc.
  destruct (is_quote c) eqn:Hq; [done|].
  destruct (is_space c) eqn:Hs.
  - apply andb_true_iff in Hc as [Hc _].
    apply andb_true_iff in Hc as [Hc _].
    apply bool_decide_eq_true in Hc. congruence.
  - constructor; [unfold word_byte; by rewrite Hq, Hs|].
    destruct (is_digit c); [destruct s; try done|];
      by apply (IH InWord x).
Qed.

Lemma canonical_field (r : bytes) :
  Forall (fun c => word_byte c = true) r ->
  canonical AfterSpace (r ++ [sp]) = true
  <-> r <> [] /\ starts_without is_digit r.
Proof.
  intros Hw. destruct r as [|c r].
  - cbn. split; [done | by intros [? _]].
  - inversion Hw as [|? ? Hc Hr]; subst.
    unfold word_byte in Hc.
    apply negb_true_iff, orb_false_iff in Hc as [Hq Hs].
    cbn [app canonical starts_without]. rewrite Hq, Hs.
    destruct (is_digit c).
    + split; [done | by intros [_ ?]].
    + rewrite (canonical_word_run r [sp] Hr). by cbn.
Qed.

(** The text the rewrite returns is canonical exactly when the route
    it keeps is not empty and does not start with a digit. *)
Lemma stripped_canonical (p0 host route p4 : bytes) :
  canonical AtStart
    (p0 ++ sp :: bytes_of "/*" ++ sp :: (host ++ colon :: route)
       ++ sp :: bytes_of "*/" ++ sp :: p4) = true ->
  sp ∉ route ->
  canonical AtStart
    (p0 ++ sp :: bytes_of "/*" ++ sp :: route
       ++ sp :: bytes_of "*/" ++ sp :: p4) = true
  <-> route <> [] /\ starts_without is_digit route.
Proof.
  intros Hc Hsp.
  assert (Hcut : forall w,
            p0 ++ sp :: bytes_of "/*" ++ sp :: w
              ++ sp :: bytes_of "*/" ++ sp :: p4
            = (p0 ++ sp :: bytes_of "/*") ++ sp :: w
              ++ sp :: bytes_of "*/" ++ sp :: p4)
    by (intros w; by rewrite <- app_assoc).
  rewrite Hcut in Hc. rewrite Hcut.
  rewrite canonical_space_split in Hc. rewrite canonical_space_split.
  apply andb_true_iff in Hc as [Hhead Hc].
  rewrite Hhead, andb_true_l.
  rewrite canonical_space_split in Hc. rewrite canonical_space_split.
  apply andb_true_iff in Hc as [Hfield Htail].
  rewrite Htail, andb_true_r.
  apply canonical_field.
  assert (Hw : Forall (fun c => word_byte c = true) (colon :: route)).
  { rewrite <- app_assoc in Hfield.
    assert (Hh : canonical AfterSpace (host ++ (colon :: route) ++ [sp]) = true)
      by done.
    clear Hfield. revert Hh. generalize AfterSpace.
    induction host as [|c host IH]; intros s Hh.
    - apply (canonical_field_word _ s [sp]); [done|].
      apply not_elem_of_cons. split; [done|done].
    - cbn [app canonical] in Hh.
      destruct (is_quote c); [done|].
      destruct (is_space c).
      + apply andb_true_iff in Hh as [_ Hh]. by apply (IH AfterSpace).
      + destruct (is_digit c); [destruct s; try done|]; by apply (IH InWord). }
  by inversion Hw.
Qed.

(** C8, amended.  The token pass of [cleanupQuery] (scan, replace,
    join) is idempotent on every query: the text [t] it joins from [q]
    is joined from [t] again.  Whenever the route-comment rewrite does
    not apply to [t], [t] is [cleanupQuery q] and applying
    [cleanupQuery] to it yields the same string.  When the rewrite
    applies, [cleanupQuery] still returns on its own result, and the
    second run yields the same string exactly when the route kept by
    the first run (the text after the first colon of the annotation)
    is not empty, does not start with a digit and holds no colon. *)
Theorem cleanupQuery_idempotent_iff_plain_route (q t : bytes) :
  joinTokens q = Ok t ->
  joinTokens t = Ok t
  /\ (routeApplies t = false ->
      cleanupQuery q = Ok t /\ cleanupQuery t = Ok t)
  /\ exists out out2,
       cleanupQuery q = Ok out
       /\ cleanupQuery out = Ok out2
       /\ (out2 = out
           <-> routeApplies t = false \/ plain_route (route_of t)).
Proof.
  intros Hq.
  pose proof (joinTokens_canonical q t Hq) as Hcan.
  assert (Ht : joinTokens t = Ok t) by (by apply joinTokens_fixed).
  split; [done|]. split.
  { intros Hr. unfold cleanupQuery. rewrite Hq, Ht. cbn [obind].
    unfold stripRoute. by rewrite Hr. }
  exists (stripRoute t),
         (stripRoute (concat (pieces (length (stripRoute t)) (stripRoute t)))).
  split; [unfold cleanupQuery; by rewrite Hq|].
  split; [apply cleanupQuery_pieces|].
  pose proof (joinTokens_pieces (stripRoute t)) as Hj.
  pose proof (pieces_length (length (stripRoute t)) (stripRoute t)) as Hlen.
  set (t' := concat (pieces (length (stripRoute t)) (stripRoute t))) in *.
  destruct (routeApplies t) eqn:Hr.
  2:{ assert (Hout : stripRoute t = t) by (unfold stripRoute; by rewrite Hr).
      assert (Ht' : t' = t) by (rewrite Hout, Ht in Hj; congruence).
      rewrite Ht', Hout. split; [by left | done]. }
  destruct (route_shape t Hr)
    as (p0 & host & route & p4 & Hshape & Hp0 & Hhost & Hcol & Hroute
        & Hro & Hout).
  rewrite Hro. rewrite Hshape in Hcan.
  pose proof (stripped_canonical p0 host route p4 Hcan Hroute) as Hsc.
  rewrite <- Hout in Hsc.
  pose proof (routeApplies_annotation p0 route p4 Hp0 Hroute) as Hra.
  rewrite <- Hout in Hra.
  split.
  - intros Heq. right.
    assert (Hco : canonical AtStart (stripRoute t) = true).
    { destruct (canonical AtStart (stripRoute t)) eqn:Hco; [done|].
      exfalso.
      assert (Hne : t' <> stripRoute t).
      { intros E. rewrite E in Hj.
        apply joinTokens_canonical in Hj. congruence. }
      destruct (routeApplies t') eqn:Hr'.
      - pose proof (stripRoute_shorter t' Hr'). rewrite Heq in *. lia.
      - apply Hne. rewrite <- Heq. unfold stripRoute. by rewrite Hr'. }
    destruct (proj1 Hsc Hco) as [Hne Hd].
    split; [done|]. split; [done|].
    assert (Ht' : t' = stripRoute t)
      by (rewrite (joinTokens_fixed _ Hco) in Hj; congruence).
    rewrite Ht' in Heq.
    intros Hin. apply Contains_elem in Hin. rewrite <- Hra in Hin.
    pose proof (stripRoute_shorter _ Hin). rewrite Heq in *. lia.
  - intros [Hf|(Hne & Hd & Hnc)]; [done|].
    assert (Hco : canonical AtStart (stripRoute t) = true)
      by (by apply Hsc).
    assert (Ht' : t' = stripRoute t)
      by (rewrite (joinTokens_fixed _ Hco) in Hj; congruence).
    rewrite Ht'. unfold stripRoute at 1. rewrite Hra.
    destruct (Strings.Contains route colon) eqn:Hc; [|done].
    by apply Contains_elem in Hc.
Qed.

Lemma cleanupQuery_idempotent_iff_plain_route_witness :
  cleanupQuery (bytes_of "SELECT /* web1:checkout */ * FROM t WHERE id = 42")
  = Ok (bytes_of "SELECT /* checkout */ * FROM t WHERE id = ?")
  /\ cleanupQuery (bytes_of "SELECT /* checkout */ * FROM t WHERE id = ?")
     = Ok (bytes_of "SELECT /* checkout */ * FROM t WHERE id = ?").
Proof.
  destruct (cleanupQuery_idempotent_iff_plain_route
              (bytes_of "SELECT /* web1:checkout */ * FROM t WHERE id = 42")
              (bytes_of "SELECT /* web1:checkout */ * FROM t WHERE id = ?"))
    as (_ & _ & out & out2 & H1 & H2 & Hiff); [vm_compute; reflexivity|].
  assert (Hout : out = bytes_of "SELECT /* checkout */ * FROM t WHERE id = ?")
    by (vm_compute in H1; injection H1 as <-; reflexivity).
  subst out. split; [exact H1|]. rewrite H2. f_equal. apply Hiff.
  right. split; [discriminate|]. split; [reflexivity|].
  apply (bool_decide_unpack _). vm_compute. reflexivity.
Defined.

End RouteIdempotence.

(** ** Canonicalizer: literals are erased *)

Section LiteralExtras.

Lemma prefix_len_app (p : byte -> bool) (r X : bytes) :
  starts_without p X \/ (prefix_len p r < length r)%nat ->
  prefix_len p (r ++ X) = prefix_len p r.
Proof.
  induction r as [|c r IH]; simpl.
  - intros [H|H]; [|lia]. destruct X as [|x X]; [done|]. simpl in *.
    by rewrite H.
  - destruct (p c); [|done]. intros H. f_equal. apply IH.
    destruct H as [H|H]; [by left | right; lia].
Qed.

Lemma prefix_len_all (p : byte -> bool) (d X : bytes) :
  Forall (fun c => p c = true) d -> starts_without p X ->
  prefix_len p (d ++ X) = length d.
Proof.
  induction 1 as [|c d Hc _ IH]; intros HX; simpl.
  - destruct X as [|x X]; [done|]. simpl in *. by rewrite HX.
  - rewrite Hc. f_equal. by apply IH.
Qed.

(** A run that stops at a byte inside [a0 ++ [w]] stops before [w]
    when [w] is not of the class. *)
Lemma prefix_len_before_last (p : byte -> bool) (a0 : bytes) (w : byte) :
  p w = false -> (prefix_len p (a0 ++ [w]) <= length a0)%nat.
Proof.
  intros Hw. induction a0 as [|c a0 IH]; simpl; [by rewrite Hw|].
  destruct (p c); lia.
Qed.

Lemma token_piece_number c rest :
  is_digit c = true ->
  token_piece (c :: rest) = (S (prefix_len is_digit rest), bytes_of "?").
Proof.
  intros Hd. unfold token_piece. rewrite (digit_not_quote _ Hd), Hd.
  by rewrite (scan_number_eq rest 1 (length (c :: rest))).
Qed.

Lemma ends_with_space_drop (a : bytes) (k : nat) :
  ends_with_space a -> ends_with_space (drop k a).
Proof.
  intros [->|(a0 & w & -> & Hw)]; [left; by rewrite drop_nil|].
  destruct (decide (k <= length a0)%nat).
  - right. exists (drop k a0), w. split; [|done]. by rewrite drop_app_le.
  - left. apply drop_ge. rewrite length_app. simpl. lia.
Qed.

Lemma pieces_cons (fuel : nat) (c : byte) (l : bytes) :
  pieces (S fuel) (c :: l)
  = snd (token_piece (c :: l))
    :: pieces fuel (drop (fst (token_piece (c :: l))) (c :: l)).
Proof. reflexivity. Qed.

(** The tokens of a quote-free text that ends with whitespace do not
    depend on what follows it, provided that does not start with
    whitespace. *)
Lemma pieces_app (fuel : nat) : forall (a X : bytes),
  (length (a ++ X) <= fuel)%nat ->
  Forall (fun c => is_quote c = false) a ->
  ends_with_space a ->
  starts_without is_space X ->
  pieces fuel (a ++ X) = pieces fuel a ++ pieces fuel X.
Proof.
  induction fuel as [|fuel IH]; intros a X Hfuel Hq Hend HX.
  - destruct a, X; simpl in *; try done; lia.
  - destruct a as [|c r]; [by destruct X|].
    destruct Hend as [|(a0 & w & Ha & Hw)]; [done|].
    inversion Hq as [|? ? Hqc Hqr]; subst.
    assert (Hr : forall p, p w = false -> p c = true ->
                 (prefix_len p r < length r)%nat).
    { intros p Hpw Hpc.
      pose proof (prefix_len_before_last p a0 w Hpw) as Hle.
      rewrite <- Ha in Hle. simpl in Hle. rewrite Hpc in Hle.
      apply (f_equal length) in Ha. rewrite length_app in Ha. simpl in Ha.
      lia. }
    assert (Hstep : exists k out,
              (k <= length r)%nat
              /\ token_piece (c :: r ++ X) = (S k, out)
              /\ token_piece (c :: r) = (S k, out)).
    { destruct (is_digit c) eqn:Ed; [|destruct (is_space c) eqn:Es].
      - rewrite !token_piece_number by done.
        rewrite prefix_len_app
          by (right; apply Hr; [|done];
              destruct (is_digit w) eqn:Edw; [|done];
              by rewrite (digit_not_space _ Edw) in Hw).
        eexists _, _; split; [apply prefix_len_le | done].
      - rewrite !token_piece_space by done.
        rewrite prefix_len_app.
        + eexists _, _; split; [apply prefix_len_le | done].
        + by left.
      - rewrite !token_piece_default by done.
        assert (Hlt : (prefix_len word_byte r < length r)%nat).
        { apply Hr; unfold word_byte; [by rewrite Hw, orb_true_r|].
          by rewrite Hqc, Es. }
        rewrite prefix_len_app by (by right).
        rewrite take_app_le by lia.
        eexists _, _; split; [apply prefix_len_le | done]. }
    destruct Hstep as (k & out & Hk & HtX & Ht).
    change ((c :: r) ++ X) with (c :: r ++ X).
    rewrite !pieces_cons. rewrite HtX, Ht. cbn [fst snd].
    cbn [drop]. rewrite drop_app_le by done.
    rewrite IH.
    + cbn [app]. f_equal. f_equal.
      destruct X as [|x X']; [by destruct fuel|].
      apply pieces_fuel; simpl in *; rewrite ?length_app in *; simpl in *; lia.
    + rewrite length_app, length_drop. simpl in Hfuel.
      rewrite length_app in Hfuel. lia.
    + by apply Forall_drop.
    + apply (ends_with_space_drop r k).
      destruct a0 as [|c0 a0]; simpl in Ha.
      * injection Ha as -> ->. by left.
      * injection Ha as -> ->. right. by exists a0, w.
    + done.
Qed.

End LiteralExtras.

Section LiteralTheorems.

Lemma joinTokens_number (pre d post : bytes) :
  Forall (fun c => is_quote c = false) pre ->
  ends_with_space pre ->
  d <> [] ->
  Forall (fun c => is_digit c = true) d ->
  starts_without is_digit post ->
  joinTokens (pre ++ d ++ post)
  = Ok (concat (pieces (length pre) pre) ++ bytes_of "?"
        ++ concat (pieces (length post) post)).
Proof.
  intros Hq Hend Hd Hdig Hpost.
  destruct d as [|c d']; [done|]. inversion Hdig as [|? ? Hc Hd']; subst.
  rewrite joinTokens_pieces. f_equal.
  rewrite pieces_app; [|done|done|done|].
  2:{ simpl. destruct (is_space c) eqn:Es; [|done].
      by rewrite (digit_not_space _ Hc) in Es. }
  rewrite concat_app. f_equal.
  - f_equal. apply pieces_fuel; rewrite ?length_app; lia.
  - rewrite !length_app. cbn [length app].
    replace (length pre + (S (length d') + length post))%nat
      with (S (length pre + length d' + length post)) by lia.
    rewrite pieces_cons, token_piece_number by done. cbn [fst snd concat].
    rewrite prefix_len_all by done.
    cbn [drop]. rewrite drop_app_length.
    f_equal. f_equal. apply pieces_fuel; lia.
Qed.

(** X16.  Numeric literals are erased: in a query whose text before
    the number holds no quote byte and is empty or ends with a
    whitespace byte, and whose text after the number does not start
    with a digit, the number is replaced by one [?] and the two parts
    are canonicalized as they are on their own.  So two such queries
    that differ only in the digits of the number have the same
    canonical text. *)
Theorem number_literals_are_erased (pre d1 d2 post : bytes) :
  Forall (fun c => is_quote c = false) pre ->
  ends_with_space pre ->
  d1 <> [] -> Forall (fun c => is_digit c = true) d1 ->
  d2 <> [] -> Forall (fun c => is_digit c = true) d2 ->
  starts_without is_digit post ->
  exists tpre tpost,
    joinTokens pre = Ok tpre
    /\ joinTokens post = Ok tpost
    /\ joinTokens (pre ++ d1 ++ post) = Ok (tpre ++ bytes_of "?" ++ tpost)
    /\ cleanupQuery (pre ++ d1 ++ post) = cleanupQuery (pre ++ d2 ++ post).
Proof.
  intros Hq Hend Hd1 Hdig1 Hd2 Hdig2 Hpost.
  exists (concat (pieces (length pre) pre)),
         (concat (pieces (length post) post)).
  split; [apply joinTokens_pieces|]. split; [apply joinTokens_pieces|].
  split; [by apply joinTokens_number|].
  unfold cleanupQuery.
  by rewrite (joinTokens_number pre d1 post), (joinTokens_number pre d2 post).
Qed.

Lemma number_literals_are_erased_witness :
  cleanupQuery (bytes_of "SELECT * FROM t WHERE id = " ++ bytes_of "42"
                ++ bytes_of " LIMIT 1")
  = cleanupQuery (bytes_of "SELECT * FROM t WHERE id = " ++ bytes_of "7"
                  ++ bytes_of " LIMIT 1").
Proof.
  destruct (number_literals_are_erased
              (bytes_of "SELECT * FROM t WHERE id = ") (bytes_of "42")
              (bytes_of "7") (bytes_of " LIMIT 1"))
    as (tpre & tpost & _ & _ & _ & H); [| | | | | | |exact H].
  - apply (bool_decide_unpack _). vm_compute. reflexivity.
  - right. exists (bytes_of "SELECT * FROM t WHERE id ="), " "%byte.
    split; reflexivity.
  - discriminate.
  - repeat constructor.
  - discriminate.
  - repeat constructor.
  - reflexivity.
Defined.

Lemma SplitN_comment (t0 ann rest : bytes) :
  sp ∉ t0 -> sp ∉ ann ->
  Strings.SplitN (t0 ++ bytes_of " /* " ++ ann ++ bytes_of " */ " ++ rest) sp 5
  = [t0; bytes_of "/*"; ann; bytes_of "*/"; rest].
Proof.
  intros Ht0 Hann.
  change (bytes_of " /* " ++ ann ++ bytes_of " */ " ++ rest)
    with (sp :: bytes_of "/*" ++ sp :: ann ++ sp :: bytes_of "*/" ++ sp :: rest).
  rewrite SplitN_step by done.
  rewrite SplitN_step by (apply (bool_decide_unpack _); vm_compute; reflexivity).
  rewrite SplitN_step by done.
  rewrite SplitN_step by (apply (bool_decide_unpack _); vm_compute; reflexivity).
  done.
Qed.

(** X19.  The route field of a key, read from the raw payload: for a
    payload [t0 /* host:route */ rest] (no space in [t0], [host] and
    [route], no colon in [host]) it is [route]; for [t0 /* ann */ rest]
    with no colon in [ann] it is [ann]; and for a payload without any
    space it is ["(unknown) "] followed by the canonical query. *)
Theorem route_field (cfg : config) (rs : source) (t0 host route rest : bytes) :
  sp ∉ t0 -> sp ∉ host -> colon ∉ host -> sp ∉ route ->
  formatItem cfg rs
    (t0 ++ bytes_of " /* " ++ (host ++ colon :: route) ++ bytes_of " */ " ++ rest)
    (ItemInt F_ROUTE) = Ok route
  /\ (colon ∉ route ->
      formatItem cfg rs
        (t0 ++ bytes_of " /* " ++ route ++ bytes_of " */ " ++ rest)
        (ItemInt F_ROUTE) = Ok route)
  /\ exists canon,
       cleanupQuery t0 = Ok canon
       /\ formatItem cfg rs t0 (ItemInt F_ROUTE)
          = Ok (bytes_of "(unknown) " ++ canon).
Proof.
  intros Ht0 Hhost Hcolon Hroute. unfold formatItem.
  change (F_ROUTE =? F_NONE) with false.
  change (F_ROUTE =? F_QUERY) with false.
  change (F_ROUTE =? F_ROUTE) with true. cbv iota.
  split; [|split].
  - rewrite SplitN_comment;
      [|done|rewrite not_elem_of_app, not_elem_of_cons; by repeat split].
    change ([t0; bytes_of "/*"; host ++ colon :: route; bytes_of "*/"; rest]
              !!! 2%nat) with (host ++ colon :: route).
    unfold Strings.Contains. rewrite IndexByte_app_sep by done.
    rewrite (SplitN_step host route colon 0) by done. done.
  - intros Hnc. rewrite SplitN_comment by done.
    change ([t0; bytes_of "/*"; route; bytes_of "*/"; rest] !!! 2%nat)
      with route.
    assert (Strings.Contains route colon = false) as ->; [|done].
    unfold Strings.Contains. apply bool_decide_eq_false.
    intros [m Hm]. destruct (IndexByte_Some _ _ _ Hm) as [Hs _].
    apply Hnc. rewrite Hs. apply elem_of_app. right. left.
  - exists (stripRoute (concat (pieces (length t0) t0))).
    split; [apply cleanupQuery_pieces|].
    assert (Strings.IndexByte t0 sp = None) as Hnone.
    { destruct (Strings.IndexByte t0 sp) as [m|] eqn:Hm; [|done].
      destruct (IndexByte_Some _ _ _ Hm) as [Hs _].
      exfalso. apply Ht0. rewrite Hs. apply elem_of_app. right. left. }
    rewrite SplitN_SS, Hnone. cbn [length Nat.leb andb].
    by rewrite cleanupQuery_pieces.
Qed.

Lemma route_field_witness :
  formatItem example_config example_synced_flow
    (bytes_of "SELECT" ++ bytes_of " /* "
     ++ (bytes_of "web1" ++ colon :: bytes_of "checkout")
     ++ bytes_of " */ " ++ bytes_of "* FROM t")
    (ItemInt F_ROUTE) = Ok (bytes_of "checkout").
Proof.
  apply (route_field example_config example_synced_flow (bytes_of "SELECT")
           (bytes_of "web1") (bytes_of "checkout") (bytes_of "* FROM t"));
    apply (bool_decide_unpack _); vm_compute; reflexivity.
Defined.

End LiteralTheorems.

(** ** The format compiler and the key builder *)

Section FormatExtras.

Variable TrimSpace : bytes -> bytes.
Variable ToLower : bytes -> bytes.
Variable runes : bytes -> list Z.
Variable string_of_rune : Z -> bytes.

Lemma flush_inv (st : Format.pstate) :
  Format.do_append st = F_NONE \/ Format.do_append st = F_SOURCE
  \/ Format.do_append st = F_SOURCEIP \/ Format.do_append st = F_ROUTE
  \/ Format.do_append st = F_QUERY ->
  Forall (fun it => valid_item it /\ it <> ItemString [])
    (Format.compiled st) ->
  parse_inv (Format.flush st).
Proof.
  intros Hd Hc. unfold Format.flush.
  destruct (Z.eqb_spec (Format.do_append st) F_NONE) as [E|E]; [done|].
  assert (valid_item (ItemInt (Format.do_append st))) as Hv.
  { simpl. destruct Hd as [?|[?|[?|[?|?]]]]; [done|auto..]. }
  destruct (decide (Format.curstr st = [])) as [Hs|Hs]; split; try done; cbn.
  - apply Forall_app. split; [done|].
    apply Forall_cons_2; [|constructor]. split; [done | discriminate].
  - apply Forall_app. split; [done|].
    apply Forall_cons_2; [split; [done | by intros [= ?]]|].
    apply Forall_cons_2; [|constructor]. split; [done | discriminate].
Qed.

Lemma parse_step_inv (st : Format.pstate) (char : Z) :
  parse_inv st -> parse_inv (Format.parse_step ToLower string_of_rune st char).
Proof.
  intros [Hd Hc]. unfold Format.parse_step.
  destruct (char =? 35).
  - by destruct (Format.is_special st).
  - apply flush_inv.
    + destruct (Format.is_special st); cbn; [|by left].
      unfold Format.directive.
      repeat (destruct (decide _); [cbn; auto|]). cbn. by left.
    + destruct (Format.is_special st); cbn; [|done].
      unfold Format.directive.
      repeat (destruct (decide _); [by cbn|]). by cbn.
Qed.

Lemma parse_fold_inv (rs : list Z) : forall st,
  parse_inv st ->
  parse_inv (fold_left (Format.parse_step ToLower string_of_rune) rs st).
Proof.
  induction rs as [|r rs IH]; intros st Hst; [done|].
  simpl. apply IH. by apply parse_step_inv.
Qed.

Lemma parseFormat_items (format0 : list item) (formatstr : bytes) :
  Forall (fun it => valid_item it /\ it <> ItemString []) format0 ->
  Forall (fun it => valid_item it /\ it <> ItemString [])
    (Format.parseFormat TrimSpace ToLower runes string_of_rune
       format0 formatstr).
Proof.
  intros H0. unfold Format.parseFormat.
  match goal with
  | |- context [fold_left ?f ?l ?s] =>
      pose proof (parse_fold_inv l s (conj eq_refl H0)) as [_ Hc];
      destruct (fold_left f l s) as [sp0 cur da comp]
  end.
  cbn in *. destruct (decide (cur = [])); [done|].
  apply Forall_app. split; [done|].
  apply Forall_cons_2; [|constructor]. split; [done | by intros [= ?]].
Qed.

(** X20.  Whatever the format string, and whatever [TrimSpace],
    [ToLower], rune decoding and rune-to-string conversion do,
    [parseFormat] adds to [format] only non-empty strings and the four
    field selectors: never [F_NONE], never another integer, never a
    value of another type.  Starting from the empty [format] of the
    program, every element of the compiled format is one the key
    builder accepts. *)
Theorem parseFormat_compiles_valid_items (format0 : list item)
    (formatstr : bytes) :
  (Forall (fun it => valid_item it /\ it <> ItemString []) format0 ->
   Forall (fun it => valid_item it /\ it <> ItemString [])
     (Format.parseFormat TrimSpace ToLower runes string_of_rune
        format0 formatstr))
  /\ Forall valid_item
       (Format.parseFormat TrimSpace ToLower runes string_of_rune [] formatstr).
Proof.
  split; [apply parseFormat_items|].
  eapply Forall_impl; [apply parseFormat_items; constructor|].
  by intros it [? _].
Qed.

Lemma processPacket_returns cfg now randn g rs request data :
  Forall valid_item (format cfg) ->
  exists g' rs', processPacket cfg now randn g rs request data = Ok (g', rs').
Proof.
  intros Hfmt. unfold processPacket.
  destruct (receive g rs request data) as [[[g1 rs1] ptype] pdata].
  destruct (negb (synced rs1) && negb (request && (ptype =? COM_QUERY)));
    [by eexists _, _|].
  destruct (ptype =? -1); [by eexists _, _|].
  destruct (negb request).
  - destruct (recordResponse _ _ _ _ _). by eexists _, _.
  - match goal with
    | |- context [recordRequest ?c ?n ?g ?r ?p ?l] =>
        destruct (recordRequest_ok c n g r p l Hfmt) as (g' & rs' & -> & _)
    end.
    by eexists _, _.
Qed.

(** X21.  With a format compiled by [parseFormat] from any string,
    [processPacket] returns on every delivery in every state: the
    three [log.Fatalf] of the key builder and the two of the
    canonicalizer are never reached. *)
Theorem processPacket_never_exits (formatstr : bytes) (verbose dirty : bool)
    (now : Z) (randn : nat) (g : globals) (rs : source) (request : bool)
    (data : slice) :
  exists g' rs',
    processPacket
      (mkConfig verbose dirty
         (Format.parseFormat TrimSpace ToLower runes string_of_rune []
            formatstr))
      now randn g rs request data = Ok (g', rs').
Proof.
  apply processPacket_returns. cbn [format].
  eapply Forall_impl; [apply parseFormat_items; constructor|].
  by intros it [? _].
Qed.

End FormatExtras.

(** ** Packet demultiplexing: flows, keys and the whole state *)

Section CaptureExtras.

Import Capture.

Lemma recordResponse_src now randn g rs plen :
  src (recordResponse now randn g rs plen).2 = src rs
  /\ srcip (recordResponse now randn g rs plen).2 = srcip rs.
Proof.
  unfold recordResponse. destruct (reqSent rs); [|done].
  by destruct rs as [? ? ? ? ? ? ? ? [k|] ?].
Qed.

Lemma processPacket_src cfg now randn g rs request data g' rs' :
  processPacket cfg now randn g rs request data = Ok (g', rs') ->
  src rs' = src rs /\ srcip rs' = srcip rs.
Proof.
  intros H. apply processPacket_cases in H.
  pose proof (receive_frame g rs request data) as Hf.
  destruct (receive g rs request data) as [[[g1 rs1] ptype] pdata].
  destruct Hf as (_ & _ & _ & _ & _ & _ & _ & _ & _ & _ & Hsrc & Hip).
  destruct H as [(_ & -> & _) | [(_ & -> & _) | [(_ & _ & H) | (_ & _ & H)]]].
  - by destruct rs1.
  - done.
  - pose proof (recordResponse_src now randn g1 (set_synced rs1 true)
                  (u64 (Z.of_nat (length (slice_bytes pdata))))) as Hr.
    rewrite <- H in Hr. destruct rs1; cbn in *. by destruct Hr as [-> ->].
  - apply recordRequest_inv in H as (key & _ & _ & ->). by destruct rs1.
Qed.

Lemma u64_succ (n : nat) :
  u64 (u64 (Z.of_nat n) + 1) = u64 (Z.of_nat (S n)).
Proof. unfold u64. rewrite Zplus_mod_idemp_l. f_equal. lia. Qed.

Lemma flow_ok_mono g g' key rs :
  (forall k, is_Some (qbuf g !! k) -> is_Some (qbuf g' !! k)) ->
  flow_ok g key rs -> flow_ok g' key rs.
Proof.
  intros Hmono (H1 & H2 & H3 & H4). repeat split; try done.
  - intros k Hk. apply Hmono. by apply H3.
  - by apply H4.
  - by apply H4.
Qed.

(** The flow lookup of [handlePacket] keeps the state well formed and
    returns a flow of the table. *)
Lemma lookupSource_ok g chmap key g1 chmap1 rs :
  lookupSource g chmap key = (g1, chmap1, rs) ->
  system_ok g chmap ->
  system_ok g1 chmap1 /\ chmap1 !! key = Some rs.
Proof.
  unfold lookupSource. intros H (Hst & Ht & Hq & Hfl).
  destruct (chmap !! key) as [rs0|] eqn:Hk.
  - injection H as <- <- <-. split; [|done]. by split; [|split; [|split]].
  - injection H as <- <- <-. split; [|apply lookup_insert_eq].
    split; [|split; [|split]].
    + cbn. rewrite Hst, map_size_insert_None by done. apply u64_succ.
    + by destruct g.
    + by destruct g.
    + apply map_Forall_insert_2.
      * split; [done|]. split; [done|]. split; [|done].
        intros k Hk'. discriminate Hk'.
      * intros k r Hr. apply (flow_ok_mono g); [by destruct g|].
        by apply (Hfl k r).
Qed.

(** One delivery to a flow of the table keeps the state well formed. *)
Lemma deliver_ok cfg now randn g chmap key rs request data g' rs' :
  system_ok g chmap ->
  chmap !! key = Some rs ->
  processPacket cfg now randn g rs request data = Ok (g', rs') ->
  system_ok g' (<[key := rs']> chmap).
Proof.
  intros (Hst & Ht & Hq & Hfl) Hk H.
  destruct (Hfl key rs Hk) as (Hsrc & Hrt & Hqd & Hbuf).
  destruct (processPacket_counts _ _ _ _ _ _ _ _ _ H) as (_ & _ & _ & Hstr).
  destruct (processPacket_arrays _ _ _ _ _ _ _ _ _ H
              (conj Ht (conj Hrt Hq))) as (Ht' & Hrt' & Hq').
  destruct (processPacket_qbuf_grows _ _ _ _ _ _ _ _ _ H) as (Hmono & Hqd').
  destruct (processPacket_src _ _ _ _ _ _ _ _ _ H) as (Hsrc' & _).
  split; [|split; [done|split; [done|]]].
  - rewrite Hstr, Hst. f_equal. f_equal.
    by rewrite map_size_insert_Some.
  - apply map_Forall_insert_2.
    + split; [congruence|]. split; [done|]. split; [by apply Hqd'|].
      by apply (processPacket_unsynced_nil _ _ _ _ _ _ _ _ _ H).
    + intros k r Hr. apply (flow_ok_mono g); [done|]. by apply (Hfl k r).
Qed.

Lemma dispatch_inv cfg port now randn g chmap srcIP dstIP srcPort dstPort
    payload g' chmap' :
  dispatch cfg port now randn g chmap srcIP dstIP srcPort dstPort payload
  = Return (g', chmap') ->
  (payload = [] /\ g' = g /\ chmap' = chmap)
  \/ exists key request g1 chmap1 rs rs',
       flowOf port srcIP dstIP srcPort dstPort = Return (key, request)
       /\ lookupSource g chmap key = (g1, chmap1, rs)
       /\ processPacket cfg now randn g1 rs request (Some payload)
          = Ok (g', rs')
       /\ chmap' = <[key := rs']> chmap1.
Proof.
  unfold dispatch.
  destruct (Z.leb_spec (Z.of_nat (length payload)) 0) as [Hl|Hl].
  - intros [= <- <-]. left. split; [|done]. destruct payload; [done|].
    simpl in Hl. lia.
  - destruct (flowOf port srcIP dstIP srcPort dstPort) as [[key request]| | |];
      cbn [rbind]; try done.
    destruct (lookupSource g chmap key) as [[g1 chmap1] rs] eqn:Hlook.
    destruct (processPacket cfg now randn g1 rs request (Some payload))
      as [[g2 rs']| |] eqn:Hp; try done.
    intros [= <- <-]. right. by eexists key, request, g1, chmap1, rs, rs'.
Qed.

Lemma handlePacket_inv cfg port now randn g chmap pkt st :
  handlePacket cfg port now randn g chmap pkt = Return st ->
  exists srcIP dstIP srcPort dstPort payload,
    dispatch cfg port now randn g chmap srcIP dstIP srcPort dstPort payload
    = Return st.
Proof.
  unfold handlePacket. cbv zeta.
  repeat match goal with
         | |- rbind ?m _ = _ -> _ =>
             destruct m; cbn [rbind]; try discriminate
         end.
  intros H. by eexists _, _, _, _, _.
Qed.

End CaptureExtras.

Section CaptureTheorems.

Import Capture.

Lemma land_15 (b : byte) : 0 <= Z.land (byte_val b) 15 <= 15.
Proof.
  assert (Z.land (byte_val b) 15 = byte_val b mod 16) as ->.
  { change 15 with (Z.ones 4). rewrite Z.land_ones by lia. done. }
  pose proof (Z.mod_pos_bound (byte_val b) 16 ltac:(lia)). lia.
Qed.

Lemma shiftr_4 (b : byte) : 0 <= Z.shiftr (byte_val b) 4 <= 15.
Proof.
  rewrite Z.shiftr_div_pow2 by lia. change (2 ^ 4) with 16.
  pose proof (byte_val_range b).
  assert (byte_val b / 16 < 16) by (apply Z.div_lt_upper_bound; lia).
  split; [apply Z.div_pos; lia | lia].
Qed.

Lemma u8_small (z : Z) : 0 <= z < 256 -> u8 z = z.
Proof. intros H. unfold u8. apply Z.mod_small. change (2 ^ 8) with 256. lia. Qed.

Lemma at_index_Return pkt i v :
  at_index pkt i = Return v ->
  exists b, Data pkt !! Z.to_nat i = Some b /\ v = byte_val b.
Proof.
  unfold at_index. destruct (Data pkt !! Z.to_nat i) as [b|]; [|done].
  intros [= <-]. eauto.
Qed.

(** X22.  A packet with fewer than 27 captured bytes makes
    [handlePacket] panic: the byte at offset 12 of the TCP header,
    which is at offset 26 or beyond, is read without a length check. *)
Theorem handlePacket_panics_on_short_packet (cfg : config) (port now : Z)
    (randn : nat) (g : globals) (chmap : gmap bytes source) (pkt : Packet) :
  (length (Data pkt) < 27)%nat ->
  handlePacket cfg port now randn g chmap pkt = Panics.
Proof.
  intros Hlen. unfold handlePacket, slice_range, at_index. cbv zeta.
  repeat match goal with
         | |- rbind (if ?c then _ else _) _ = _ =>
             destruct c; cbn [rbind]; [|reflexivity]
         | |- rbind (match ?l with Some _ => _ | None => _ end) _ = _ =>
             destruct l eqn:?; cbn [rbind]; [|reflexivity]
         end.
  exfalso.
  match goal with
  | H : Data pkt !! Z.to_nat (u8 (u8 (14 + u8 (Z.land (byte_val ?b) 15 * 4)) + 12))
        = Some _ |- _ =>
      apply lookup_lt_Some in H; pose proof (land_15 b) as Hb;
      rewrite (u8_small (Z.land (byte_val b) 15 * 4)) in H by lia;
      rewrite (u8_small (14 + _)) in H by lia;
      rewrite (u8_small (14 + _ + 12)) in H by lia
  end.
  lia.
Qed.

Lemma handlePacket_panics_on_short_packet_witness :
  handlePacket example_config 3306 10 0 example_globals ∅
    (mkPacket (take 26 (Data example_packet)) []) = Panics.
Proof.
  apply (handlePacket_panics_on_short_packet example_config 3306 10 0
           example_globals ∅ (mkPacket (take 26 (Data example_packet)) [])).
  vm_compute. lia.
Defined.

(** X23.  [handlePacket] keeps the whole state well formed: the flow
    counter equals the number of flows in the table (modulo [2^64]),
    every flow is stored under its own [src], every sample array has
    100 slots, every flow's [*queryData] points at an aggregate of
    [qbuf], and every unsynced flow has both buffers [nil]. *)
Theorem handlePacket_keeps_state_well_formed (cfg : config) (port now : Z)
    (randn : nat) (g : globals) (chmap : gmap bytes source) (pkt : Packet)
    (g' : globals) (chmap' : gmap bytes source) :
  handlePacket cfg port now randn g chmap pkt = Return (g', chmap') ->
  system_ok g chmap ->
  system_ok g' chmap'.
Proof.
  intros H Hok.
  apply handlePacket_inv in H
    as (srcIP & dstIP & srcPort & dstPort & payload & H).
  apply dispatch_inv in H
    as [(_ & -> & ->) | (key & request & g1 & chmap1 & rs & rs' & _ & Hl & Hp & ->)];
    [done|].
  destruct (lookupSource_ok _ _ _ _ _ _ Hl Hok) as [Hok1 Hk].
  by apply (deliver_ok cfg now randn g1 chmap1 key rs request (Some payload)).
Qed.

Lemma handlePacket_keeps_state_well_formed_witness :
  exists g' chmap',
    handlePacket example_config 3306 10 0 example_globals ∅ example_packet
    = Return (g', chmap')
    /\ system_ok g' chmap'.
Proof.
  assert (Hr : match handlePacket example_config 3306 10 0 example_globals ∅
                        example_packet with
               | Return _ => true
               | _ => false
               end = true) by (vm_compute; reflexivity).
  destruct (handlePacket example_config 3306 10 0 example_globals ∅
              example_packet) as [[g' chmap']| | |] eqn:E;
    [|discriminate Hr..].
  exists g', chmap'. split; [reflexivity|].
  apply (handlePacket_keeps_state_well_formed _ _ _ _ _ _ _ _ _ E).
  split; [reflexivity|]. split; [reflexivity|].
  split; apply map_Forall_empty.
Defined.

End CaptureTheorems.

Section EndpointTheorems.

Import Capture.

Lemma digits_are_digits (d : Decimal.uint) :
  Forall (fun c => is_digit c = true) (digits d).
Proof. induction d; simpl; constructor; done. Qed.

Lemma digits_inj (d : Decimal.uint) : forall d', digits d = digits d' -> d = d'.
Proof.
  induction d as [|d IH|d IH|d IH|d IH|d IH|d IH|d IH|d IH|d IH|d IH];
    intros [|d'|d'|d'|d'|d'|d'|d'|d'|d'|d']; simpl; intros H;
    try discriminate H; try reflexivity;
    injection H as H; f_equal; by apply IH.
Qed.

Lemma decimal_inj (n m : Z) :
  0 <= n -> 0 <= m -> decimal n = decimal m -> n = m.
Proof.
  intros Hn Hm H. unfold decimal in H. apply digits_inj in H.
  apply (f_equal N.of_uint) in H. rewrite !DecimalN.Unsigned.of_to in H.
  lia.
Qed.

Lemma not_digit_not_in_decimal (c : byte) (n : Z) :
  is_digit c = false -> c ∉ decimal n.
Proof.
  intros Hc Hin. unfold decimal in Hin.
  pose proof (digits_are_digits (N.to_uint (Z.to_N n))) as Hd.
  rewrite Forall_forall in Hd. specialize (Hd c Hin). congruence.
Qed.

Lemma app_sep_inj (sep : byte) (a a' b b' : bytes) :
  sep ∉ a -> sep ∉ a' -> a ++ sep :: b = a' ++ sep :: b' -> a = a' /\ b = b'.
Proof.
  revert a'. induction a as [|x a IH]; intros [|x' a'] Ha Ha' H; simpl in H.
  - by injection H as ->.
  - injection H as <- _. exfalso. apply Ha'. left.
  - injection H as -> _. exfalso. apply Ha. left.
  - injection H as <- H. apply not_elem_of_cons in Ha as [_ Ha].
    apply not_elem_of_cons in Ha' as [_ Ha'].
    destruct (IH a' Ha Ha' H) as [-> ->]. done.
Qed.

Lemma colon_not_in_dotted (ip : bytes) : colon ∉ dotted ip.
Proof.
  unfold dotted. rewrite !not_elem_of_app.
  repeat split;
    first [by apply not_digit_not_in_decimal
          | apply (bool_decide_unpack _); vm_compute; reflexivity].
Qed.

Lemma endpoint_srcip (ip : bytes) (port : Z) :
  take (default 0%nat (Strings.IndexByte (endpoint ip port) colon))
    (endpoint ip port)
  = dotted ip.
Proof.
  unfold endpoint. change (bytes_of ":" ++ decimal port)
    with (colon :: decimal port).
  rewrite IndexByte_app_sep by apply colon_not_in_dotted.
  exact (take_app_length _ _).
Qed.

(** X24.  The first packet of a flow: when the table has no flow for
    an endpoint, the lookup creates one under the key
    [a.b.c.d:port], unsynced and with empty buffers, whose [srcip] is
    the dotted quad [a.b.c.d], stores it in the table and adds one to
    the flow counter; a later lookup of the same key returns the
    stored flow and changes nothing. *)
Theorem first_packet_creates_flow (g : globals) (chmap : gmap bytes source)
    (ip : bytes) (port : Z) :
  chmap !! endpoint ip port = None ->
  exists rs,
    lookupSource g chmap (endpoint ip port)
    = (count_stream g, <[endpoint ip port := rs]> chmap, rs)
    /\ src rs = endpoint ip port
    /\ srcip rs = dotted ip
    /\ synced rs = false /\ reqbuffer rs = None /\ resbuffer rs = None
    /\ lookupSource (count_stream g) (<[endpoint ip port := rs]> chmap)
         (endpoint ip port)
       = (count_stream g, <[endpoint ip port := rs]> chmap, rs).
Proof.
  intros Hnone. unfold lookupSource at 1. rewrite Hnone, endpoint_srcip.
  eexists. split; [reflexivity|]. repeat split.
  unfold lookupSource. by rewrite lookup_insert_eq.
Qed.

Lemma first_packet_creates_flow_witness :
  exists rs,
    lookupSource example_globals ∅
      (endpoint [Byte.x0a; Byte.x00; Byte.x00; Byte.x07] 51234)
    = (count_stream example_globals,
       <[endpoint [Byte.x0a; Byte.x00; Byte.x00; Byte.x07] 51234 := rs]> ∅, rs)
    /\ src rs = bytes_of "10.0.0.7:51234"
    /\ srcip rs = bytes_of "10.0.0.7".
Proof.
  destruct (first_packet_creates_flow example_globals ∅
              [Byte.x0a; Byte.x00; Byte.x00; Byte.x07] 51234)
    as (rs & H1 & H2 & H3 & _); [reflexivity|].
  exists rs. split; [exact H1|]. split; [exact H2 | exact H3].
Defined.

(** X25.  Flow keys do not collide: two endpoints with 4-byte
    addresses and non-negative ports that are printed to the same key
    are the same endpoint. *)
Theorem endpoint_injective (ip ip' : bytes) (port port' : Z) :
  length ip = 4%nat -> length ip' = 4%nat ->
  0 <= port -> 0 <= port' ->
  endpoint ip port = endpoint ip' port' ->
  ip = ip' /\ port = port'.
Proof.
  intros Hl Hl' Hp Hp' H.
  destruct ip as [|a0 [|a1 [|a2 [|a3 [|? ?]]]]]; try discriminate Hl.
  destruct ip' as [|b0 [|b1 [|b2 [|b3 [|? ?]]]]]; try discriminate Hl'.
  unfold endpoint in H. change (bytes_of ":") with [colon] in H.
  cbn [app] in H.
  apply app_sep_inj in H as [Hd Hport]; try apply colon_not_in_dotted.
  split; [|by apply decimal_inj].
  unfold dotted in Hd. cbn [lookup_total list_lookup_total] in Hd.
  change (bytes_of ".") with ["."%byte] in Hd. cbn [app] in Hd.
  apply app_sep_inj in Hd as [H0 Hd];
    try (by apply not_digit_not_in_decimal).
  apply app_sep_inj in Hd as [H1 Hd];
    try (by apply not_digit_not_in_decimal).
  apply app_sep_inj in Hd as [H2 H3];
    try (by apply not_digit_not_in_decimal).
  pose proof (byte_val_range a0). pose proof (byte_val_range a1).
  pose proof (byte_val_range a2). pose proof (byte_val_range a3).
  pose proof (byte_val_range b0). pose proof (byte_val_range b1).
  pose proof (byte_val_range b2). pose proof (byte_val_range b3).
  apply decimal_inj in H0, H1, H2, H3; try lia.
  apply byte_val_inj in H0, H1, H2, H3. by subst.
Qed.

Lemma endpoint_injective_witness :
  [Byte.x0a; Byte.x00; Byte.x00; Byte.x07]
  = [Byte.x0a; Byte.x00; Byte.x00; Byte.x07] /\ 51234 = 51234.
Proof.
  apply (endpoint_injective [Byte.x0a; Byte.x00; Byte.x00; Byte.x07]
           [Byte.x0a; Byte.x00; Byte.x00; Byte.x07] 51234 51234);
    (reflexivity || lia).
Defined.

End EndpointTheorems.

Section HeaderTheorems.

Import Capture.

Lemma be16_u16 (hi lo : byte) :
  u16 (u16 (Z.shiftl (byte_val hi) 8) + byte_val lo) = be16 hi lo.
Proof.
  pose proof (byte_val_range hi). pose proof (byte_val_range lo).
  unfold u16, be16. rewrite Z.shiftl_mul_pow2 by lia.
  change (2 ^ 16) with 65536. change (2 ^ 8) with 256.
  rewrite (Z.mod_small (byte_val hi * 256)) by lia.
  rewrite Z.mod_small by lia. lia.
Qed.

(** Reading inside the three headers of a packet. *)
Lemma header_lookup (eth iph rest : bytes) (j : nat) :
  (eth ++ iph ++ rest) !! (length eth + j)%nat = (iph ++ rest) !! j.
Proof. rewrite lookup_app_r by lia. f_equal. lia. Qed.

Lemma header_slice (eth iph rest spare0 : bytes) (k : nat) :
  (k + 4 <= length iph)%nat ->
  take 4 (drop (length eth + k) ((eth ++ iph ++ rest) ++ spare0))
  = take 4 (drop k iph).
Proof.
  intros Hk. rewrite <- !app_assoc. rewrite drop_app_add.
  rewrite drop_app_le by lia.
  rewrite take_app_le; [done|]. rewrite length_drop. lia.
Qed.

Lemma header_slice14 (eth iph rest spare0 : bytes) (k : nat) :
  length eth = 14%nat -> (k + 4 <= length iph)%nat ->
  take 4 (drop (14 + k) ((eth ++ iph ++ rest) ++ spare0))
  = take 4 (drop k iph).
Proof. intros <-. apply header_slice. Qed.

Lemma header_lookup14 (eth iph rest : bytes) (j : nat) :
  length eth = 14%nat ->
  (eth ++ iph ++ rest) !! (14 + j)%nat = (iph ++ rest) !! j.
Proof. intros <-. apply header_lookup. Qed.

(** X27.  On a packet made of 14 bytes of link header, an IP header
    whose length is four times the low nibble of its first byte (at
    least 20 bytes), a TCP header whose length is four times the high
    nibble of its byte 12, and a payload, [handlePacket] takes the
    addresses from bytes 12-15 and 16-19 of the IP header, the ports
    big-endian from bytes 0-1 and 2-3 of the TCP header, and hands
    exactly the payload to the rest of the function. *)
Theorem handlePacket_reads_headers (cfg : config) (port now : Z)
    (randn : nat) (g : globals) (chmap : gmap bytes source)
    (eth iph tcph payload spare0 : bytes) (b0 s0 s1 d0 d1 off : byte) :
  length eth = 14%nat ->
  iph !! 0%nat = Some b0 ->
  Z.of_nat (length iph) = Z.land (byte_val b0) 15 * 4 ->
  (20 <= length iph)%nat ->
  tcph !! 0%nat = Some s0 -> tcph !! 1%nat = Some s1 ->
  tcph !! 2%nat = Some d0 -> tcph !! 3%nat = Some d1 ->
  tcph !! 12%nat = Some off ->
  Z.of_nat (length tcph) = Z.shiftr (byte_val off) 4 * 4 ->
  handlePacket cfg port now randn g chmap
    (mkPacket (eth ++ iph ++ tcph ++ payload) spare0)
  = dispatch cfg port now randn g chmap
      (take 4 (drop 12 iph)) (take 4 (drop 16 iph))
      (be16 s0 s1) (be16 d0 d1) payload.
Proof.
  intros Heth Hb0 Hihl H20 Hs0 Hs1 Hd0 Hd1 Hoff Htl.
  pose proof (land_15 b0) as Hland. pose proof (shiftr_4 off) as Hshr.
  assert (Htcp : (13 <= length tcph)%nat)
    by (apply lookup_lt_Some in Hoff; lia).
  unfold handlePacket. cbv zeta.
  change (u8 (14 + 12)) with 26. change (u8 (14 + 16)) with 30.
  change (u8 (14 + 20)) with 34.
  (* the two address slices *)
  unfold slice_range. cbn [Data spare].
  assert (Hlen : (34 <= length ((eth ++ iph ++ tcph ++ payload) ++ spare0))%nat)
    by (rewrite !length_app; lia).
  destruct (Z.leb_spec 30 (Z.of_nat (length ((eth ++ iph ++ tcph ++ payload) ++ spare0))));
    [|lia].
  destruct (Z.leb_spec 34 (Z.of_nat (length ((eth ++ iph ++ tcph ++ payload) ++ spare0))));
    [|lia].
  cbn [Z.leb Z.compare Pos.compare Pos.compare_cont andb rbind].
  change (Z.to_nat (30 - 26)) with 4%nat. change (Z.to_nat (34 - 30)) with 4%nat.
  change (Z.to_nat 26) with (14 + 12)%nat. change (Z.to_nat 30) with (14 + 16)%nat.
  rewrite !header_slice14 by (done || lia).
  (* the IP header length *)
  unfold at_index at 1. cbn [Data]. change (Z.to_nat 14) with (14 + 0)%nat.
  rewrite header_lookup14, (lookup_app_l_Some _ _ _ _ Hb0) by done.
  cbn [rbind].
  rewrite (u8_small (Z.land (byte_val b0) 15 * 4)) by lia.
  rewrite (u8_small (14 + _)) by lia.
  set (pos1 := 14 + Z.land (byte_val b0) 15 * 4).
  assert (Hpos1 : forall j : nat, (j < 20)%nat ->
            Z.to_nat (u8 (pos1 + Z.of_nat j)) = (length eth + (length iph + j))%nat).
  { intros j Hj. rewrite u8_small by lia. lia. }
  assert (Hrd : forall (j : nat) (b : byte), (j < 20)%nat -> tcph !! j = Some b ->
            at_index (mkPacket (eth ++ iph ++ tcph ++ payload) spare0)
              (u8 (pos1 + Z.of_nat j)) = Return (byte_val b)).
  { intros j b Hj Hb. unfold at_index. cbn [Data]. rewrite (Hpos1 j Hj).
    rewrite header_lookup. rewrite lookup_app_r by lia.
    replace (length iph + j - length iph)%nat with j by lia.
    by rewrite (lookup_app_l_Some _ _ _ _ Hb). }
  assert (Hrd0 : at_index (mkPacket (eth ++ iph ++ tcph ++ payload) spare0) pos1
                 = Return (byte_val s0)).
  { specialize (Hrd 0%nat s0 ltac:(lia) Hs0).
    rewrite Z.add_0_r, u8_small in Hrd by lia. done. }
  assert (Hrdz : forall (z : Z) (j : nat) (b : byte),
            z = Z.of_nat j -> (j < 20)%nat -> tcph !! j = Some b ->
            at_index (mkPacket (eth ++ iph ++ tcph ++ payload) spare0)
              (u8 (pos1 + z)) = Return (byte_val b))
    by (intros z j b ->; apply Hrd).
  rewrite Hrd0. cbn [rbind].
  rewrite (Hrdz 1 1%nat s1 eq_refl ltac:(lia) Hs1). cbn [rbind].
  rewrite (Hrdz 2 2%nat d0 eq_refl ltac:(lia) Hd0). cbn [rbind].
  rewrite (Hrdz 3 3%nat d1 eq_refl ltac:(lia) Hd1). cbn [rbind].
  rewrite (Hrdz 12 12%nat off eq_refl ltac:(lia) Hoff). cbn [rbind].
  rewrite !be16_u16.
  (* the payload *)
  rewrite (u8_small (Z.shiftr (byte_val off) 4 * 4)) by lia.
  rewrite (u8_small (pos1 + _)) by lia.
  unfold slice_from. cbn [Data].
  assert (Hp2 : Z.to_nat (pos1 + Z.shiftr (byte_val off) 4 * 4)
                = (length eth + (length iph + length tcph))%nat) by lia.
  rewrite Hp2.
  destruct (Z.leb_spec (pos1 + Z.shiftr (byte_val off) 4 * 4)
              (Z.of_nat (length (eth ++ iph ++ tcph ++ payload))));
    [|rewrite !length_app in *; lia].
  cbn [rbind].
  rewrite drop_app_add, drop_app_add, drop_app_length. done.
Qed.

End HeaderTheorems.

Section ExitTheorems.

Import Capture.

Lemma handlePacket_reads_headers_witness :
  handlePacket example_config 3306 10 0 example_globals ∅ example_packet
  = dispatch example_config 3306 10 0 example_globals ∅
      [Byte.x0a; Byte.x00; Byte.x00; Byte.x07]
      [Byte.x0a; Byte.x00; Byte.x00; Byte.x01]
      (be16 Byte.xc8 Byte.x22) (be16 Byte.x0c Byte.xea) example_frame.
Proof.
  apply (handlePacket_reads_headers example_config 3306 10 0 example_globals ∅
           (replicate 14 Byte.x00)
           ([Byte.x45] ++ replicate 11 Byte.x00
            ++ [Byte.x0a; Byte.x00; Byte.x00; Byte.x07]
            ++ [Byte.x0a; Byte.x00; Byte.x00; Byte.x01])
           ([Byte.xc8; Byte.x22; Byte.x0c; Byte.xea] ++ replicate 8 Byte.x00
            ++ [Byte.x50] ++ replicate 7 Byte.x00)
           example_frame []
           Byte.x45 Byte.xc8 Byte.x22 Byte.x0c Byte.xea Byte.x50);
    first [reflexivity | vm_compute; lia].
Defined.

Lemma dispatch_exits cfg port now randn g chmap srcIP dstIP srcPort dstPort
    payload :
  Forall valid_item (format cfg) ->
  match dispatch cfg port now randn g chmap srcIP dstIP srcPort dstPort
          payload with
  | Exits msg =>
      msg = "got packet src = %d, dst = %d"%string
      /\ payload <> [] /\ srcPort <> port /\ dstPort <> port
  | NoFuel => False
  | Panics => False
  | Return _ => payload = [] \/ srcPort = port \/ dstPort = port
  end.
Proof.
  intros Hfmt. unfold dispatch, flowOf.
  destruct (Z.leb_spec (Z.of_nat (length payload)) 0) as [Hl|Hl].
  { left. destruct payload; [done | simpl in Hl; lia]. }
  assert (payload <> []) by (intros ->; simpl in Hl; lia).
  destruct (Z.eqb_spec srcPort port) as [Hs|Hs]; cbn [rbind].
  - destruct (lookupSource _ _ _) as [[g1 chmap1] rs].
    destruct (processPacket_returns cfg now randn g1 rs false (Some payload)
                Hfmt) as (g2 & rs' & ->). auto.
  - destruct (Z.eqb_spec dstPort port) as [Hd|Hd]; cbn [rbind]; [|done].
    destruct (lookupSource _ _ _) as [[g1 chmap1] rs].
    destruct (processPacket_returns cfg now randn g1 rs true (Some payload)
                Hfmt) as (g2 & rs' & ->). auto.
Qed.

(** X26.  With a format of valid items, the only way [handlePacket]
    ends the process is the port check: it calls [log.Fatalf] exactly
    when the packet has a payload and neither its source port nor its
    destination port is the sniffed port; the key builder and the
    canonicalizer never do. *)
Theorem handlePacket_exits_only_on_foreign_port (cfg : config)
    (port now : Z) (randn : nat) (g : globals) (chmap : gmap bytes source) :
  Forall valid_item (format cfg) ->
  (forall pkt msg,
     handlePacket cfg port now randn g chmap pkt = Exits msg ->
     msg = "got packet src = %d, dst = %d"%string)
  /\ (forall pkt, handlePacket cfg port now randn g chmap pkt <> NoFuel)
  /\ (forall srcIP dstIP srcPort dstPort payload,
        (exists msg,
           dispatch cfg port now randn g chmap srcIP dstIP srcPort dstPort
             payload = Exits msg)
        <-> payload <> [] /\ srcPort <> port /\ dstPort <> port).
Proof.
  intros Hfmt.
  assert (Hhp : forall pkt,
            handlePacket cfg port now randn g chmap pkt = Panics
            \/ exists srcIP dstIP srcPort dstPort payload,
                 handlePacket cfg port now randn g chmap pkt
                 = dispatch cfg port now randn g chmap srcIP dstIP srcPort
                     dstPort payload).
  { intros pkt. unfold handlePacket, slice_range, slice_from, at_index.
    cbv zeta.
    repeat match goal with
           | |- rbind (if ?c then _ else _) _ = _ \/ _ =>
               destruct c; cbn [rbind]; [|by left]
           | |- rbind (match ?l with Some _ => _ | None => _ end) _ = _ \/ _ =>
               destruct l; cbn [rbind]; [|by left]
           end.
    right. by eexists _, _, _, _, _. }
  split; [|split].
  - intros pkt msg H.
    destruct (Hhp pkt) as [Hp | (a & b & c & d & e & Hd)]; [congruence|].
    rewrite Hd in H.
    pose proof (dispatch_exits cfg port now randn g chmap a b c d e Hfmt) as Hx.
    rewrite H in Hx. by destruct Hx.
  - intros pkt H.
    destruct (Hhp pkt) as [Hp | (a & b & c & d & e & Hd)]; [congruence|].
    rewrite Hd in H.
    pose proof (dispatch_exits cfg port now randn g chmap a b c d e Hfmt) as Hx.
    by rewrite H in Hx.
  - intros srcIP dstIP srcPort dstPort payload.
    pose proof (dispatch_exits cfg port now randn g chmap srcIP dstIP srcPort
                  dstPort payload Hfmt) as Hx.
    split.
    + intros [msg H]. rewrite H in Hx. by destruct Hx as (_ & ? & ? & ?).
    + intros (Hp & Hs & Hd).
      destruct (dispatch _ _ _ _ _ _ _ _ _ _ _) as [st|msg| |];
        [|by exists msg|done|done].
      destruct Hx as [?|[?|?]]; done.
Qed.

Lemma handlePacket_exits_only_on_foreign_port_witness :
  exists msg,
    dispatch example_config 3306 10 0 example_globals ∅
      [Byte.x0a; Byte.x00; Byte.x00; Byte.x07]
      [Byte.x0a; Byte.x00; Byte.x00; Byte.x01] 51234 8080 example_frame
    = Exits msg.
Proof.
  destruct (handlePacket_exits_only_on_foreign_port example_config 3306 10 0
              example_globals ∅) as (_ & _ & H); [repeat constructor|].
  apply H. repeat split; (discriminate || lia).
Defined.

End ExitTheorems.

Section TimingExtras.

Import Timing.

Lemma perm_elem (l l' : list Z) (m : Z) : l ≡ₚ l' -> m ∈ l -> m ∈ l'.
Proof. intros Hp. by rewrite Hp. Qed.

Lemma minimum_perm (l l' : list Z) : l ≡ₚ l' -> minimum l = minimum l'.
Proof.
  intros Hp. destruct l as [|x l].
  { by apply Permutation_nil_l in Hp as ->. }
  assert (Hl' : l' <> []).
  { intros ->. by apply Permutation_nil_r in Hp. }
  destruct (minimum_spec (x :: l)) as [Hin Hle]; [done|].
  destruct (minimum_spec l' Hl') as [Hin' Hle'].
  apply (perm_elem _ _ _ Hp) in Hin.
  apply (perm_elem _ _ _ (Permutation_sym Hp)) in Hin'.
  specialize (Hle _ Hin'). specialize (Hle' _ Hin). lia.
Qed.

Lemma maximum_perm (l l' : list Z) : l ≡ₚ l' -> maximum l = maximum l'.
Proof.
  intros Hp. destruct l as [|x l].
  { by apply Permutation_nil_l in Hp as ->. }
  assert (Hl' : l' <> []).
  { intros ->. by apply Permutation_nil_r in Hp. }
  destruct (maximum_spec (x :: l)) as [Hin Hle]; [done|].
  destruct (maximum_spec l' Hl') as [Hin' Hle'].
  apply (perm_elem _ _ _ Hp) in Hin.
  apply (perm_elem _ _ _ (Permutation_sym Hp)) in Hin'.
  specialize (Hle _ Hin'). specialize (Hle' _ Hin). lia.
Qed.

Lemma acc_of_perm (l l' : list Z) : l ≡ₚ l' -> acc_of l = acc_of l'.
Proof.
  intros Hp. unfold acc_of.
  rewrite (minimum_perm _ _ Hp), (maximum_perm _ _ Hp), (sumZ_perm _ _ Hp).
  rewrite (Permutation_length Hp). f_equal.
  destruct l, l'; try done.
  - by apply Permutation_nil_cons in Hp.
  - symmetry in Hp. by apply Permutation_nil_cons in Hp.
Qed.

(** X28.  The summary does not depend on which slots the samples sit
    in: two sample arrays of [uint64] values that are permutations of
    each other have the same minimum, average and maximum.  So the
    slot [rand.Intn(100)] picks for a sample matters only through the
    sample it overwrites. *)
Theorem calculateTimes_order_independent (timings timings' : list Z) :
  Forall (fun v => 0 <= v < 2 ^ 64) timings ->
  timings ≡ₚ timings' ->
  calculateTimes timings = calculateTimes timings'.
Proof.
  intros Hr Hp.
  assert (Hr' : Forall (fun v => 0 <= v < 2 ^ 64) timings')
    by (by rewrite <- Hp).
  unfold calculateTimes.
  rewrite (times_loop_acc_of _ Hr), (times_loop_acc_of _ Hr').
  assert (Hnz : nonzero timings ≡ₚ nonzero timings')
    by (unfold nonzero; by rewrite Hp).
  by rewrite (acc_of_perm _ _ Hnz).
Qed.

Lemma calculateTimes_order_independent_witness :
  calculateTimes [3; 0; 5; 4] = calculateTimes [0; 3; 5; 4].
Proof.
  apply calculateTimes_order_independent.
  - apply (bool_decide_unpack _). vm_compute. reflexivity.
  - apply perm_swap.
Defined.

Lemma nonzero_replicate (n : nat) : nonzero (replicate n 0) = [].
Proof.
  unfold nonzero. induction n as [|n IH]; [done|].
  cbn [replicate]. rewrite filter_cons_False by (intros H; by apply H).
  exact IH.
Qed.

Lemma nonzero_single (n i : nat) (d : Z) :
  (i < n)%nat ->
  nonzero (<[i := d]> (replicate n 0)) = if decide (d = 0) then [] else [d].
Proof.
  revert i. induction n as [|n IH]; intros i Hi; [lia|].
  destruct i as [|i]; cbn [replicate].
  - change (<[0%nat := d]> (0 :: replicate n 0)) with (d :: replicate n 0).
    unfold nonzero. rewrite filter_cons.
    fold (nonzero (replicate n 0)). rewrite nonzero_replicate.
    by destruct (decide (d = 0)); case_decide.
  - change (<[S i := d]> (0 :: replicate n 0))
      with (0 :: <[i := d]> (replicate n 0)).
    unfold nonzero. rewrite filter_cons_False by (intros H; by apply H).
    apply IH. lia.
Qed.

Lemma calculateTimes_single (i : nat) (d : Z) :
  (i < 100)%nat -> 0 <= d < 2 ^ 64 ->
  calculateTimes (<[i := d]> (replicate 100 0)) = (ms d, ms d, ms d).
Proof.
  intros Hi Hd. unfold calculateTimes.
  rewrite times_loop_acc_of.
  2:{ apply Forall_insert; [|lia]. apply Forall_replicate.
      change (2 ^ 64) with 18446744073709551616. lia. }
  rewrite nonzero_single by done.
  destruct (decide (d = 0)) as [->|Hne]; [reflexivity|].
  unfold acc_of. cbn [counts total min max length sumZ foldr minimum maximum].
  change (u64 (Z.of_nat 1)) with 1. change (1 >? 0) with true. cbv iota.
  unfold u64. rewrite Z.add_0_r, Z.mod_small, Z.div_1_r by done.
  reflexivity.
Qed.

(** X29.  From the capture to the status line: on a process whose
    global sample array is still empty, the response that answers an
    outstanding request makes [calculateTimes] of the global array
    report the measured time, [now - sent] as a [uint64] in
    milliseconds, as minimum, average and maximum at once. *)
Theorem first_response_is_whole_summary (cfg : config) (now : Z)
    (randn : nat) (g : globals) (rs : source) (data : slice)
    (ptype : Z) (payload : bytes) (buf : slice) (sent : Z) :
  synced rs = true ->
  reqSent rs = Some sent ->
  carvePacket data = (ptype, Some payload, buf) ->
  ptype <> -1 ->
  (randn < 100)%nat ->
  times g = replicate 100 0 ->
  exists g' rs',
    processPacket cfg now randn g rs false data = Ok (g', rs')
    /\ calculateTimes (times g')
       = (ms (u64 (now - sent)), ms (u64 (now - sent)),
          ms (u64 (now - sent))).
Proof.
  intros Hs Hsent Hc Hp Hr Ht.
  rewrite (processPacket_synced_response _ _ _ _ _ _ _ _ _ Hs Hc Hp).
  rewrite (recordResponse_sent _ _ _ _ _ sent) by (by destruct rs).
  eexists _, _. split; [reflexivity|].
  assert (Htg : forall g0, times (count_packet g0 true) = times g0)
    by (by intros []).
  destruct (qdata _); cbn [times set_qbuf set_times];
    rewrite ?Htg, Ht; apply calculateTimes_single; try done;
    unfold u64; apply Z.mod_pos_bound; done.
Qed.

Lemma first_response_is_whole_summary_witness :
  exists g' rs',
    processPacket example_config 1500 7 example_globals
      (set_reqSent example_synced_flow (Some 1000))
      false (Some example_frame) = Ok (g', rs')
    /\ calculateTimes (times g') = (ms 500, ms 500, ms 500).
Proof.
  apply (first_response_is_whole_summary example_config 1500 7
           example_globals (set_reqSent example_synced_flow (Some 1000))
           (Some example_frame) COM_QUERY (bytes_of "SELECT 1") None 1000);
    first [reflexivity | discriminate | lia].
Defined.

End TimingExtras.
